(** * Maestro firmware: audio ring buffer, VAD, YIN pitch step, turn detector

    A shallow embedding of the signal-processing core of the firmware
    ([audio_capture.cpp], [vad_detector.cpp], [pitch_detector.cpp],
    [main.cpp], and the pattern player of [feedback.cpp]), the properties
    of it that the specification states, and further properties of the
    code: invariants, memory safety of the array code, and behaviour at the
    edges.

    Conventions.
    - [uint32_t] values are [Z] in [0, 2^32); every subtraction or increment
      the C code performs on them is written with its wrap-around ([u32]).
    - [float] is IEEE-754 binary32, modelled with the executable
      specification of the Standard Library ([SpecFloat], precision 24,
      maximal exponent 128), one rounding per C operation.
    - [millis()] is an input: every function that reads the clock takes the
      value it reads as an argument.
    - Module-level [static] variables become the fields of one record per
      translation unit; functions pass the record explicitly. *)

From Stdlib Require Import ZArith Lia Bool List Sorted.
From Stdlib Require Import Floats.SpecFloat.
From stdpp Require Import base list.

Local Open Scope Z_scope.

(** ** Machine integers *)

Definition u32 (z : Z) : Z := z mod 2 ^ 32.
Definition u16 (z : Z) : Z := z mod 2 ^ 16.

(** [(int)x] for an unsigned 32-bit [x] (two's complement). *)
Definition int_of_u32 (z : Z) : Z :=
  if z <? 2 ^ 31 then z else z - 2 ^ 32.

(** ** IEEE-754 binary32 *)

Module F32.

Definition prec : Z := 24.
Definition emax : Z := 128.

Definition t : Type := spec_float.

Definition add : t -> t -> t := SFadd prec emax.
Definition sub : t -> t -> t := SFsub prec emax.
Definition mul : t -> t -> t := SFmul prec emax.
Definition div : t -> t -> t := SFdiv prec emax.
Definition sqrt : t -> t := SFsqrt prec emax.
Definition ltb : t -> t -> bool := SFltb.
Definition leb : t -> t -> bool := SFleb.
Definition gtb (x y : t) : bool := SFltb y x.

(** Conversion of an integer to [float], round to nearest even. *)
Definition of_Z (z : Z) : t := binary_normalize prec emax z 0 false.

(** A decimal literal [n/d] with [n] and [d] exactly representable: the
    correctly rounded quotient is the binary32 value nearest to the
    literal. *)
Definition lit (n d : Z) : t := div (of_Z n) (of_Z d).

Definition is_nan (x : t) : bool :=
  match x with S754_nan => true | _ => false end.

Definition zero : t := S754_zero false.
Definition one : t := Eval vm_compute in of_Z 1.

End F32.

(** ** audio_capture.h / audio_capture.cpp *)

Definition AUDIO_SAMPLE_RATE : Z := 16000.
Definition AUDIO_BUFFER_SECONDS : Z := 10.
Definition AUDIO_BUFFER_SIZE : Z := AUDIO_SAMPLE_RATE * AUDIO_BUFFER_SECONDS.
Definition AUDIO_FRAME_SAMPLES : Z := 480.
Definition DMA_BUF_LEN : Z := 1024.

(** [struct AudioFrame]: [samples] stands for the array
    [int16_t samples[AUDIO_FRAME_SAMPLES]]. *)
Record AudioFrame : Type := mkAudioFrame {
  samples : list Z;
  timestamp_ms : Z;
  valid : bool
}.

(** [static float calculate_rms(int16_t* samples, size_t count)] and its twin
    [calculate_energy] of vad_detector.cpp: the sum of squares is an exact
    [int64_t] (at most 2^32 terms of at most 2^30), then three float
    operations. *)
Definition sum_squares (l : list Z) : Z :=
  fold_left (fun acc s => acc + s * s) l 0.

Definition rms_normalized (l : list Z) (count : Z) : F32.t :=
  if count =? 0 then F32.zero
  else F32.div
         (F32.sqrt (F32.div (F32.of_Z (sum_squares (take (Z.to_nat count) l)))
                            (F32.of_Z count)))
         (F32.of_Z 32768).

Module Audio.

(** The file's [static] state. *)
Record t : Type := mkState {
  audio_buffer : list Z;
  write_index : Z;
  read_index : Z;
  is_initialized : bool;
  is_running : bool;
  current_level : F32.t
}.

Definition calculate_rms (l : list Z) (count : Z) : F32.t :=
  rms_normalized l count.

(** State before [audio_init]: zero-initialised statics. *)
Definition power_on : t :=
  {| audio_buffer := replicate (Z.to_nat AUDIO_BUFFER_SIZE) 0;
     write_index := 0; read_index := 0;
     is_initialized := false; is_running := false;
     current_level := F32.zero |}.

(** [audio_init]; [configured] is the result of [configure_i2s]. *)
Definition audio_init (configured : bool) (a : t) : bool * t :=
  if is_initialized a then (true, a)
  else
    let a1 := {| audio_buffer := replicate (Z.to_nat AUDIO_BUFFER_SIZE) 0;
                 write_index := 0; read_index := 0;
                 is_initialized := is_initialized a;
                 is_running := is_running a;
                 current_level := current_level a |} in
    if negb configured then (false, a1)
    else (true, {| audio_buffer := audio_buffer a1;
                   write_index := 0; read_index := 0;
                   is_initialized := true;
                   is_running := is_running a1;
                   current_level := current_level a1 |}).

Definition set_running (b : bool) (a : t) : t :=
  {| audio_buffer := audio_buffer a;
     write_index := write_index a; read_index := read_index a;
     is_initialized := is_initialized a;
     is_running := b;
     current_level := current_level a |}.

Definition audio_start (a : t) : t :=
  if negb (is_initialized a) || is_running a then a else set_running true a.

Definition audio_stop (a : t) : t :=
  if negb (is_running a) then a else set_running false a.

Definition audio_is_running (a : t) : bool := is_running a.

Definition audio_frames_available (a : t) : Z :=
  let wi := write_index a in
  let ri := read_index a in
  if wi >=? ri then u32 (wi - ri)
  else u32 (u32 (AUDIO_BUFFER_SIZE - ri) + wi).

(** [audio_buffer[i]] for an index inside the array. *)
Definition buf_get (buf : list Z) (i : Z) : Z :=
  default 0 (buf !! Z.to_nat i).

(** The copy loop of [audio_get_frame]:
    [frame->samples[i] = audio_buffer[(read_index + i) % AUDIO_BUFFER_SIZE]]
    for [i] from [0] to [n - 1]. *)
Definition copy_out (buf : list Z) (ri : Z) (n : Z) : list Z :=
  map (fun i : nat => buf_get buf ((ri + Z.of_nat i) mod AUDIO_BUFFER_SIZE))
      (seq 0 (Z.to_nat n)).

(** [bool audio_get_frame(AudioFrame* frame)]; [frame = None] is the null
    pointer, [now] the value [millis()] returns.  The result is the
    returned flag, the frame object after the call, and the new state. *)
Definition audio_get_frame (now : Z) (frame : option AudioFrame) (a : t)
  : bool * option AudioFrame * t :=
  match frame with
  | None => (false, None, a)
  | Some f =>
      let available := audio_frames_available a in
      if available <? AUDIO_FRAME_SAMPLES then
        (false,
         Some {| samples := samples f; timestamp_ms := timestamp_ms f;
                 valid := false |},
         a)
      else
        let f' := {| samples := copy_out (audio_buffer a) (read_index a)
                                          AUDIO_FRAME_SAMPLES;
                     timestamp_ms := now;
                     valid := true |} in
        (true, Some f',
         {| audio_buffer := audio_buffer a;
            write_index := write_index a;
            read_index := (read_index a + AUDIO_FRAME_SAMPLES)
                            mod AUDIO_BUFFER_SIZE;
            is_initialized := is_initialized a;
            is_running := is_running a;
            current_level := current_level a |})
  end.

Definition audio_get_level (a : t) : F32.t := current_level a.

(** One iteration of the copy loop of [audio_process]. *)
Definition push_sample (a : t) (x : Z) : t :=
  let buf := <[ Z.to_nat (write_index a) := x ]> (audio_buffer a) in
  let wi := (write_index a + 1) mod AUDIO_BUFFER_SIZE in
  let ri := if wi =? read_index a
            then (read_index a + 1) mod AUDIO_BUFFER_SIZE
            else read_index a in
  {| audio_buffer := buf;
     write_index := wi; read_index := ri;
     is_initialized := is_initialized a;
     is_running := is_running a;
     current_level := current_level a |}.

(** What [i2s_read] hands back: the status and the samples placed in
    [temp_buffer] ([bytes_read / sizeof(int16_t)] of them, at most
    [DMA_BUF_LEN]). *)
Record i2s_result : Type := mkI2S {
  i2s_ok : bool;
  i2s_samples : list Z
}.

Definition audio_process (rd : i2s_result) (a : t) : t :=
  if negb (is_running a) then a
  else if negb (i2s_ok rd) || (Z.of_nat (length (i2s_samples rd)) =? 0) then a
  else
    let a' := fold_left push_sample (i2s_samples rd) a in
    {| audio_buffer := audio_buffer a';
       write_index := write_index a'; read_index := read_index a';
       is_initialized := is_initialized a';
       is_running := is_running a';
       current_level :=
         calculate_rms (i2s_samples rd)
                       (Z.of_nat (length (i2s_samples rd))) |}.

End Audio.

(** ** vad_detector.h / vad_detector.cpp *)

Definition VAD_MIN_SPEECH_MS : Z := 100.
Definition VAD_MIN_SILENCE_MS : Z := 300.
Definition VAD_HANGOVER_MS : Z := 200.

Inductive VADState : Type :=
| VAD_STATE_SILENCE
| VAD_STATE_SPEECH
| VAD_STATE_HANGOVER.

Definition VADState_eqb (a b : VADState) : bool :=
  match a, b with
  | VAD_STATE_SILENCE, VAD_STATE_SILENCE
  | VAD_STATE_SPEECH, VAD_STATE_SPEECH
  | VAD_STATE_HANGOVER, VAD_STATE_HANGOVER => true
  | _, _ => false
  end.

Record VADResult : Type := mkVADResult {
  is_speech : bool;
  energy : F32.t;
  threshold : F32.t;
  state : VADState;
  speech_start : Z;
  speech_duration_ms : Z
}.

Record SpeechSegment : Type := mkSpeechSegment {
  start_ms : Z;
  end_ms : Z;
  duration_ms : Z;
  avg_energy : F32.t
}.

Module Vad.

Definition VAD_DEFAULT_THRESHOLD : F32.t := Eval vm_compute in F32.lit 2 100.
Definition noise_alpha : F32.t := Eval vm_compute in F32.lit 995 1000.

(** Float literals of the file. *)
Definition c_0_01 : F32.t := Eval vm_compute in F32.lit 1 100.
Definition c_0_001 : F32.t := Eval vm_compute in F32.lit 1 1000.
Definition c_0_1 : F32.t := Eval vm_compute in F32.lit 1 10.
Definition c_0_05 : F32.t := Eval vm_compute in F32.lit 5 100.
Definition c_0_5 : F32.t := Eval vm_compute in F32.lit 1 2.
Definition c_1_5 : F32.t := Eval vm_compute in F32.lit 3 2.
Definition c_3_0 : F32.t := Eval vm_compute in F32.of_Z 3.

(** The file's [static] state ([noise_alpha] is never assigned). *)
Record t : Type := mkState {
  energy_threshold : F32.t;
  adaptive_enabled : bool;
  current_state : VADState;
  state_start_time : Z;
  last_speech_time : Z;
  speech_start_time : Z;
  noise_floor : F32.t;
  pending_segment : SpeechSegment;
  segment_ready : bool;
  segment_energy_sum : F32.t;
  segment_frame_count : Z
}.

(** Values of the static initialisers. *)
Definition power_on : t :=
  {| energy_threshold := VAD_DEFAULT_THRESHOLD;
     adaptive_enabled := false;
     current_state := VAD_STATE_SILENCE;
     state_start_time := 0;
     last_speech_time := 0;
     speech_start_time := 0;
     noise_floor := c_0_01;
     pending_segment :=
       {| start_ms := 0; end_ms := 0; duration_ms := 0;
          avg_energy := F32.zero |};
     segment_ready := false;
     segment_energy_sum := F32.zero;
     segment_frame_count := 0 |}.

Definition calculate_energy (l : list Z) (count : Z) : F32.t :=
  rms_normalized l count.

(** [(samples[i] >= 0 && samples[i-1] < 0) ||
     (samples[i] < 0 && samples[i-1] >= 0)], counted over [i = 1 .. ]. *)
Fixpoint count_crossings (prev : Z) (l : list Z) : Z :=
  match l with
  | [] => 0
  | x :: l' =>
      (if ((x >=? 0) && (prev <? 0)) || ((x <? 0) && (prev >=? 0))
       then 1 else 0) + count_crossings x l'
  end.

Definition calculate_zcr (l : list Z) (count : Z) : F32.t :=
  if count <? 2 then F32.zero
  else
    match take (Z.to_nat count) l with
    | [] => F32.zero
    | x :: l' =>
        F32.div (F32.of_Z (u32 (count_crossings x l')))
                (F32.of_Z (u32 (count - 1)))
    end.

Definition with_noise_floor (nf : F32.t) (v : t) : t :=
  {| energy_threshold := energy_threshold v;
     adaptive_enabled := adaptive_enabled v;
     current_state := current_state v;
     state_start_time := state_start_time v;
     last_speech_time := last_speech_time v;
     speech_start_time := speech_start_time v;
     noise_floor := nf;
     pending_segment := pending_segment v;
     segment_ready := segment_ready v;
     segment_energy_sum := segment_energy_sum v;
     segment_frame_count := segment_frame_count v |}.

Definition update_noise_floor (e : F32.t) (v : t) : t :=
  match current_state v with
  | VAD_STATE_SILENCE =>
      let nf := F32.add (F32.mul noise_alpha (noise_floor v))
                        (F32.mul (F32.sub F32.one noise_alpha) e) in
      let nf := if F32.ltb nf c_0_001 then c_0_001 else nf in
      let nf := if F32.gtb nf c_0_1 then c_0_1 else nf in
      with_noise_floor nf v
  | _ => v
  end.

Definition get_effective_threshold (v : t) : F32.t :=
  if adaptive_enabled v then F32.mul (noise_floor v) c_3_0
  else energy_threshold v.

(** [static void transition_to(VADState new_state, uint32_t now)] *)
Definition transition_to (new_state : VADState) (now : Z) (v : t) : t :=
  if VADState_eqb (current_state v) new_state then v
  else
    (* Handle state exit *)
    let leaving_speech := VADState_eqb (current_state v) VAD_STATE_SPEECH in
    let seg := pending_segment v in
    let seg1 :=
      if leaving_speech then
        let d := u32 (now - start_ms seg) in
        {| start_ms := start_ms seg;
           end_ms := now;
           duration_ms := d;
           avg_energy :=
             if segment_frame_count v >? 0
             then F32.div (segment_energy_sum v)
                          (F32.of_Z (segment_frame_count v))
             else F32.zero |}
      else seg in
    let ready1 :=
      if leaving_speech && (duration_ms seg1 >=? VAD_MIN_SPEECH_MS)
      then true else segment_ready v in
    let last1 := if leaving_speech then now else last_speech_time v in
    (* Handle state enter *)
    let entering_speech := VADState_eqb new_state VAD_STATE_SPEECH in
    let seg2 :=
      if entering_speech then
        {| start_ms := now; end_ms := end_ms seg1;
           duration_ms := duration_ms seg1; avg_energy := avg_energy seg1 |}
      else seg1 in
    {| energy_threshold := energy_threshold v;
       adaptive_enabled := adaptive_enabled v;
       current_state := new_state;
       state_start_time := now;
       last_speech_time := last1;
       speech_start_time :=
         if entering_speech then now else speech_start_time v;
       noise_floor := noise_floor v;
       pending_segment := seg2;
       segment_ready := ready1;
       segment_energy_sum :=
         if entering_speech then F32.zero else segment_energy_sum v;
       segment_frame_count :=
         if entering_speech then 0 else segment_frame_count v |}.

(** [vad_init]; [now] is the value of [millis()]. *)
Definition vad_init (now : Z) (v : t) : t :=
  {| energy_threshold := VAD_DEFAULT_THRESHOLD;
     adaptive_enabled := false;
     current_state := VAD_STATE_SILENCE;
     state_start_time := now;
     last_speech_time := 0;
     speech_start_time := 0;
     noise_floor := c_0_01;
     pending_segment := pending_segment v;
     segment_ready := false;
     segment_energy_sum := segment_energy_sum v;
     segment_frame_count := segment_frame_count v |}.

Definition vad_set_threshold (thr : F32.t) (v : t) : t :=
  let thr := if F32.ltb thr c_0_001 then c_0_001 else thr in
  let thr := if F32.gtb thr F32.one then F32.one else thr in
  {| energy_threshold := thr;
     adaptive_enabled := adaptive_enabled v;
     current_state := current_state v;
     state_start_time := state_start_time v;
     last_speech_time := last_speech_time v;
     speech_start_time := speech_start_time v;
     noise_floor := noise_floor v;
     pending_segment := pending_segment v;
     segment_ready := segment_ready v;
     segment_energy_sum := segment_energy_sum v;
     segment_frame_count := segment_frame_count v |}.

Definition vad_get_threshold (v : t) : F32.t := get_effective_threshold v.

Definition vad_set_adaptive (enabled : bool) (v : t) : t :=
  {| energy_threshold := energy_threshold v;
     adaptive_enabled := enabled;
     current_state := current_state v;
     state_start_time := state_start_time v;
     last_speech_time := last_speech_time v;
     speech_start_time := speech_start_time v;
     noise_floor := noise_floor v;
     pending_segment := pending_segment v;
     segment_ready := segment_ready v;
     segment_energy_sum := segment_energy_sum v;
     segment_frame_count := segment_frame_count v |}.

(** The per-frame decision computed by [vad_process] before its [switch]:
    the threshold in force and whether the frame counts as speech. *)
Definition frame_is_speech (e zcr thr : F32.t) : bool :=
  let b := F32.gtb e thr in
  if b && (F32.ltb zcr c_0_05 || F32.gtb zcr c_0_5)
  then F32.gtb e (F32.mul thr c_1_5)
  else b.

(** The accumulation at the head of [case VAD_STATE_SPEECH]. *)
Definition accumulate (e : F32.t) (v : t) : t :=
  {| energy_threshold := energy_threshold v;
     adaptive_enabled := adaptive_enabled v;
     current_state := current_state v;
     state_start_time := state_start_time v;
     last_speech_time := last_speech_time v;
     speech_start_time := speech_start_time v;
     noise_floor := noise_floor v;
     pending_segment := pending_segment v;
     segment_ready := segment_ready v;
     segment_energy_sum := F32.add (segment_energy_sum v) e;
     segment_frame_count := u32 (segment_frame_count v + 1) |}.

(** The [switch (current_state)] of [vad_process]. *)
Definition step_machine (speech : bool) (e : F32.t) (now : Z) (v : t)
  : t :=
  match current_state v with
  | VAD_STATE_SILENCE =>
      if speech then transition_to VAD_STATE_SPEECH now v else v
  | VAD_STATE_SPEECH =>
      let v1 := accumulate e v in
      if negb speech then transition_to VAD_STATE_HANGOVER now v1 else v1
  | VAD_STATE_HANGOVER =>
      if speech then transition_to VAD_STATE_SPEECH now v
      else if u32 (now - state_start_time v) >? VAD_HANGOVER_MS
           then transition_to VAD_STATE_SILENCE now v
           else v
  end.

(** [VADResult vad_process(const AudioFrame* frame)]; [None] is the null
    pointer. *)
Definition vad_process (frame : option AudioFrame) (v : t)
  : VADResult * t :=
  let result0 :=
    {| is_speech := false; energy := F32.zero;
       threshold := get_effective_threshold v;
       state := current_state v;
       speech_start := 0; speech_duration_ms := 0 |} in
  match frame with
  | None => (result0, v)
  | Some f =>
      if negb (valid f) then (result0, v)
      else
        let now := timestamp_ms f in
        let e := calculate_energy (samples f) AUDIO_FRAME_SAMPLES in
        let zcr := calculate_zcr (samples f) AUDIO_FRAME_SAMPLES in
        let v1 := if adaptive_enabled v then update_noise_floor e v else v in
        let thr := get_effective_threshold v1 in
        let speech := frame_is_speech e zcr thr in
        let v2 := step_machine speech e now v1 in
        let speaking :=
          VADState_eqb (current_state v2) VAD_STATE_SPEECH
          || VADState_eqb (current_state v2) VAD_STATE_HANGOVER in
        ({| is_speech := speaking;
            energy := e;
            threshold := thr;
            state := current_state v2;
            speech_start := if speaking then speech_start_time v2 else 0;
            speech_duration_ms :=
              if speaking then u32 (now - speech_start_time v2) else 0 |},
         v2)
  end.

(** [bool vad_get_segment(SpeechSegment* segment)]; the caller's object is
    passed in and handed back ([None]: null pointer). *)
Definition vad_get_segment (segment : option SpeechSegment) (v : t)
  : bool * option SpeechSegment * t :=
  match segment with
  | None => (false, None, v)
  | Some s =>
      if negb (segment_ready v) then (false, Some s, v)
      else
        (true, Some (pending_segment v),
         {| energy_threshold := energy_threshold v;
            adaptive_enabled := adaptive_enabled v;
            current_state := current_state v;
            state_start_time := state_start_time v;
            last_speech_time := last_speech_time v;
            speech_start_time := speech_start_time v;
            noise_floor := noise_floor v;
            pending_segment := pending_segment v;
            segment_ready := false;
            segment_energy_sum := segment_energy_sum v;
            segment_frame_count := segment_frame_count v |})
  end.

(** [vad_reset]; [now] is the value of [millis()]. *)
Definition vad_reset (now : Z) (v : t) : t :=
  {| energy_threshold := energy_threshold v;
     adaptive_enabled := adaptive_enabled v;
     current_state := VAD_STATE_SILENCE;
     state_start_time := now;
     last_speech_time := 0;
     speech_start_time := 0;
     noise_floor := noise_floor v;
     pending_segment := pending_segment v;
     segment_ready := false;
     segment_energy_sum := F32.zero;
     segment_frame_count := 0 |}.

(** [vad_silence_duration]; [now] is the value [millis()] would return. *)
Definition vad_silence_duration (now : Z) (v : t) : Z :=
  match current_state v with
  | VAD_STATE_SPEECH | VAD_STATE_HANGOVER => 0
  | VAD_STATE_SILENCE =>
      if last_speech_time v =? 0 then 0
      else u32 (now - last_speech_time v)
  end.

End Vad.

(** ** pitch_detector.h / pitch_detector.cpp *)

(** Array accesses.  An index outside the object is undefined behaviour in C;
    the model returns [None] there and every caller propagates it. *)
Definition read {A : Type} (l : list A) (i : Z) : option A :=
  if i <? 0 then None else l !! Z.to_nat i.

Definition write {A : Type} (l : list A) (i : Z) (x : A) : option (list A) :=
  if (0 <=? i) && (i <? Z.of_nat (length l))
  then Some (<[ Z.to_nat i := x ]> l) else None.

Module Pitch.

Definition PITCH_MIN_HZ : Z := 75.
Definition PITCH_MAX_HZ : Z := 500.
Definition PITCH_CHILD_THRESHOLD_HZ : Z := 280.
Definition YIN_THRESHOLD : F32.t := Eval vm_compute in F32.lit 15 100.
Definition PITCH_WINDOW_SAMPLES : Z := 800.

Definition c_0_5 : F32.t := Eval vm_compute in F32.lit 1 2.
Definition c_0_01 : F32.t := Eval vm_compute in F32.lit 1 100.
Definition c_2_0 : F32.t := Eval vm_compute in F32.of_Z 2.
Definition c_1e_10 : F32.t := Eval vm_compute in F32.lit 1 (10 ^ 10).
Definition c_32768 : F32.t := Eval vm_compute in F32.of_Z 32768.

Inductive SpeakerType : Type :=
| SPEAKER_UNKNOWN
| SPEAKER_ADULT
| SPEAKER_CHILD.

Record PitchResult : Type := mkPitchResult {
  valid : bool;
  pitch_hz : F32.t;
  confidence : F32.t;
  speaker : SpeakerType
}.

(** [static float diff_buffer[256]] *)
Definition DIFF_BUFFER_LEN : Z := 256.
Definition diff_buffer_init : list F32.t :=
  replicate (Z.to_nat DIFF_BUFFER_LEN) F32.zero.

(** Inner loop of [yin_difference]: [j] runs over [n] indices. *)
Fixpoint diff_sum (smp : list Z) (tau j : Z) (n : nat) (sum : F32.t)
  : option F32.t :=
  match n with
  | O => Some sum
  | S n' =>
      a ← read smp j;
      b ← read smp (j + tau);
      let delta := F32.sub (F32.of_Z a) (F32.of_Z b) in
      diff_sum smp tau (j + 1) n' (F32.add sum (F32.mul delta delta))
  end.

(** Outer loop of [yin_difference]: [tau] runs over [n] lags. *)
Fixpoint diff_loop (smp : list Z) (len : Z) (tau : Z) (n : nat)
         (diff : list F32.t) : option (list F32.t) :=
  match n with
  | O => Some diff
  | S n' =>
      s ← diff_sum smp tau 0 (Z.to_nat len) F32.zero;
      diff' ← write diff tau s;
      diff_loop smp len (tau + 1) n' diff'
  end.

Definition yin_difference (smp : list Z) (count : Z) (diff : list F32.t)
           (tau_max : Z) : option (list F32.t) :=
  let len := u32 (count - tau_max) in
  diff0 ← write diff 0 F32.zero;
  diff_loop smp len 1 (Z.to_nat (tau_max - 1)) diff0.

Fixpoint cumulative_loop (tau : Z) (n : nat) (running_sum : F32.t)
         (diff : list F32.t) : option (list F32.t) :=
  match n with
  | O => Some diff
  | S n' =>
      d ← read diff tau;
      let running_sum := F32.add running_sum d in
      let v := if F32.gtb running_sum F32.zero
               then F32.div (F32.mul d (F32.of_Z tau)) running_sum
               else F32.one in
      diff' ← write diff tau v;
      cumulative_loop (tau + 1) n' running_sum diff'
  end.

Definition yin_cumulative_mean (diff : list F32.t) (tau_max : Z)
  : option (list F32.t) :=
  diff0 ← write diff 0 F32.one;
  cumulative_loop 1 (Z.to_nat (tau_max - 1)) F32.zero diff0.

(** The test of the first loop of [yin_absolute_threshold] at lag [tau];
    [&&] reads its right operand only when the left one holds. *)
Definition dip_at (diff : list F32.t) (thr : F32.t) (tau : Z) : option bool :=
  d ← read diff tau;
  if F32.ltb d thr then
    l ← read diff (u32 (tau - 1));
    if F32.ltb d l then
      r ← read diff (tau + 1);
      Some (F32.leb d r)
    else Some false
  else Some false.

(** First loop: [Some (Some tau)] is [return tau], [Some None] is falling
    out of the loop. *)
Fixpoint first_dip (diff : list F32.t) (thr : F32.t) (tau : Z) (n : nat)
  : option (option Z) :=
  match n with
  | O => Some None
  | S n' =>
      b ← dip_at diff thr tau;
      if b : bool then Some (Some tau)
      else first_dip diff thr (tau + 1) n'
  end.

(** Second loop: running minimum and its lag. *)
Fixpoint global_min (diff : list F32.t) (tau : Z) (n : nat)
         (min_val : F32.t) (min_tau : Z) : option (F32.t * Z) :=
  match n with
  | O => Some (min_val, min_tau)
  | S n' =>
      d ← read diff tau;
      if F32.ltb d min_val
      then global_min diff (tau + 1) n' d tau
      else global_min diff (tau + 1) n' min_val min_tau
  end.

(** [static int yin_absolute_threshold(const float* diff, size_t tau_min,
    size_t tau_max, float threshold)] *)
Definition yin_absolute_threshold (diff : list F32.t) (tau_min tau_max : Z)
           (thr : F32.t) : option Z :=
  r ← first_dip diff thr tau_min (Z.to_nat (u32 (tau_max - 1) - tau_min));
  match r with
  | Some tau => Some (int_of_u32 tau)
  | None =>
      m0 ← read diff tau_min;
      m ← global_min diff (tau_min + 1) (Z.to_nat (tau_max - (tau_min + 1)))
                      m0 tau_min;
      if F32.ltb (fst m) c_0_5 then Some (int_of_u32 (snd m))
      else Some (-1)
  end.

Definition yin_parabolic_interpolation (diff : list F32.t) (tau : Z)
           (tau_max : Z) : option F32.t :=
  if (tau <=? 0) || (tau >=? int_of_u32 tau_max - 1) then Some (F32.of_Z tau)
  else
    s0 ← read diff (tau - 1);
    s1 ← read diff tau;
    s2 ← read diff (tau + 1);
    let adjustment :=
      F32.div (F32.sub s2 s0)
              (F32.mul c_2_0
                 (F32.add (F32.sub (F32.sub (F32.mul c_2_0 s1) s2) s0)
                          c_1e_10)) in
    Some (F32.add (F32.of_Z tau) adjustment).

Definition pitch_classify (hz : F32.t) : SpeakerType :=
  if F32.leb hz F32.zero then SPEAKER_UNKNOWN
  else if F32.leb (F32.of_Z PITCH_CHILD_THRESHOLD_HZ) hz then SPEAKER_CHILD
  else SPEAKER_ADULT.

(** The initialiser of [result] in [pitch_estimate]. *)
Definition no_pitch : PitchResult :=
  {| valid := false; pitch_hz := F32.zero; confidence := F32.zero;
     speaker := SPEAKER_UNKNOWN |}.

Definition tau_min_of (sample_rate : Z) : Z := sample_rate / PITCH_MAX_HZ.
Definition tau_max_of (sample_rate : Z) : Z :=
  let tau_max := sample_rate / PITCH_MIN_HZ in
  if tau_max >? 255 then 255 else tau_max.

(** The energy loop: [energy += (int32_t)samples[i] * samples[i]]. *)
Fixpoint energy_loop (smp : list Z) (i : Z) (n : nat) (acc : Z) : option Z :=
  match n with
  | O => Some acc
  | S n' => s ← read smp i; energy_loop smp (i + 1) n' (acc + s * s)
  end.

Definition window_rms (energy count : Z) : F32.t :=
  F32.div (F32.sqrt (F32.div (F32.of_Z energy) (F32.of_Z count))) c_32768.

(** [PitchResult pitch_estimate(const int16_t* samples, size_t count,
    uint32_t sample_rate)], threading [diff_buffer]. *)
Definition pitch_estimate (smp : list Z) (count : Z) (sample_rate : Z)
           (diff_buffer : list F32.t) : option (PitchResult * list F32.t) :=
  let tau_min := tau_min_of sample_rate in
  let tau_max := tau_max_of sample_rate in
  if count <? tau_max * 2 then Some (no_pitch, diff_buffer)
  else
    energy ← energy_loop smp 0 (Z.to_nat count) 0;
    if F32.ltb (window_rms energy count) c_0_01
    then Some (no_pitch, diff_buffer)
    else
      d1 ← yin_difference smp count diff_buffer tau_max;
      d2 ← yin_cumulative_mean d1 tau_max;
      tau ← yin_absolute_threshold d2 tau_min tau_max YIN_THRESHOLD;
      if tau <? 0 then Some (no_pitch, d2)
      else
        tau_refined ← yin_parabolic_interpolation d2 tau tau_max;
        if F32.leb tau_refined F32.zero then Some (no_pitch, d2)
        else
          c ← read d2 tau;
          let hz := F32.div (F32.of_Z sample_rate) tau_refined in
          Some ({| valid := true;
                   pitch_hz := hz;
                   confidence := F32.sub F32.one c;
                   speaker := pitch_classify hz |}, d2).

End Pitch.

(** ** ble_service.h, feedback.h: the interface main.cpp uses *)

Inductive BLEEventType : Type :=
| BLE_EVENT_SERVE
| BLE_EVENT_RETURN
| BLE_EVENT_MISSED_OPPORTUNITY.

Definition BLEEventType_eqb (a b : BLEEventType) : bool :=
  match a, b with
  | BLE_EVENT_SERVE, BLE_EVENT_SERVE
  | BLE_EVENT_RETURN, BLE_EVENT_RETURN
  | BLE_EVENT_MISSED_OPPORTUNITY, BLE_EVENT_MISSED_OPPORTUNITY => true
  | _, _ => false
  end.

Record BLEEvent : Type := mkBLEEvent {
  type : BLEEventType;
  timestamp : F32.t;
  confidence : F32.t;
  pitch_hz : F32.t;
  response_latency : F32.t;
  silence_duration : F32.t
}.

Record DeviceStatus : Type := mkDeviceStatus {
  battery_percent : Z;
  is_charging : bool;
  uptime_seconds : Z;
  status_session_active : bool;
  events_in_session : Z
}.

Inductive FeedbackType : Type :=
| FEEDBACK_NONE
| FEEDBACK_SESSION_START
| FEEDBACK_SESSION_END
| FEEDBACK_GOOD_TURN
| FEEDBACK_MISSED_OPP
| FEEDBACK_LOW_BATTERY
| FEEDBACK_CONNECTED
| FEEDBACK_DISCONNECTED
| FEEDBACK_ERROR.

(** What the core hands to its collaborators, in order of the calls. *)
Inductive output : Type :=
| OutEvent (e : BLEEvent) (sent : bool)   (* ble_send_event(e) and its result *)
| OutFeedback (ty : FeedbackType) (intensity : F32.t)  (* feedback_trigger *)
| OutStatus (s : DeviceStatus).           (* ble_update_status *)

(** ** main.cpp *)

Module Main.

Definition RESPONSE_THRESHOLD_MS : Z := 3000.
Definition MISSED_OPP_THRESHOLD_MS : Z := 5000.
Definition STATUS_UPDATE_INTERVAL_MS : Z := 5000.
Definition DEBUG_PRINT_INTERVAL_MS : Z := 1000.

Definition c_1000 : F32.t := Eval vm_compute in F32.of_Z 1000.
Definition c_0_1 : F32.t := Eval vm_compute in F32.lit 1 10.
Definition c_0_3 : F32.t := Eval vm_compute in F32.lit 3 10.
Definition c_0_5 : F32.t := Eval vm_compute in F32.lit 1 2.
Definition c_0_7 : F32.t := Eval vm_compute in F32.lit 7 10.
Definition c_0_8 : F32.t := Eval vm_compute in F32.lit 8 10.

(** The statics of main.cpp ([fake_battery] is the function-local static
    of [estimate_battery]). *)
Record t : Type := mkState {
  session_active : bool;
  session_start_time : Z;
  session_event_count : Z;
  last_was_speaking : bool;
  last_speech_end_time : Z;
  waiting_for_response : bool;
  child_speech_time : Z;
  last_was_child : bool;
  last_status_update : Z;
  last_debug_print : Z;
  fake_battery : Z
}.

Definition power_on : t :=
  {| session_active := false; session_start_time := 0;
     session_event_count := 0;
     last_was_speaking := false; last_speech_end_time := 0;
     waiting_for_response := false; child_speech_time := 0;
     last_was_child := false;
     last_status_update := 0; last_debug_print := 0;
     fake_battery := 100 |}.

(** The whole program state: one record per translation unit, the two
    connection flags of ble_service.cpp, and the calls made so far to the
    transport and feedback collaborators. *)
Record system : Type := mkSystem {
  audio : Audio.t;
  vad : Vad.t;
  core : t;
  device_connected : bool;
  old_device_connected : bool;
  trace : list output
}.

Definition with_core (m : t) (s : system) : system :=
  {| audio := audio s; vad := vad s; core := m;
     device_connected := device_connected s;
     old_device_connected := old_device_connected s;
     trace := trace s |}.

Definition emit (o : output) (s : system) : system :=
  {| audio := audio s; vad := vad s; core := core s;
     device_connected := device_connected s;
     old_device_connected := old_device_connected s;
     trace := trace s ++ [o] |}.

Definition feedback_trigger (ty : FeedbackType) (intensity : F32.t)
           (s : system) : system :=
  emit (OutFeedback ty intensity) s.

(** [get_session_timestamp]; [now] is the value of [millis()]. *)
Definition get_session_timestamp (now : Z) (m : t) : F32.t :=
  if negb (session_active m) || (session_start_time m =? 0) then F32.zero
  else F32.div (F32.of_Z (u32 (now - session_start_time m))) c_1000.

Definition mk_event (ty : BLEEventType) (extra_data : F32.t) (ts : F32.t)
  : BLEEvent :=
  {| type := ty;
     timestamp := ts;
     confidence := c_0_8;
     pitch_hz := F32.zero;
     response_latency :=
       if BLEEventType_eqb ty BLE_EVENT_RETURN then extra_data else F32.zero;
     silence_duration :=
       if BLEEventType_eqb ty BLE_EVENT_MISSED_OPPORTUNITY
       then extra_data else F32.zero |}.

Definition bump_event_count (m : t) : t :=
  {| session_active := session_active m;
     session_start_time := session_start_time m;
     session_event_count := u16 (session_event_count m + 1);
     last_was_speaking := last_was_speaking m;
     last_speech_end_time := last_speech_end_time m;
     waiting_for_response := waiting_for_response m;
     child_speech_time := child_speech_time m;
     last_was_child := last_was_child m;
     last_status_update := last_status_update m;
     last_debug_print := last_debug_print m;
     fake_battery := fake_battery m |}.

(** [send_event]; [ble_send_event] succeeds exactly when a client is
    connected (the event characteristic exists once [ble_init] has
    succeeded, which [setup] requires). *)
Definition send_event (ty : BLEEventType) (extra_data : F32.t) (now : Z)
           (s : system) : system :=
  let event := mk_event ty extra_data (get_session_timestamp now (core s)) in
  let sent := device_connected s in
  let s1 := emit (OutEvent event sent) s in
  if sent then with_core (bump_event_count (core s1)) s1 else s1.

Definition set_turn (waiting : bool) (child_time : Z) (was_child : bool)
           (m : t) : t :=
  {| session_active := session_active m;
     session_start_time := session_start_time m;
     session_event_count := session_event_count m;
     last_was_speaking := last_was_speaking m;
     last_speech_end_time := last_speech_end_time m;
     waiting_for_response := waiting;
     child_speech_time := child_time;
     last_was_child := was_child;
     last_status_update := last_status_update m;
     last_debug_print := last_debug_print m;
     fake_battery := fake_battery m |}.

(** [process_speech_segment]; [now] is read by [get_session_timestamp]
    inside [send_event] (the function's own [millis()] is never used). *)
Definition is_child (segment : SpeechSegment) : bool :=
  F32.ltb (avg_energy segment) c_0_1.

Definition process_speech_segment (segment : SpeechSegment) (now : Z)
           (s : system) : system :=
  if is_child segment then
    let s1 := send_event BLE_EVENT_SERVE F32.zero now s in
    with_core (set_turn true (end_ms segment) true (core s1)) s1
  else if waiting_for_response (core s) then
    let response_time := u32 (start_ms segment - child_speech_time (core s)) in
    let s1 :=
      if response_time <=? RESPONSE_THRESHOLD_MS then
        feedback_trigger FEEDBACK_GOOD_TURN c_0_3
          (send_event BLE_EVENT_RETURN
             (F32.div (F32.of_Z response_time) c_1000) now s)
      else s in
    with_core (set_turn false (child_speech_time (core s1)) false (core s1)) s1
  else s.

(** [check_missed_opportunity]; [t_silence] is read by
    [vad_silence_duration], [t_event] by [send_event]. *)
Definition check_missed_opportunity (t_silence t_event : Z) (s : system)
  : system :=
  if negb (waiting_for_response (core s)) then s
  else
    let silence := Vad.vad_silence_duration t_silence (vad s) in
    if silence >=? MISSED_OPP_THRESHOLD_MS then
      let s1 := send_event BLE_EVENT_MISSED_OPPORTUNITY
                  (F32.div (F32.of_Z silence) c_1000) t_event s in
      let s2 := feedback_trigger FEEDBACK_MISSED_OPP c_0_7 s1 in
      with_core (set_turn false (child_speech_time (core s2)) false (core s2))
                s2
    else s.

(** [on_session_control]; [t_session] is the [millis()] stored in
    [session_start_time], [t_reset] the one read by [vad_reset]. *)
Definition on_session_control (start : bool) (t_session t_reset : Z)
           (s : system) : system :=
  let m := core s in
  if start && negb (session_active m) then
    let m1 :=
      {| session_active := true;
         session_start_time := t_session;
         session_event_count := 0;
         last_was_speaking := false;
         last_speech_end_time := 0;
         waiting_for_response := false;
         child_speech_time := child_speech_time m;
         last_was_child := false;
         last_status_update := last_status_update m;
         last_debug_print := last_debug_print m;
         fake_battery := fake_battery m |} in
    feedback_trigger FEEDBACK_SESSION_START F32.one
      {| audio := Audio.audio_start (audio s);
         vad := Vad.vad_reset t_reset (vad s);
         core := m1;
         device_connected := device_connected s;
         old_device_connected := old_device_connected s;
         trace := trace s |}
  else if negb start && session_active m then
    let m1 :=
      {| session_active := false;
         session_start_time := session_start_time m;
         session_event_count := session_event_count m;
         last_was_speaking := last_was_speaking m;
         last_speech_end_time := last_speech_end_time m;
         waiting_for_response := waiting_for_response m;
         child_speech_time := child_speech_time m;
         last_was_child := last_was_child m;
         last_status_update := last_status_update m;
         last_debug_print := last_debug_print m;
         fake_battery := fake_battery m |} in
    feedback_trigger FEEDBACK_SESSION_END F32.one
      {| audio := Audio.audio_stop (audio s);
         vad := vad s;
         core := m1;
         device_connected := device_connected s;
         old_device_connected := old_device_connected s;
         trace := trace s |}
  else s.

(** [on_ble_connection]; a disconnect only ever stops a session, so no
    clock value is read. *)
Definition on_ble_connection (connected : bool) (s : system) : system :=
  if connected then feedback_trigger FEEDBACK_CONNECTED c_0_5 s
  else
    let s1 := feedback_trigger FEEDBACK_DISCONNECTED c_0_5 s in
    if session_active (core s1) then on_session_control false 0 0 s1 else s1.

(** [ble_process] of ble_service.cpp, with the callback [setup] installs. *)
Definition ble_process (s : system) : system :=
  if Bool.eqb (device_connected s) (old_device_connected s) then s
  else
    let s1 := on_ble_connection (device_connected s) s in
    {| audio := audio s1; vad := vad s1; core := core s1;
       device_connected := device_connected s1;
       old_device_connected := device_connected s1;
       trace := trace s1 |}.

Definition estimate_battery (m : t) : Z * t :=
  if session_active m && (fake_battery m >? 20) then
    let b := fake_battery m - 1 in
    (b, {| session_active := session_active m;
           session_start_time := session_start_time m;
           session_event_count := session_event_count m;
           last_was_speaking := last_was_speaking m;
           last_speech_end_time := last_speech_end_time m;
           waiting_for_response := waiting_for_response m;
           child_speech_time := child_speech_time m;
           last_was_child := last_was_child m;
           last_status_update := last_status_update m;
           last_debug_print := last_debug_print m;
           fake_battery := b |})
  else (fake_battery m, m).

(** Everything one pass of [loop] reads from outside. *)
Record tick : Type := mkTick {
  t_loop : Z;                  (* millis() at the top of loop *)
  t_i2s : Audio.i2s_result;    (* i2s_read in audio_process *)
  t_frame : Z;                 (* millis() in audio_get_frame *)
  t_segment : Z;               (* millis() in send_event for a closed segment *)
  t_silence : Z;               (* millis() in vad_silence_duration *)
  t_missed : Z                 (* millis() in send_event for a missed opportunity *)
}.

(** The objects [AudioFrame frame] and [SpeechSegment segment] that [loop]
    declares without initialising them; they are read only after the
    callee has filled them. *)
Definition stack_frame : AudioFrame :=
  {| samples := []; timestamp_ms := 0; valid := false |}.
Definition stack_segment : SpeechSegment :=
  {| start_ms := 0; end_ms := 0; duration_ms := 0; avg_energy := F32.zero |}.

Definition with_audio (a : Audio.t) (s : system) : system :=
  {| audio := a; vad := vad s; core := core s;
     device_connected := device_connected s;
     old_device_connected := old_device_connected s;
     trace := trace s |}.

Definition with_vad (v : Vad.t) (s : system) : system :=
  {| audio := audio s; vad := v; core := core s;
     device_connected := device_connected s;
     old_device_connected := old_device_connected s;
     trace := trace s |}.

Definition set_speaking (speaking : bool) (end_time : Z) (m : t) : t :=
  {| session_active := session_active m;
     session_start_time := session_start_time m;
     session_event_count := session_event_count m;
     last_was_speaking := speaking;
     last_speech_end_time := end_time;
     waiting_for_response := waiting_for_response m;
     child_speech_time := child_speech_time m;
     last_was_child := last_was_child m;
     last_status_update := last_status_update m;
     last_debug_print := last_debug_print m;
     fake_battery := fake_battery m |}.

(** The body of [if (audio_get_frame(&frame)) { ... }] in [loop]. *)
Definition process_frame (tk : tick) (frame : option AudioFrame)
           (s : system) : system :=
  let '(vad_result, v1) := Vad.vad_process frame (vad s) in
  let '(got, segment, v2) := Vad.vad_get_segment (Some stack_segment) v1 in
  let s1 := with_vad v2 s in
  let s2 :=
    match got, segment with
    | true, Some seg => process_speech_segment seg (t_segment tk) s1
    | _, _ => s1
    end in
  let m := core s2 in
  let end_time :=
    if negb (is_speech vad_result) && last_was_speaking m
    then t_loop tk else last_speech_end_time m in
  with_core (set_speaking (is_speech vad_result) end_time m) s2.

(** The part of [loop] guarded by [if (session_active)]. *)
Definition session_tick (tk : tick) (s : system) : system :=
  let '(got, frame, a1) :=
    Audio.audio_get_frame (t_frame tk) (Some stack_frame) (audio s) in
  let s1 := with_audio a1 s in
  let s2 := if got then process_frame tk frame s1 else s1 in
  check_missed_opportunity (t_silence tk) (t_missed tk) s2.

Definition set_timers (status debug : Z) (m : t) : t :=
  {| session_active := session_active m;
     session_start_time := session_start_time m;
     session_event_count := session_event_count m;
     last_was_speaking := last_was_speaking m;
     last_speech_end_time := last_speech_end_time m;
     waiting_for_response := waiting_for_response m;
     child_speech_time := child_speech_time m;
     last_was_child := last_was_child m;
     last_status_update := status;
     last_debug_print := debug;
     fake_battery := fake_battery m |}.

Definition status_update (now : Z) (s : system) : system :=
  if u32 (now - last_status_update (core s)) >? STATUS_UPDATE_INTERVAL_MS then
    let '(b, m1) := estimate_battery (core s) in
    let status :=
      {| battery_percent := b; is_charging := false;
         uptime_seconds := now / 1000;
         status_session_active := session_active m1;
         events_in_session := session_event_count m1 |} in
    let s1 := emit (OutStatus status) (with_core m1 s) in
    with_core (set_timers now (last_debug_print (core s1)) (core s1)) s1
  else s.

Definition debug_output (now : Z) (s : system) : system :=
  if u32 (now - last_debug_print (core s)) >? DEBUG_PRINT_INTERVAL_MS then
    with_core (set_timers (last_status_update (core s)) now (core s)) s
  else s.

(** [void loop()] *)
Definition loop (tk : tick) (s : system) : system :=
  let now := t_loop tk in
  let s1 := ble_process s in
  let s2 := with_audio (Audio.audio_process (t_i2s tk) (audio s1)) s1 in
  let s3 := if session_active (core s2) then session_tick tk s2 else s2 in
  debug_output now (status_update now s3).

(** What reaches the program from outside: the BLE stack's connection
    callbacks, a write to the session-control characteristic, and the
    scheduler running [loop] once.  Callbacks are taken to run between two
    passes of [loop]. *)
Inductive input : Type :=
| InConnect
| InDisconnect
| InSessionControl (start : bool) (t_session t_reset : Z)
| InLoop (tk : tick).

Definition set_connected (b : bool) (s : system) : system :=
  {| audio := audio s; vad := vad s; core := core s;
     device_connected := b;
     old_device_connected := old_device_connected s;
     trace := trace s |}.

Definition step (s : system) (i : input) : system :=
  match i with
  | InConnect => set_connected true s
  | InDisconnect => set_connected false s
  | InSessionControl start t_session t_reset =>
      on_session_control start t_session t_reset s
  | InLoop tk => loop tk s
  end.

Definition run (s : system) (ins : list input) : system :=
  fold_left step ins s.

(** The state [setup] leaves behind when every initialisation succeeds:
    [audio_init], [vad_init] at clock value [t_vad], adaptive threshold
    on, and the two feedback triggers it fires. *)
Definition after_setup (t_vad : Z) : system :=
  {| audio := snd (Audio.audio_init true Audio.power_on);
     vad := Vad.vad_set_adaptive true (Vad.vad_init t_vad Vad.power_on);
     core := power_on;
     device_connected := false;
     old_device_connected := false;
     trace := [OutFeedback FEEDBACK_SESSION_START c_0_3;
               OutFeedback FEEDBACK_CONNECTED c_0_5] |}.

End Main.


(** ** Callers of the VAD interface *)

Module VadClient.

(** A client of vad_detector.h: it calls [vad_process] on a frame or
    [vad_get_segment] on an object of its own. *)
Inductive call : Type :=
| Process (frame : option AudioFrame)
| GetSegment.

(** Run the calls in order; the first component lists the segments
    [vad_get_segment] handed out, oldest first. *)
Fixpoint calls (cs : list call) (v : Vad.t) : list SpeechSegment * Vad.t :=
  match cs with
  | [] => ([], v)
  | Process frame :: cs' => calls cs' (snd (Vad.vad_process frame v))
  | GetSegment :: cs' =>
      match Vad.vad_get_segment (Some Main.stack_segment) v with
      | (true, Some seg, v') =>
          let '(segs, v'') := calls cs' v' in (seg :: segs, v'')
      | (_, _, v') => calls cs' v'
      end
  end.

(** The calling pattern of [loop] and of the header's comment ("Call after
    vad_process() to get segment info"): every frame is followed at once by
    [vad_get_segment]. *)
Definition drained (frames : list AudioFrame) : list call :=
  flat_map (fun f => [Process (Some f); GetSegment]) frames.

End VadClient.

(** ** Callers of the capture interface *)

Module RingClient.

(** The consumer of audio_capture.h: [audio_process] with whatever
    [i2s_read] returned, or [audio_get_frame] at a given clock value. *)
Inductive op : Type :=
| Feed (rd : Audio.i2s_result)
| Take (now : Z).

(** Run the operations in order; the first component lists the sample
    blocks of the frames [audio_get_frame] delivered, oldest first. *)
Fixpoint exec (ops : list op) (a : Audio.t) : list (list Z) * Audio.t :=
  match ops with
  | [] => ([], a)
  | Feed rd :: ops' => exec ops' (Audio.audio_process rd a)
  | Take now :: ops' =>
      match Audio.audio_get_frame now (Some Main.stack_frame) a with
      | (true, Some f, a') =>
          let '(fs, a'') := exec ops' a' in (samples f :: fs, a'')
      | (_, _, a') => exec ops' a'
      end
  end.

(** Cursors inside the array. *)
Definition wf (a : Audio.t) : Prop :=
  Z.of_nat (length (Audio.audio_buffer a)) = AUDIO_BUFFER_SIZE /\
  0 <= Audio.write_index a < AUDIO_BUFFER_SIZE /\
  0 <= Audio.read_index a < AUDIO_BUFFER_SIZE.

(** The samples between the read cursor and the write cursor, oldest
    first. *)
Definition unread (a : Audio.t) : list Z :=
  Audio.copy_out (Audio.audio_buffer a) (Audio.read_index a)
                 ((Audio.write_index a - Audio.read_index a)
                    mod AUDIO_BUFFER_SIZE).

End RingClient.

(** ** The ring buffer as the specification describes it

    A queue of samples: [push] appends and, when the buffer is full
    (one slot is kept free, so that [W = R] means empty), discards the oldest
    unread sample; a frame is the oldest [AUDIO_FRAME_SAMPLES] samples, taken
    only when that many are there. *)

Module Fifo.

Definition push (q : list Z) (x : Z) : list Z :=
  if Z.of_nat (length q) + 1 <? AUDIO_BUFFER_SIZE
  then q ++ [x] else drop 1 q ++ [x].

Definition feed (running : bool) (rd : Audio.i2s_result) (q : list Z)
  : list Z :=
  if negb running then q
  else if negb (Audio.i2s_ok rd)
          || (Z.of_nat (length (Audio.i2s_samples rd)) =? 0) then q
  else fold_left push (Audio.i2s_samples rd) q.

Definition next_frame (q : list Z) : option (list Z) * list Z :=
  if Z.of_nat (length q) <? AUDIO_FRAME_SAMPLES then (None, q)
  else (Some (take (Z.to_nat AUDIO_FRAME_SAMPLES) q),
        drop (Z.to_nat AUDIO_FRAME_SAMPLES) q).

Fixpoint exec (running : bool) (ops : list RingClient.op) (q : list Z)
  : list (list Z) * list Z :=
  match ops with
  | [] => ([], q)
  | RingClient.Feed rd :: ops' => exec running ops' (feed running rd q)
  | RingClient.Take _ :: ops' =>
      match next_frame q with
      | (Some f, q') => let '(fs, q'') := exec running ops' q' in (f :: fs, q'')
      | (None, q') => exec running ops' q'
      end
  end.

End Fifo.

(** ** Concrete inputs *)

Module Demo.

(** A square wave of amplitude [amp] that changes sign every four samples. *)
Definition square (amp : Z) (n : nat) : list Z :=
  map (fun i : nat => if (Z.of_nat i / 4) mod 2 =? 0 then amp else - amp)
      (seq 0 n).

(** A loud frame (energy about 0.24, zero-crossing rate about 0.25) and a
    silent one, captured at time [t]. *)
Definition loud (t : Z) : AudioFrame :=
  {| samples := square 8000 480; timestamp_ms := t; valid := true |}.
Definition silent (t : Z) : AudioFrame :=
  {| samples := replicate 480 0; timestamp_ms := t; valid := true |}.

(** A frame whose [valid] flag is down. *)
Definition stale : AudioFrame :=
  {| samples := square 8000 480; timestamp_ms := 77; valid := false |}.

(** The detector after [vad_init] at clock value 5. *)
Definition vad0 : Vad.t := Vad.vad_init 5 Vad.power_on.

(** Speech from 1000 ms, one silent frame at 1180 ms, speech again from
    1210 ms (an interruption of 30 ms), silence from 1400 ms on. *)
Definition interrupted : list AudioFrame :=
  [loud 1000; loud 1030; loud 1060; loud 1090; loud 1120; loud 1150;
   silent 1180;
   loud 1210; loud 1240; loud 1270; loud 1300; loud 1330; loud 1370;
   silent 1400; silent 1430; silent 1500; silent 1590; silent 1610].

(** Calls that leave a closed segment in the slot while the next one
    starts, and then closes after 10 ms. *)
Definition undrained_restart : list VadClient.call :=
  [VadClient.Process (Some (loud 1000)); VadClient.Process (Some (silent 1150));
   VadClient.Process (Some (loud 1160)); VadClient.GetSegment].
Definition undrained_short : list VadClient.call :=
  [VadClient.Process (Some (loud 1000)); VadClient.Process (Some (silent 1150));
   VadClient.Process (Some (loud 1160)); VadClient.Process (Some (silent 1170));
   VadClient.GetSegment].

(** Speech that lasts exactly the minimum duration. *)
Definition exactly_minimum : list AudioFrame := [loud 1000; silent 1100].

(** A pass of [loop] at clock value [t] in which [i2s_read] delivers
    [smp] (nothing when [smp] is empty). *)
Definition tick_at (t : Z) (smp : list Z) : Main.tick :=
  {| Main.t_loop := t;
     Main.t_i2s := {| Audio.i2s_ok := true; Audio.i2s_samples := smp |};
     Main.t_frame := t; Main.t_segment := t;
     Main.t_silence := t; Main.t_missed := t |}.

(** A client connects after [setup] and starts a session at 1000 ms. *)
Definition listening : Main.system :=
  Main.run (Main.after_setup 5)
    [Main.InConnect; Main.InLoop (tick_at 900 []);
     Main.InSessionControl true 1000 1000].

(** A quiet (Child) segment and two loud (Adult) ones, the second starting
    more than 3000 ms after the first segment ended. *)
Definition child_segment : SpeechSegment :=
  {| start_ms := 2000; end_ms := 2600; duration_ms := 600;
     avg_energy := F32.lit 5 100 |}.
Definition adult_segment : SpeechSegment :=
  {| start_ms := 3100; end_ms := 3900; duration_ms := 800;
     avg_energy := F32.lit 2 10 |}.
Definition late_adult_segment : SpeechSegment :=
  {| start_ms := 5601; end_ms := 6000; duration_ms := 399;
     avg_energy := F32.lit 2 10 |}.

(** The session after the Child segment has been processed. *)
Definition served : Main.system :=
  Main.process_speech_segment child_segment 2610 listening.

(** The detector in the middle of the utterance of [interrupted], and the
    system listening with it. *)
Definition vad_speaking : Vad.t :=
  snd (VadClient.calls
         (map (fun f => VadClient.Process (Some f)) (take 6 interrupted)) vad0).
Definition speaking : Main.system := Main.with_vad vad_speaking listening.

(** A quiet voice (amplitude 1638, energy 0.05) speaking from 1000 ms: the
    detector after six such frames, and the system listening with it. *)
Definition quiet_voice (t : Z) : AudioFrame :=
  {| samples := square 1638 480; timestamp_ms := t; valid := true |}.
Definition vad_quiet_speaking : Vad.t :=
  snd (VadClient.calls
         (map (fun f => VadClient.Process (Some f))
              [quiet_voice 1000; quiet_voice 1030; quiet_voice 1060;
               quiet_voice 1090; quiet_voice 1120; quiet_voice 1150]) vad0).
Definition quiet_speaking : Main.system :=
  Main.with_vad vad_quiet_speaking listening.

(** A loud voice answering from 3000 ms, while the session waits for a
    response to the Child segment that ended at 2600 ms. *)
Definition vad_answering : Vad.t :=
  snd (VadClient.calls
         (map (fun f => VadClient.Process (Some f))
              [loud 3000; loud 3030; loud 3060; loud 3090; loud 3120;
               loud 3150]) vad0).
Definition answering : Main.system := Main.with_vad vad_answering served.

(** The detector after the whole of [interrupted] (silent since 1400 ms),
    inside the session that is waiting for a response. *)
Definition vad_after : Vad.t :=
  snd (VadClient.calls (VadClient.drained interrupted) vad0).
Definition waiting : Main.system := Main.with_vad vad_after served.

(** The system with a client connected and no session yet. *)
Definition connected : Main.system :=
  Main.run (Main.after_setup 5) [Main.InConnect; Main.InLoop (tick_at 900 [])].

(** A first session: a quiet voice (amplitude 1638, energy 0.05) speaks
    and pauses, twice; samples arrive two frames per pass of [loop] and one
    frame is consumed per pass, so that the first utterance is closed and
    sent as a Serve, and the second one is still unread in the ring buffer
    when the client stops the session. *)
Definition utterance : list Z := square 1638 480 ++ replicate 480 0.

Definition first_session : list Main.input :=
  [Main.InSessionControl true 1000 1000;
   Main.InLoop (tick_at 1010 utterance);
   Main.InLoop (tick_at 1130 utterance);
   Main.InSessionControl false 0 0].

Definition stopped : Main.system := Main.run connected first_session.

(** A second session in which the microphone delivers nothing. *)
Definition mute_session : list Main.input :=
  [Main.InLoop (tick_at 9010 []); Main.InLoop (tick_at 9130 []);
   Main.InLoop (tick_at 9160 [])].

(** The capture module after [audio_init] and [audio_start]. *)
Definition capturing : Audio.t :=
  Audio.audio_start (snd (Audio.audio_init true Audio.power_on)).

(** Two blocks from the microphone with frame reads in between. *)
Definition ring_ops : list RingClient.op :=
  [RingClient.Feed {| Audio.i2s_ok := true;
                      Audio.i2s_samples := square 8000 600 |};
   RingClient.Take 10; RingClient.Take 11;
   RingClient.Feed {| Audio.i2s_ok := true;
                      Audio.i2s_samples := replicate 600 3 |};
   RingClient.Take 20; RingClient.Take 21].

(** The buffer after 159999 samples were pushed and none was read: with
    one more push the write cursor catches up with the read cursor. *)
Definition full : Audio.t :=
  {| Audio.audio_buffer := replicate (Z.to_nat 159999) 7 ++ [0];
     Audio.write_index := 159999;
     Audio.read_index := 0;
     Audio.is_initialized := true;
     Audio.is_running := true;
     Audio.current_level := F32.zero |}.

(** A normalized-difference array ([d'(0) = d'(1) = 1]) with seven
    entries, searched over the lags [3, 6): lag 3 is below the threshold
    but above its left neighbour, lag 5 is a dip. *)
Definition cmnd : list F32.t :=
  [F32.one; F32.one; F32.lit 1 100; F32.lit 5 100; F32.lit 3 10;
   F32.lit 1 10; F32.lit 2 10].

End Demo.

(** ** Predicates of the specification *)

(** [a < b] as a proposition on the two representations. *)
Definition lt_prop (a b : spec_float) : Prop :=
  match a, b with
  | S754_nan, _ | _, S754_nan => False
  | S754_infinity s1, S754_infinity s2 => s1 = true /\ s2 = false
  | S754_infinity s, _ => s = true
  | _, S754_infinity s => s = false
  | S754_finite s _ _, S754_zero _ => s = true
  | S754_zero _, S754_finite s _ _ => s = false
  | S754_zero _, S754_zero _ => False
  | S754_finite s1 m1 e1, S754_finite s2 m2 e2 =>
      match s1, s2 with
      | true, false => True
      | false, true => False
      | false, false => e1 < e2 \/ (e1 = e2 /\ (m1 < m2)%positive)
      | true, true => e2 < e1 \/ (e1 = e2 /\ (m2 < m1)%positive)
      end
  end.

(** [d'(tau)]: the entry of the normalized-difference array at lag [tau]
    (NaN stands for an index outside the array: it compares false with
    everything). *)
Definition lag_value (diff : list F32.t) (tau : Z) : F32.t :=
  default S754_nan (read diff tau).

(** "Below the threshold and a local minimum: less than its left neighbor,
    no greater than its right neighbor". *)
Definition is_dip (diff : list F32.t) (thr : F32.t) (tau : Z) : bool :=
  F32.ltb (lag_value diff tau) thr
  && F32.ltb (lag_value diff tau) (lag_value diff (tau - 1))
  && F32.leb (lag_value diff tau) (lag_value diff (tau + 1)).

(** [tau] is the smallest lag of [lo, hi) that is such a dip. *)
Definition first_dip_at (diff : list F32.t) (thr : F32.t) (lo hi tau : Z)
  : Prop :=
  lo <= tau < hi /\
  is_dip diff thr tau = true /\
  forall t : Z, lo <= t < tau -> is_dip diff thr t = false.

Definition no_dip (diff : list F32.t) (thr : F32.t) (lo hi : Z) : Prop :=
  forall t : Z, lo <= t < hi -> is_dip diff thr t = false.

(** [m] is the lag of the global minimum over [lo, hi): no value of the
    range is below [d'(m)], and every earlier one is above it. *)
Definition global_minimum_at (diff : list F32.t) (lo hi m : Z) : Prop :=
  lo <= m < hi /\
  (forall t : Z, lo <= t < hi ->
     F32.ltb (lag_value diff t) (lag_value diff m) = false) /\
  (forall t : Z, lo <= t < m ->
     F32.ltb (lag_value diff m) (lag_value diff t) = true).

(** The lag-selection step: [result] is the first dip of [lo, scan_hi), or
    there is none and [result] is the lag of the global minimum over
    [lo, hi) when that minimum is below 0.5, and -1 ("unvoiced")
    otherwise.  The specification has [scan_hi = hi]. *)
Definition selects (diff : list F32.t) (thr : F32.t) (lo scan_hi hi : Z)
           (result : Z) : Prop :=
  first_dip_at diff thr lo scan_hi result \/
  (no_dip diff thr lo scan_hi /\
   exists m : Z,
     global_minimum_at diff lo hi m /\
     ((F32.ltb (lag_value diff m) Pitch.c_0_5 = true /\ result = m) \/
      (F32.ltb (lag_value diff m) Pitch.c_0_5 = false /\ result = -1))).

(** The range a caller may pass: inside the array, a left neighbour for the
    first lag, lags that fit an [int], and numbers in every slot of the
    range. *)
Definition lag_range_ok (diff : list F32.t) (lo hi : Z) : Prop :=
  1 <= lo /\ lo < hi /\ hi <= Z.of_nat (length diff) /\ hi < 2 ^ 31 /\
  forall t : Z, lo <= t < hi -> lag_value diff t <> S754_nan.

(** Kinds of calls in the trace. *)
Definition is_serve (o : output) : bool :=
  match o with
  | OutEvent e _ => BLEEventType_eqb (type e) BLE_EVENT_SERVE
  | _ => false
  end.

Definition is_missed (o : output) : bool :=
  match o with
  | OutEvent e _ => BLEEventType_eqb (type e) BLE_EVENT_MISSED_OPPORTUNITY
  | _ => false
  end.

Definition is_event (o : output) : bool :=
  match o with
  | OutEvent _ _ => true
  | _ => false
  end.

(** The turn-taking events a system emits while it consumes [ins]. *)
Definition session_events (s : Main.system) (ins : list Main.input)
  : list output :=
  filter is_event (drop (length (Main.trace s)) (Main.trace (Main.run s ins))).

(** What [vad_reset] and [on_session_control] assign on a start. *)
Definition vad_reset_values (now : Z) (v : Vad.t) : Prop :=
  Vad.current_state v = VAD_STATE_SILENCE /\
  Vad.state_start_time v = now /\
  Vad.last_speech_time v = 0 /\
  Vad.speech_start_time v = 0 /\
  Vad.segment_ready v = false /\
  Vad.segment_energy_sum v = F32.zero /\
  Vad.segment_frame_count v = 0.

Definition turn_reset_values (m : Main.t) : Prop :=
  Main.waiting_for_response m = false /\
  Main.last_was_speaking m = false /\
  Main.last_was_child m = false /\
  Main.last_speech_end_time m = 0.

(** The reset the specification asks for: in addition the adaptive noise
    floor, the pending segment and the child speech time are back at their
    initial values. *)
Definition vad_initial_values (now : Z) (v : Vad.t) : Prop :=
  vad_reset_values now v /\
  Vad.noise_floor v = Vad.noise_floor Vad.power_on /\
  Vad.pending_segment v = Vad.pending_segment Vad.power_on.

Definition turn_initial_values (m : Main.t) : Prop :=
  turn_reset_values m /\
  Main.child_speech_time m = Main.child_speech_time Main.power_on.

Definition start_restores_all (s : Main.system) (t_session t_reset : Z)
  : Prop :=
  let s' := Main.on_session_control true t_session t_reset s in
  vad_initial_values t_reset (Main.vad s') /\
  turn_initial_values (Main.core s') /\
  Audio.is_running (Main.audio s') = true.

(** "No state of the previous session can influence the new session's
    output": started from [s1] or from [s2], the new session emits the same
    events on the same inputs. *)
Definition start_forgets (s1 s2 : Main.system) (t_session t_reset : Z)
           (ins : list Main.input) : Prop :=
  session_events (Main.on_session_control true t_session t_reset s1) ins
  = session_events (Main.on_session_control true t_session t_reset s2) ins.

(** From [s] to [s'] the trace only grows, and if no Child segment was
    waiting in [s] and no Serve was emitted on the way, then no
    MissedOpportunity was emitted either and none is waiting in [s']. *)
Definition missed_needs_serve (s s' : Main.system) : Prop :=
  exists new : list output,
    Main.trace s' = Main.trace s ++ new /\
    (Main.waiting_for_response (Main.core s) = false ->
     existsb is_serve new = false ->
     existsb is_missed new = false /\
     Main.waiting_for_response (Main.core s') = false).

(** The events of the three turn-taking rules, field by field.  An event
    is stamped with the seconds elapsed since the session started (0 when
    no session is active or the session started at clock value 0), carries
    the placeholder confidence 0.8 and no pitch; a Return carries the
    response latency in seconds and a MissedOpportunity the silence in
    seconds; the other payload fields are 0.  The flag beside the event is
    the answer of the transport: accepted exactly when a client is
    connected. *)
Definition session_seconds (now : Z) (s : Main.system) : F32.t :=
  if negb (Main.session_active (Main.core s))
     || (Main.session_start_time (Main.core s) =? 0)
  then S754_zero false
  else F32.div (F32.of_Z (u32 (now - Main.session_start_time (Main.core s))))
               (F32.of_Z 1000).

Definition serve_event (now : Z) (s : Main.system) : output :=
  OutEvent {| type := BLE_EVENT_SERVE;
              timestamp := session_seconds now s;
              confidence := F32.lit 8 10;
              pitch_hz := S754_zero false;
              response_latency := S754_zero false;
              silence_duration := S754_zero false |}
           (Main.device_connected s).

Definition return_event (latency_ms now : Z) (s : Main.system) : output :=
  OutEvent {| type := BLE_EVENT_RETURN;
              timestamp := session_seconds now s;
              confidence := F32.lit 8 10;
              pitch_hz := S754_zero false;
              response_latency :=
                F32.div (F32.of_Z latency_ms) (F32.of_Z 1000);
              silence_duration := S754_zero false |}
           (Main.device_connected s).

Definition missed_event (silence_ms now : Z) (s : Main.system) : output :=
  OutEvent {| type := BLE_EVENT_MISSED_OPPORTUNITY;
              timestamp := session_seconds now s;
              confidence := F32.lit 8 10;
              pitch_hz := S754_zero false;
              response_latency := S754_zero false;
              silence_duration :=
                F32.div (F32.of_Z silence_ms) (F32.of_Z 1000) |}
           (Main.device_connected s).

(** A frame pointer [vad_process] refuses: null, or [valid == false]. *)
Definition unusable (frame : option AudioFrame) : Prop :=
  match frame with
  | None => True
  | Some f => valid f = false
  end.

(** The law the specification states for a published segment, with the
    subtraction as the code's [uint32_t] one and the bound as the code's
    [>=]. *)
Definition segment_law (seg : SpeechSegment) : Prop :=
  duration_ms seg = u32 (end_ms seg - start_ms seg) /\
  VAD_MIN_SPEECH_MS <= duration_ms seg.

(** The same law as the specification words it: the duration "exceeds" the
    minimum. *)
Definition segment_law_strict (seg : SpeechSegment) : Prop :=
  duration_ms seg = u32 (end_ms seg - start_ms seg) /\
  VAD_MIN_SPEECH_MS < duration_ms seg.

(** "Every segment the VAD hands out obeys the law", for a given sequence of
    calls on a given detector. *)
Definition all_published (law : SpeechSegment -> Prop)
           (cs : list VadClient.call) (v : Vad.t) : Prop :=
  forall seg, In seg (fst (VadClient.calls cs v)) -> law seg.

(** * Further definitions *)

(** The adaptive noise floor sits inside its clamp: not below 0.001, not
    above 0.1. *)
Definition noise_floor_clamped (nf : F32.t) : Prop :=
  F32.ltb nf Vad.c_0_001 = false /\ F32.gtb nf Vad.c_0_1 = false.

(** The arrows of the VAD state machine. *)
Definition vad_arrow (a b : VADState) : bool :=
  match a, b with
  | VAD_STATE_SILENCE, VAD_STATE_HANGOVER => false
  | VAD_STATE_SPEECH, VAD_STATE_SILENCE => false
  | _, _ => true
  end.

(** Two detectors that differ at most in the configured (fixed) threshold. *)
Definition same_but_threshold (v w : Vad.t) : Prop :=
  Vad.adaptive_enabled v = Vad.adaptive_enabled w /\
  Vad.current_state v = Vad.current_state w /\
  Vad.state_start_time v = Vad.state_start_time w /\
  Vad.last_speech_time v = Vad.last_speech_time w /\
  Vad.speech_start_time v = Vad.speech_start_time w /\
  Vad.noise_floor v = Vad.noise_floor w /\
  Vad.pending_segment v = Vad.pending_segment w /\
  Vad.segment_ready v = Vad.segment_ready w /\
  Vad.segment_energy_sum v = Vad.segment_energy_sum w /\
  Vad.segment_frame_count v = Vad.segment_frame_count w.

(** An event the transport accepted ([ble_send_event] returned true). *)
Definition is_sent (o : output) : bool :=
  match o with
  | OutEvent _ sent => sent
  | _ => false
  end.

(** A start command. *)
Definition is_start (i : Main.input) : bool :=
  match i with
  | Main.InSessionControl start _ _ => start
  | _ => false
  end.

(** The counter is a [uint16_t]. *)
Definition counter_ok (s : Main.system) : Prop :=
  0 <= Main.session_event_count (Main.core s) < 2 ^ 16.

(** From [s] to [s'] the trace grows by [new] and the session's event
    counter by the number of accepted events in [new], in [uint16_t]. *)
Definition counts_sent (s s' : Main.system) : Prop :=
  counter_ok s ->
  exists new : list output,
    Main.trace s' = Main.trace s ++ new /\
    Main.session_event_count (Main.core s')
    = u16 (Main.session_event_count (Main.core s)
           + Z.of_nat (length (filter is_sent new))).

(** ** pitch_detector.cpp: the median of several windows *)

Module Robust.

Definition window_size : Z := Pitch.PITCH_WINDOW_SAMPLES.
Definition hop_size : Z := window_size / 2.

(** [float pitches[16]] *)
Definition MAX_PITCHES : Z := 16.

Definition c_8_0 : F32.t := Eval vm_compute in F32.of_Z 8.

(** [r.valid && r.pitch_hz > PITCH_MIN_HZ && r.pitch_hz < PITCH_MAX_HZ] *)
Definition usable (r : Pitch.PitchResult) : bool :=
  Pitch.valid r
  && F32.gtb (Pitch.pitch_hz r) (F32.of_Z Pitch.PITCH_MIN_HZ)
  && F32.ltb (Pitch.pitch_hz r) (F32.of_Z Pitch.PITCH_MAX_HZ).

(** The window loop.  [pitches] is [pitches[0 .. pitch_count)], so that
    [pitches[pitch_count++] = x] appends; [samples + i] is the array from
    index [i] on.  [n] bounds the number of passes: [None] when it is used
    up with the loop condition still true. *)
Fixpoint collect (smp : list Z) (count sample_rate : Z) (i : Z) (n : nat)
         (pitches : list F32.t) (buf : list F32.t)
  : option (list F32.t * list F32.t) :=
  if (u32 (i + window_size) <=? count)
     && (Z.of_nat (length pitches) <? MAX_PITCHES)
  then
    match n with
    | O => None
    | S n' =>
        rb ← Pitch.pitch_estimate (drop (Z.to_nat i) smp) window_size
                                  sample_rate buf;
        collect smp count sample_rate (u32 (i + hop_size)) n'
                (if usable (fst rb) then pitches ++ [Pitch.pitch_hz (fst rb)]
                 else pitches)
                (snd rb)
    end
  else Some (pitches, buf).

(** Inner loop of the bubble sort: [j] runs over [n] indices. *)
Fixpoint bubble_inner (p : list F32.t) (j : Z) (n : nat)
  : option (list F32.t) :=
  match n with
  | O => Some p
  | S n' =>
      a ← read p j;
      b ← read p (j + 1);
      if F32.gtb a b then
        p1 ← write p j b;
        p2 ← write p1 (j + 1) a;
        bubble_inner p2 (j + 1) n'
      else bubble_inner p (j + 1) n'
  end.

(** Outer loop: [i] runs over [n] passes. *)
Fixpoint bubble_outer (p : list F32.t) (pitch_count : Z) (i : Z) (n : nat)
  : option (list F32.t) :=
  match n with
  | O => Some p
  | S n' =>
      p' ← bubble_inner p 0 (Z.to_nat (u32 (pitch_count - i - 1)));
      bubble_outer p' pitch_count (i + 1) n'
  end.

Definition bubble_sort (p : list F32.t) : option (list F32.t) :=
  let pitch_count := Z.of_nat (length p) in
  bubble_outer p pitch_count 0 (Z.to_nat (u32 (pitch_count - 1))).

(** [PitchResult pitch_estimate_robust(const int16_t* samples, size_t count,
    uint32_t sample_rate)], threading [diff_buffer]. *)
Definition pitch_estimate_robust (smp : list Z) (count sample_rate : Z)
           (diff_buffer : list F32.t)
  : option (Pitch.PitchResult * list F32.t) :=
  pb ← collect smp count sample_rate 0 (Z.to_nat (count / hop_size)) []
               diff_buffer;
  let pitch_count := Z.of_nat (length (fst pb)) in
  if pitch_count =? 0 then Some (Pitch.no_pitch, snd pb)
  else
    sorted ← bubble_sort (fst pb);
    hz ← read sorted (pitch_count / 2);
    let confidence := F32.div (F32.of_Z pitch_count) c_8_0 in
    Some ({| Pitch.valid := true;
             Pitch.pitch_hz := hz;
             Pitch.confidence :=
               if F32.gtb confidence F32.one then F32.one else confidence;
             Pitch.speaker := Pitch.pitch_classify hz |}, snd pb).

End Robust.

(** One pass of the bubble sort over the first [n + 1] elements, on the
    list itself. *)
Fixpoint bubble_pass (n : nat) (l : list F32.t) : list F32.t :=
  match n, l with
  | S n', a :: b :: l' =>
      if F32.gtb a b then b :: bubble_pass n' (a :: l')
      else a :: bubble_pass n' (b :: l')
  | _, _ => l
  end.

Definition le_f32 (a b : F32.t) : Prop := F32.leb a b = true.

(** A pitch the robust estimator keeps: strictly between 75 and 500 Hz. *)
Definition in_pitch_range (x : F32.t) : Prop :=
  F32.gtb x (F32.of_Z Pitch.PITCH_MIN_HZ) = true /\
  F32.ltb x (F32.of_Z Pitch.PITCH_MAX_HZ) = true.

(** [x] is what [pitch_estimate] returns, and the window loop keeps, for
    one of the windows of the first [count] samples of [smp]: the window
    starts at a multiple of the hop size. *)
Definition window_estimate (smp : list Z) (count sample_rate : Z)
           (x : F32.t) : Prop :=
  exists (i : Z) (b b' : list F32.t) (r : Pitch.PitchResult),
    0 <= i /\ i mod Robust.hop_size = 0 /\
    i + Robust.window_size <= count /\
    Z.of_nat (length b) = Pitch.DIFF_BUFFER_LEN /\
    Pitch.pitch_estimate (drop (Z.to_nat i) smp) Robust.window_size
                         sample_rate b = Some (r, b') /\
    Robust.usable r = true /\
    x = Pitch.pitch_hz r.

(** The threshold in force is not negative: the noise floor is inside its
    clamp (adaptive mode), or the configured threshold is not below zero. *)
Definition threshold_not_negative (v : Vad.t) : Prop :=
  if Vad.adaptive_enabled v then noise_floor_clamped (Vad.noise_floor v)
  else F32.ltb (Vad.energy_threshold v) F32.zero = false.

(** ** feedback.cpp *)

Definition u8 (z : Z) : Z := z mod 2 ^ 8.

(** [(uint8_t)x] for a [float] [x]: the fractional part is discarded; the
    conversion is undefined ([None]) when the truncated value does not fit,
    and for NaN and the infinities. *)
Definition float_trunc (x : F32.t) : option Z :=
  match x with
  | S754_zero _ => Some 0
  | S754_finite s m e =>
      Some (cond_Zopp s (if 0 <=? e then Z.pos m * 2 ^ e
                         else Z.pos m / 2 ^ (- e)))
  | _ => None
  end.

Definition to_uint8 (x : F32.t) : option Z :=
  z ← float_trunc x;
  if (0 <=? z) && (z <=? 255) then Some z else None.

(** Arduino's [constrain(amt, low, high)]:
    [((amt)<(low)?(low):((amt)>(high)?(high):(amt)))]. *)
Definition constrain (amt low high : F32.t) : F32.t :=
  if F32.ltb amt low then low
  else if F32.gtb amt high then high else amt.

Module Feedback.

Definition PWM_CHANNEL_R : Z := 0.
Definition PWM_CHANNEL_G : Z := 1.
Definition PWM_CHANNEL_B : Z := 2.
Definition PWM_CHANNEL_HAPTIC : Z := 3.

Record LEDColor : Type := mkColor { r : Z; g : Z; b : Z }.

Definition COLOR_OFF : LEDColor := mkColor 0 0 0.
Definition COLOR_RED : LEDColor := mkColor 255 0 0.
Definition COLOR_GREEN : LEDColor := mkColor 0 255 0.
Definition COLOR_BLUE : LEDColor := mkColor 0 0 255.
Definition COLOR_YELLOW : LEDColor := mkColor 255 200 0.

Record PatternStep : Type := mkStep {
  color : LEDColor;
  haptic : Z;      (* 0-255 *)
  duration : Z     (* ms *)
}.

Definition MAX_PATTERN_STEPS : Z := 8.

Definition pattern_session_start : list PatternStep :=
  [mkStep COLOR_GREEN 200 100; mkStep COLOR_GREEN 0 100;
   mkStep COLOR_GREEN 150 80; mkStep COLOR_OFF 0 0].

Definition pattern_session_end : list PatternStep :=
  [mkStep COLOR_OFF 200 100; mkStep COLOR_OFF 0 100;
   mkStep COLOR_OFF 200 100; mkStep COLOR_OFF 0 0].

Definition pattern_good_turn : list PatternStep :=
  [mkStep COLOR_GREEN 0 150; mkStep COLOR_OFF 0 0].

Definition pattern_missed_opp : list PatternStep :=
  [mkStep COLOR_OFF 180 200; mkStep COLOR_OFF 0 100;
   mkStep COLOR_OFF 120 150; mkStep COLOR_OFF 0 0].

Definition pattern_low_battery : list PatternStep :=
  [mkStep COLOR_YELLOW 0 300; mkStep COLOR_OFF 0 200;
   mkStep COLOR_YELLOW 0 300; mkStep COLOR_OFF 0 0].

Definition pattern_connected : list PatternStep :=
  [mkStep COLOR_BLUE 100 200; mkStep COLOR_OFF 0 0].

Definition pattern_disconnected : list PatternStep :=
  [mkStep COLOR_RED 100 200; mkStep COLOR_OFF 0 0].

Definition pattern_error : list PatternStep :=
  [mkStep COLOR_RED 255 200; mkStep COLOR_OFF 0 100;
   mkStep COLOR_RED 255 200; mkStep COLOR_OFF 0 0].

(** A call [ledcWrite(channel, duty)]; [duty] is [None] when the conversion
    that produced it is undefined. *)
Inductive ledc : Type :=
| LedcWrite (channel : Z) (duty : option Z).

(** The file's [static] state, and the calls made to the PWM driver, oldest
    first. *)
Record t : Type := mkState {
  pattern_active : bool;
  current_pattern : FeedbackType;
  pattern_start_time : Z;
  pattern_step : Z;
  pattern_intensity : F32.t;
  global_brightness : F32.t;
  current_color : LEDColor;
  pwm : list ledc
}.

(** Values of the static initialisers. *)
Definition power_on : t :=
  {| pattern_active := false;
     current_pattern := FEEDBACK_NONE;
     pattern_start_time := 0;
     pattern_step := 0;
     pattern_intensity := F32.one;
     global_brightness := F32.one;
     current_color := COLOR_OFF;
     pwm := [] |}.

(** The three duties of [apply_brightness]. *)
Definition led_writes (c : LEDColor) (brightness : F32.t) : list ledc :=
  [LedcWrite PWM_CHANNEL_R (to_uint8 (F32.mul (F32.of_Z (r c)) brightness));
   LedcWrite PWM_CHANNEL_G (to_uint8 (F32.mul (F32.of_Z (g c)) brightness));
   LedcWrite PWM_CHANNEL_B (to_uint8 (F32.mul (F32.of_Z (b c)) brightness))].

Definition set_led_pwm (c : LEDColor) (s : t) : t :=
  {| pattern_active := pattern_active s;
     current_pattern := current_pattern s;
     pattern_start_time := pattern_start_time s;
     pattern_step := pattern_step s;
     pattern_intensity := pattern_intensity s;
     global_brightness := global_brightness s;
     current_color := c;
     pwm := pwm s ++ led_writes c (global_brightness s) |}.

Definition emit (w : ledc) (s : t) : t :=
  {| pattern_active := pattern_active s;
     current_pattern := current_pattern s;
     pattern_start_time := pattern_start_time s;
     pattern_step := pattern_step s;
     pattern_intensity := pattern_intensity s;
     global_brightness := global_brightness s;
     current_color := current_color s;
     pwm := pwm s ++ [w] |}.

Definition haptic_write (value : Z) (intensity : F32.t) : ledc :=
  LedcWrite PWM_CHANNEL_HAPTIC
            (to_uint8 (F32.mul (F32.of_Z value) intensity)).

Definition set_haptic_pwm (value : Z) (intensity : F32.t) (s : t) : t :=
  emit (haptic_write value intensity) s.

(** [nullptr] is [None]. *)
Definition get_pattern_steps (ty : FeedbackType)
  : option (list PatternStep) :=
  match ty with
  | FEEDBACK_SESSION_START => Some pattern_session_start
  | FEEDBACK_SESSION_END => Some pattern_session_end
  | FEEDBACK_GOOD_TURN => Some pattern_good_turn
  | FEEDBACK_MISSED_OPP => Some pattern_missed_opp
  | FEEDBACK_LOW_BATTERY => Some pattern_low_battery
  | FEEDBACK_CONNECTED => Some pattern_connected
  | FEEDBACK_DISCONNECTED => Some pattern_disconnected
  | FEEDBACK_ERROR => Some pattern_error
  | FEEDBACK_NONE => None
  end.

(** [while (count < MAX_PATTERN_STEPS && steps[count].duration > 0) count++]:
    at most [MAX_PATTERN_STEPS] passes. *)
Fixpoint count_loop (steps : list PatternStep) (count : Z) (n : nat)
  : option Z :=
  match n with
  | O => Some count
  | S n' =>
      st ← read steps count;
      if duration st >? 0 then count_loop steps (count + 1) n'
      else Some count
  end.

Definition count_pattern_steps (steps : option (list PatternStep))
  : option Z :=
  match steps with
  | None => Some 0
  | Some l => count_loop l 0 (Z.to_nat MAX_PATTERN_STEPS)
  end.

Definition feedback_led_off (s : t) : t := set_led_pwm COLOR_OFF s.

Definition feedback_haptic_off (s : t) : t :=
  emit (LedcWrite PWM_CHANNEL_HAPTIC (Some 0)) s.

Definition feedback_cancel (s : t) : t :=
  feedback_haptic_off
    (feedback_led_off
       {| pattern_active := false;
          current_pattern := FEEDBACK_NONE;
          pattern_start_time := pattern_start_time s;
          pattern_step := 0;
          pattern_intensity := pattern_intensity s;
          global_brightness := global_brightness s;
          current_color := current_color s;
          pwm := pwm s |}).

Definition FeedbackType_is_none (ty : FeedbackType) : bool :=
  match ty with FEEDBACK_NONE => true | _ => false end.

(** [feedback_trigger]; [now] is the value of [millis()]. *)
Definition feedback_trigger (ty : FeedbackType) (intensity : F32.t) (now : Z)
           (s : t) : option t :=
  let s := feedback_cancel s in
  if FeedbackType_is_none ty then Some s
  else
    match get_pattern_steps ty with
    | None => Some s
    | Some steps =>
        let x := constrain intensity F32.zero F32.one in
        let s1 :=
          {| pattern_active := true;
             current_pattern := ty;
             pattern_start_time := now;
             pattern_step := 0;
             pattern_intensity := x;
             global_brightness := global_brightness s;
             current_color := current_color s;
             pwm := pwm s |} in
        st ← read steps 0;
        Some (set_haptic_pwm (haptic st) x (set_led_pwm (color st) s1))
    end.

Definition feedback_set_led (c : LEDColor) (s : t) : t := set_led_pwm c s.

Definition feedback_is_active (s : t) : bool := pattern_active s.

(** [for (uint8_t i = 0; i <= pattern_step && i < total_steps; i++)
       step_end += steps[i].duration;] *)
Fixpoint step_end_loop (steps : list PatternStep) (i : Z) (n : nat)
         (step_end : Z) : option Z :=
  match n with
  | O => Some step_end
  | S n' =>
      st ← read steps i;
      step_end_loop steps (i + 1) n' (u32 (step_end + duration st))
  end.

Definition with_step (k : Z) (s : t) : t :=
  {| pattern_active := pattern_active s;
     current_pattern := current_pattern s;
     pattern_start_time := pattern_start_time s;
     pattern_step := k;
     pattern_intensity := pattern_intensity s;
     global_brightness := global_brightness s;
     current_color := current_color s;
     pwm := pwm s |}.

(** [feedback_process]; [now] is the value of [millis()]. *)
Definition feedback_process (now : Z) (s : t) : option t :=
  if negb (pattern_active s) then Some s
  else
    match get_pattern_steps (current_pattern s) with
    | None => Some (feedback_cancel s)
    | Some steps =>
        total_steps ← count_pattern_steps (Some steps);
        let elapsed := u32 (now - pattern_start_time s) in
        step_end ← step_end_loop steps 0
                     (Z.to_nat (Z.min (pattern_step s + 1) total_steps)) 0;
        if elapsed >=? step_end then
          let s1 := with_step (u8 (pattern_step s + 1)) s in
          if pattern_step s1 >=? total_steps then Some (feedback_cancel s1)
          else
            st ← read steps (pattern_step s1);
            Some (set_haptic_pwm (haptic st) (pattern_intensity s1)
                    (set_led_pwm (color st) s1))
        else Some s
    end.

Definition feedback_set_brightness (brightness : F32.t) (s : t) : t :=
  let s1 :=
    {| pattern_active := pattern_active s;
       current_pattern := current_pattern s;
       pattern_start_time := pattern_start_time s;
       pattern_step := pattern_step s;
       pattern_intensity := pattern_intensity s;
       global_brightness := constrain brightness F32.zero F32.one;
       current_color := current_color s;
       pwm := pwm s |} in
  let c := current_color s1 in
  if (r c >? 0) || (g c >? 0) || (b c >? 0) then set_led_pwm c s1 else s1.

(** The calls a client can make, and a sequence of them. *)
Inductive call : Type :=
| Trigger (ty : FeedbackType) (intensity : F32.t) (now : Z)
| Process (now : Z)
| Cancel
| SetLed (c : LEDColor)
| LedOff
| HapticOff
| SetBrightness (brightness : F32.t).

Definition exec (c : call) (s : t) : option t :=
  match c with
  | Trigger ty x now => feedback_trigger ty x now s
  | Process now => feedback_process now s
  | Cancel => Some (feedback_cancel s)
  | SetLed c => Some (feedback_set_led c s)
  | LedOff => Some (feedback_led_off s)
  | HapticOff => Some (feedback_haptic_off s)
  | SetBrightness x => Some (feedback_set_brightness x s)
  end.

Fixpoint run (cs : list call) (s : t) : option t :=
  match cs with
  | [] => Some s
  | c :: cs' => s' ← exec c s; run cs' s'
  end.

(** The pattern of a type that has one, and its number of steps (the steps
    before the terminator). *)
Definition plays (ty : FeedbackType) (steps : list PatternStep) (total : Z)
  : Prop :=
  get_pattern_steps ty = Some steps /\
  count_pattern_steps (Some steps) = Some total.

(** The time, from the trigger on, at which step [k] is over. *)
Definition deadline (steps : list PatternStep) (k : Z) : Z :=
  fold_right Z.add 0 (map duration (take (Z.to_nat (k + 1)) steps)).

(** The state is consistent: an active pattern has a table and stands at one
    of its steps; at rest the pattern is [FEEDBACK_NONE] at step 0. *)
Definition consistent (s : t) : Prop :=
  if pattern_active s then
    exists (steps : list PatternStep) (total : Z),
      plays (current_pattern s) steps total /\
      0 <= pattern_step s < total
  else current_pattern s = FEEDBACK_NONE /\ pattern_step s = 0.

(** The four writes that switch everything off. *)
Definition off_writes (brightness : F32.t) : list ledc :=
  led_writes COLOR_OFF brightness ++ [LedcWrite PWM_CHANNEL_HAPTIC (Some 0)].

(** The writes that apply a step. *)
Definition step_writes (st : PatternStep) (brightness intensity : F32.t)
  : list ledc :=
  led_writes (color st) brightness ++ [haptic_write (haptic st) intensity].

End Feedback.

(** An input in which the microphone delivers zeros only (or nothing):
    connects, disconnects and commands are free, and so are the clock
    values. *)
Definition mute_input (i : Main.input) : Prop :=
  match i with
  | Main.InLoop tk =>
      Forall (fun x => x = 0) (Audio.i2s_samples (Main.t_i2s tk))
  | _ => True
  end.

(** Nothing but silence is buffered, the detector rests in Silence with no
    segment pending, and no response is awaited. *)
Definition quiet (s : Main.system) : Prop :=
  Forall (fun x => x = 0) (Audio.audio_buffer (Main.audio s)) /\
  threshold_not_negative (Main.vad s) /\
  Vad.current_state (Main.vad s) = VAD_STATE_SILENCE /\
  Vad.segment_ready (Main.vad s) = false /\
  Main.waiting_for_response (Main.core s) = false.

(** From [s] to [s'] the system stays quiet and emits no event. *)
Definition stays_quiet (s s' : Main.system) : Prop :=
  quiet s' /\
  exists new : list output,
    Main.trace s' = Main.trace s ++ new /\ filter is_event new = [].

(** Every call a client of audio_capture.h can make, in any order. *)
Module CaptureClient.

Inductive call : Type :=
| Init (configured : bool)       (* audio_init; the outcome of configure_i2s *)
| Start
| Stop
| Process (rd : Audio.i2s_result)
| GetFrame (now : Z).

Definition exec (a : Audio.t) (c : call) : Audio.t :=
  match c with
  | Init configured => snd (Audio.audio_init configured a)
  | Start => Audio.audio_start a
  | Stop => Audio.audio_stop a
  | Process rd => Audio.audio_process rd a
  | GetFrame now =>
      snd (Audio.audio_get_frame now (Some Main.stack_frame) a)
  end.

Definition run (cs : list call) (a : Audio.t) : Audio.t :=
  fold_left exec cs a.

End CaptureClient.

(** The cursors are inside the ring, capture runs only once initialised, and
    nothing is buffered before that. *)
Definition capture_ok (a : Audio.t) : Prop :=
  RingClient.wf a /\
  (Audio.is_running a = true -> Audio.is_initialized a = true) /\
  (Audio.is_initialized a = false ->
   Audio.audio_frames_available a = 0 /\ RingClient.unread a = []).

(** A block of 600 samples read from the microphone. *)
Definition demo_block : Audio.i2s_result :=
  {| Audio.i2s_ok := true; Audio.i2s_samples := Demo.square 8000 600 |}.

(** Three pitch estimates, out of order. *)
Definition demo_pitches : list F32.t :=
  Eval vm_compute in [F32.of_Z 300; F32.of_Z 100; F32.of_Z 200].

(** A window stuck at a DC offset, and a longer signal stuck there. *)
Definition demo_dc_window : list Z := replicate 600 1000.
Definition demo_dc_signal : list Z := replicate 1200 1000.

(** A tone sampled at 1 kHz that drops from 250 Hz to 125 Hz after 800
    samples, the estimates of its three windows and their median. *)
Definition demo_tone : list Z :=
  map (fun i : nat => if (Z.of_nat i / 2) mod 2 =? 0 then 8000 else - 8000)
      (seq 0 800)
  ++ Demo.square 8000 800.

Definition demo_tone_pitches : list F32.t :=
  [S754_finite false 16679512 (-16); S754_finite false 16465705 (-17);
   S754_finite false 16479422 (-17)].

Definition demo_tone_median : Pitch.PitchResult :=
  {| Pitch.valid := true;
     Pitch.pitch_hz := S754_finite false 16479422 (-17);
     Pitch.confidence := S754_finite false 12582912 (-25);
     Pitch.speaker := Pitch.SPEAKER_ADULT |}.

(** The player in the middle of the first step of the session-start
    pattern, triggered at clock value 1000. *)
Definition demo_playing : Feedback.t :=
  {| Feedback.pattern_active := true;
     Feedback.current_pattern := FEEDBACK_SESSION_START;
     Feedback.pattern_start_time := 1000;
     Feedback.pattern_step := 0;
     Feedback.pattern_intensity := F32.one;
     Feedback.global_brightness := F32.one;
     Feedback.current_color := Feedback.COLOR_GREEN;
     Feedback.pwm := [] |}.

(** A client that triggers, processes, retriggers and cancels. *)
Definition demo_calls : list Feedback.call :=
  [Feedback.Trigger FEEDBACK_SESSION_START F32.one 1000;
   Feedback.Process 1050;
   Feedback.Process 1100;
   Feedback.Trigger FEEDBACK_GOOD_TURN F32.one 1120;
   Feedback.SetBrightness F32.zero;
   Feedback.Process 1300;
   Feedback.Cancel].

(** A client connects, runs a session in front of a mute microphone, and is
    lost. *)
Definition demo_mute_inputs : list Main.input :=
  [Main.InConnect;
   Main.InSessionControl true 1000 1000;
   Main.InLoop (Demo.tick_at 1010 (replicate 600 0));
   Main.InLoop (Demo.tick_at 1040 (replicate 600 0));
   Main.InDisconnect;
   Main.InLoop (Demo.tick_at 1070 [])].

(** A client that forgets [audio_init]. *)
Definition demo_uninitialised : list CaptureClient.call :=
  [CaptureClient.Start; CaptureClient.Process demo_block;
   CaptureClient.GetFrame 5].
(** * Properties *)

Arguments F32.add : simpl never.
Arguments F32.sub : simpl never.
Arguments F32.mul : simpl never.
Arguments F32.div : simpl never.
Arguments F32.sqrt : simpl never.
Arguments F32.of_Z : simpl never.
Arguments F32.ltb : simpl never.
Arguments F32.leb : simpl never.
Arguments F32.gtb : simpl never.
Arguments u32 : simpl never.
Arguments u16 : simpl never.
Arguments rms_normalized : simpl never.
Arguments Vad.calculate_energy : simpl never.
Arguments Vad.calculate_zcr : simpl never.
Arguments Vad.frame_is_speech : simpl never.

(** ** VAD: frames that are rejected *)

(** C10. A call of [vad_process] with a null frame pointer, or with a frame
    whose [valid] flag is false, returns [is_speech = false] and
    [energy = 0] and leaves the whole VAD state (machine state, noise floor,
    accumulators, pending segment, timestamps) as it was. *)
Theorem vad_process_unusable_frame (frame : option AudioFrame) (v : Vad.t) :
  unusable frame ->
  is_speech (fst (Vad.vad_process frame v)) = false /\
  energy (fst (Vad.vad_process frame v)) = F32.zero /\
  state (fst (Vad.vad_process frame v)) = Vad.current_state v /\
  snd (Vad.vad_process frame v) = v.
Proof.
  destruct frame as [f|]; cbn [unusable]; intros Hbad.
  - unfold Vad.vad_process. rewrite Hbad. cbn. repeat split; reflexivity.
  - cbn. repeat split; reflexivity.
Qed.

Lemma vad_process_unusable_frame_witness :
  (is_speech (fst (Vad.vad_process (Some Demo.stale) Demo.vad0)) = false /\
   energy (fst (Vad.vad_process (Some Demo.stale) Demo.vad0)) = F32.zero /\
   state (fst (Vad.vad_process (Some Demo.stale) Demo.vad0))
     = Vad.current_state Demo.vad0 /\
   snd (Vad.vad_process (Some Demo.stale) Demo.vad0) = Demo.vad0) /\
  (is_speech (fst (Vad.vad_process None Demo.vad0)) = false /\
   energy (fst (Vad.vad_process None Demo.vad0)) = F32.zero /\
   state (fst (Vad.vad_process None Demo.vad0)) = Vad.current_state Demo.vad0 /\
   snd (Vad.vad_process None Demo.vad0) = Demo.vad0).
Proof.
  split.
  - apply (vad_process_unusable_frame (Some Demo.stale) Demo.vad0). reflexivity.
  - apply (vad_process_unusable_frame None Demo.vad0). exact I.
Defined.

(** ** VAD: what a closing segment looks like *)

Lemma transition_to_ready (ns : VADState) (now : Z) (v : Vad.t) :
  Vad.segment_ready v = false ->
  Vad.segment_ready (Vad.transition_to ns now v) = true ->
  segment_law (Vad.pending_segment (Vad.transition_to ns now v)).
Proof.
  unfold Vad.transition_to, segment_law.
  destruct (Vad.current_state v) eqn:Hc, ns; cbn; intros Hr Hr';
    try congruence.
  all: destruct (u32 (now - start_ms (Vad.pending_segment v)) >=? VAD_MIN_SPEECH_MS)
         eqn:Hd; try congruence.
  all: split; [reflexivity | lia].
Qed.

Lemma step_machine_ready (speech : bool) (e : F32.t) (now : Z) (v : Vad.t) :
  Vad.segment_ready v = false ->
  Vad.segment_ready (Vad.step_machine speech e now v) = true ->
  segment_law (Vad.pending_segment (Vad.step_machine speech e now v)).
Proof.
  unfold Vad.step_machine. intros Hr.
  destruct (Vad.current_state v) eqn:Hc, speech; cbn [negb].
  - apply transition_to_ready; exact Hr.
  - congruence.
  - cbn. congruence.
  - apply transition_to_ready. exact Hr.
  - apply transition_to_ready; exact Hr.
  - destruct (u32 (now - Vad.state_start_time v) >? VAD_HANGOVER_MS).
    + apply transition_to_ready; exact Hr.
    + congruence.
Qed.

Lemma update_noise_floor_ready (e : F32.t) (v : Vad.t) :
  Vad.segment_ready (Vad.update_noise_floor e v) = Vad.segment_ready v.
Proof. unfold Vad.update_noise_floor. destruct (Vad.current_state v); reflexivity. Qed.

Lemma vad_process_ready (frame : option AudioFrame) (v : Vad.t) :
  Vad.segment_ready v = false ->
  Vad.segment_ready (snd (Vad.vad_process frame v)) = true ->
  segment_law (Vad.pending_segment (snd (Vad.vad_process frame v))).
Proof.
  unfold Vad.vad_process. intros Hr.
  destruct frame as [f|]; [|cbn; congruence].
  destruct (valid f); cbn [negb snd]; [|congruence].
  apply step_machine_ready.
  destruct (Vad.adaptive_enabled v); [|exact Hr].
  rewrite update_noise_floor_ready. exact Hr.
Qed.

Lemma drained_law (frames : list AudioFrame) :
  forall (v : Vad.t) (seg : SpeechSegment),
    Vad.segment_ready v = false ->
    In seg (fst (VadClient.calls (VadClient.drained frames) v)) ->
    segment_law seg.
Proof.
  induction frames as [|f frames IH]; intros v seg Hr Hin.
  - destruct Hin.
  - cbn [VadClient.drained flat_map app VadClient.calls] in Hin.
    fold (VadClient.drained frames) in Hin.
    pose proof (vad_process_ready (Some f) v Hr) as Hlaw.
    set (v1 := snd (Vad.vad_process (Some f) v)) in *.
    unfold Vad.vad_get_segment in Hin.
    destruct (Vad.segment_ready v1) eqn:Hr1; cbn [negb] in Hin.
    + match type of Hin with
      | context [VadClient.calls ?cs ?v'] =>
          specialize (IH v' seg eq_refl);
          destruct (VadClient.calls cs v') as [segs v''] eqn:Hc
      end.
      cbn [fst In] in *. destruct Hin as [<- | Hin]; [apply Hlaw; reflexivity|].
      apply IH. exact Hin.
    + apply (IH v1 seg Hr1 Hin).
Qed.

(** C8, amended. When the slot is drained after every frame (the calling
    pattern of [loop] and of the header), every segment [vad_get_segment]
    hands out has [duration_ms = end_ms - start_ms] (in [uint32_t]) and
    [duration_ms >= 100]; no shorter segment is handed out. *)
Theorem drained_segments_obey_law (frames : list AudioFrame) (v : Vad.t) :
  Vad.segment_ready v = false ->
  all_published segment_law (VadClient.drained frames) v.
Proof. intros Hr seg Hin. exact (drained_law frames v seg Hr Hin). Qed.

Lemma drained_segments_obey_law_witness :
  all_published segment_law (VadClient.drained Demo.interrupted) Demo.vad0.
Proof.
  apply (drained_segments_obey_law Demo.interrupted Demo.vad0). reflexivity.
Defined.

(** C8 as stated fails twice.  A client that does not drain the slot gets a
    segment whose [start_ms] already belongs to the next utterance, and one
    of 10 ms; and under any calling pattern a segment of exactly 100 ms is
    handed out, which does not "exceed" the minimum. *)
Lemma published_segment_counterexample :
  fst (VadClient.calls Demo.undrained_restart Demo.vad0)
    = [{| start_ms := 1160; end_ms := 1150; duration_ms := 150;
          avg_energy := F32.zero |}] /\
  ~ all_published segment_law Demo.undrained_restart Demo.vad0 /\
  fst (VadClient.calls Demo.undrained_short Demo.vad0)
    = [{| start_ms := 1160; end_ms := 1170; duration_ms := 10;
          avg_energy := F32.zero |}] /\
  ~ all_published segment_law Demo.undrained_short Demo.vad0 /\
  fst (VadClient.calls (VadClient.drained Demo.exactly_minimum) Demo.vad0)
    = [{| start_ms := 1000; end_ms := 1100; duration_ms := 100;
          avg_energy := F32.zero |}] /\
  ~ all_published segment_law_strict
      (VadClient.drained Demo.exactly_minimum) Demo.vad0.
Proof.
  assert (H1 : fst (VadClient.calls Demo.undrained_restart Demo.vad0)
    = [{| start_ms := 1160; end_ms := 1150; duration_ms := 150;
          avg_energy := F32.zero |}]) by (vm_compute; reflexivity).
  assert (H2 : fst (VadClient.calls Demo.undrained_short Demo.vad0)
    = [{| start_ms := 1160; end_ms := 1170; duration_ms := 10;
          avg_energy := F32.zero |}]) by (vm_compute; reflexivity).
  assert (H3 : fst (VadClient.calls (VadClient.drained Demo.exactly_minimum)
                                    Demo.vad0)
    = [{| start_ms := 1000; end_ms := 1100; duration_ms := 100;
          avg_energy := F32.zero |}]) by (vm_compute; reflexivity).
  repeat split; try assumption.
  - intros Hall. unfold all_published in Hall. rewrite H1 in Hall.
    destruct (Hall _ (or_introl eq_refl)) as [Hd _].
    vm_compute in Hd. discriminate Hd.
  - intros Hall. unfold all_published in Hall. rewrite H2 in Hall.
    destruct (Hall _ (or_introl eq_refl)) as [_ Hd].
    vm_compute in Hd. apply Hd. reflexivity.
  - intros Hall. unfold all_published in Hall. rewrite H3 in Hall.
    destruct (Hall _ (or_introl eq_refl)) as [_ Hd].
    vm_compute in Hd. discriminate Hd.
Qed.

(** ** VAD: the hangover *)

(** Leaving [VAD_STATE_SPEECH] for [VAD_STATE_HANGOVER] already runs the
    "speech just ended" branch of [transition_to]: whatever the later frames
    are, a segment of at least the minimum duration is ready as soon as the
    first non-speech frame arrives. *)
Lemma hangover_entry_closes (e : F32.t) (now : Z) (v : Vad.t) :
  Vad.current_state v = VAD_STATE_SPEECH ->
  VAD_MIN_SPEECH_MS <= u32 (now - start_ms (Vad.pending_segment v)) ->
  let v' := Vad.step_machine false e now v in
  Vad.current_state v' = VAD_STATE_HANGOVER /\
  Vad.segment_ready v' = true /\
  end_ms (Vad.pending_segment v') = now.
Proof.
  intros Hs Hd. unfold Vad.step_machine. rewrite Hs. cbn [negb].
  unfold Vad.transition_to. cbn. rewrite Hs. cbn.
  destruct (u32 (now - start_ms (Vad.pending_segment v)) >=? VAD_MIN_SPEECH_MS)
    eqn:Hge; [repeat split | lia].
Qed.

(** Resuming speech from the hangover starts a new segment at the resuming
    frame's timestamp. *)
Lemma hangover_resume_restarts (e : F32.t) (now : Z) (v : Vad.t) :
  Vad.current_state v = VAD_STATE_HANGOVER ->
  let v' := Vad.step_machine true e now v in
  Vad.current_state v' = VAD_STATE_SPEECH /\
  start_ms (Vad.pending_segment v') = now.
Proof.
  intros Hs. unfold Vad.step_machine. rewrite Hs.
  unfold Vad.transition_to. rewrite Hs. cbn. split; reflexivity.
Qed.

(** C1, the code at the failing input.  Six loud frames from 1000 ms, one
    silent frame at 1180 ms, loud frames again from 1210 ms (a 30 ms
    interruption), silence from 1400 ms: the detector hands out two segments,
    the first one at the very frame that enters the hangover, and none that
    spans the interruption. *)
Theorem interruption_splits_segment :
  fst (VadClient.calls (VadClient.drained Demo.interrupted) Demo.vad0)
    = [{| start_ms := 1000; end_ms := 1180; duration_ms := 180;
          avg_energy := S754_finite false 13653333 (-26) |};
       {| start_ms := 1210; end_ms := 1400; duration_ms := 190;
          avg_energy := S754_finite false 13653333 (-26) |}] /\
  (let v := snd (VadClient.calls
                   (map (fun f => VadClient.Process (Some f))
                        (take 7 Demo.interrupted)) Demo.vad0) in
   Vad.current_state v = VAD_STATE_HANGOVER /\
   Vad.segment_ready v = true /\
   Vad.pending_segment v
     = {| start_ms := 1000; end_ms := 1180; duration_ms := 180;
          avg_energy := S754_finite false 13653333 (-26) |}).
Proof. split; [|repeat split]; vm_compute; reflexivity. Qed.

(** ** Turn detector: a closed segment *)

Lemma send_event_trace (ty : BLEEventType) (x : F32.t) (now : Z)
      (s : Main.system) :
  Main.trace (Main.send_event ty x now s)
    = Main.trace s
      ++ [OutEvent (Main.mk_event ty x
                      (Main.get_session_timestamp now (Main.core s)))
                   (Main.device_connected s)].
Proof. unfold Main.send_event. destruct (Main.device_connected s); reflexivity. Qed.

Lemma send_event_turn (ty : BLEEventType) (x : F32.t) (now : Z)
      (s : Main.system) :
  Main.waiting_for_response (Main.core (Main.send_event ty x now s))
    = Main.waiting_for_response (Main.core s) /\
  Main.child_speech_time (Main.core (Main.send_event ty x now s))
    = Main.child_speech_time (Main.core s) /\
  Main.session_active (Main.core (Main.send_event ty x now s))
    = Main.session_active (Main.core s) /\
  Main.vad (Main.send_event ty x now s) = Main.vad s /\
  Main.audio (Main.send_event ty x now s) = Main.audio s /\
  Main.device_connected (Main.send_event ty x now s) = Main.device_connected s.
Proof.
  unfold Main.send_event. destruct (Main.device_connected s) eqn:E;
    cbn; rewrite ?E; repeat split; reflexivity.
Qed.

(** C4. For a closed segment handed to [process_speech_segment]: a Child
    segment emits Serve, records the segment's end time and sets the
    waiting-for-response flag; an Adult segment that finds the flag set
    clears it, and emits Return with latency
    [start_ms - child_speech_time] exactly when that latency is at most
    3000 ms; and [loop] hands every segment the VAD publishes to this
    function. *)
Theorem process_speech_segment_rules (seg : SpeechSegment) (now : Z)
        (s : Main.system) :
  let s' := Main.process_speech_segment seg now s in
  let latency := u32 (start_ms seg - Main.child_speech_time (Main.core s)) in
  (Main.is_child seg = true ->
     Main.trace s' = Main.trace s ++ [serve_event now s] /\
     Main.child_speech_time (Main.core s') = end_ms seg /\
     Main.waiting_for_response (Main.core s') = true) /\
  (Main.is_child seg = false ->
   Main.waiting_for_response (Main.core s) = true ->
     Main.waiting_for_response (Main.core s') = false /\
     (latency <= Main.RESPONSE_THRESHOLD_MS ->
        Main.trace s' = Main.trace s
                        ++ [return_event latency now s;
                            OutFeedback FEEDBACK_GOOD_TURN Main.c_0_3]) /\
     (Main.RESPONSE_THRESHOLD_MS < latency -> Main.trace s' = Main.trace s)) /\
  (Main.is_child seg = false ->
   Main.waiting_for_response (Main.core s) = false -> s' = s) /\
  (forall (tk : Main.tick) (frame : option AudioFrame) (v2 : Vad.t),
     Vad.vad_get_segment (Some Main.stack_segment)
       (snd (Vad.vad_process frame (Main.vad s))) = (true, Some seg, v2) ->
     let s1 := Main.process_speech_segment seg (Main.t_segment tk)
                 (Main.with_vad v2 s) in
     Main.trace (Main.process_frame tk frame s) = Main.trace s1 /\
     Main.waiting_for_response (Main.core (Main.process_frame tk frame s))
       = Main.waiting_for_response (Main.core s1) /\
     Main.child_speech_time (Main.core (Main.process_frame tk frame s))
       = Main.child_speech_time (Main.core s1)).
Proof.
  cbv zeta. unfold Main.process_speech_segment.
  split; [|split; [|split]].
  - intros Hc. rewrite Hc. cbn. rewrite send_event_trace.
    repeat split; reflexivity.
  - intros Hc Hw. rewrite Hc, Hw.
    destruct (u32 (start_ms seg - Main.child_speech_time (Main.core s))
              <=? Main.RESPONSE_THRESHOLD_MS) eqn:Hl.
    + split; [reflexivity|]. split; [|lia]. intros _.
      cbn. rewrite send_event_trace. rewrite <- app_assoc. reflexivity.
    + split; [reflexivity|]. split; [lia|]. intros _. reflexivity.
  - intros Hc Hw. rewrite Hc, Hw. reflexivity.
  - intros tk frame v2 Hget. unfold Main.process_frame.
    destruct (Vad.vad_process frame (Main.vad s)) as [r v1]. cbn [snd] in Hget.
    rewrite Hget. cbn. repeat split; reflexivity.
Qed.

Lemma process_speech_segment_rules_witness :
  (Main.trace (Main.process_speech_segment Demo.child_segment 2610 Demo.listening)
     = Main.trace Demo.listening ++ [serve_event 2610 Demo.listening] /\
   Main.child_speech_time
     (Main.core (Main.process_speech_segment Demo.child_segment 2610
                   Demo.listening)) = 2600 /\
   Main.waiting_for_response
     (Main.core (Main.process_speech_segment Demo.child_segment 2610
                   Demo.listening)) = true) /\
  (Main.waiting_for_response
     (Main.core (Main.process_speech_segment Demo.adult_segment 3910
                   Demo.served)) = false /\
   Main.trace (Main.process_speech_segment Demo.adult_segment 3910 Demo.served)
     = Main.trace Demo.served
       ++ [return_event 500 3910 Demo.served;
           OutFeedback FEEDBACK_GOOD_TURN Main.c_0_3]) /\
  (Main.waiting_for_response
     (Main.core (Main.process_speech_segment Demo.late_adult_segment 6010
                   Demo.served)) = false /\
   Main.trace (Main.process_speech_segment Demo.late_adult_segment 6010
                 Demo.served) = Main.trace Demo.served) /\
  Main.process_speech_segment Demo.adult_segment 3910 Demo.listening
    = Demo.listening /\
  Main.trace (Main.process_frame (Demo.tick_at 1181 [])
                (Some (Demo.silent 1180)) Demo.quiet_speaking)
    = Main.trace Demo.quiet_speaking ++ [serve_event 1181 Demo.quiet_speaking] /\
  Main.trace (Main.process_frame (Demo.tick_at 3181 [])
                (Some (Demo.silent 3180)) Demo.answering)
    = Main.trace Demo.answering
      ++ [return_event 400 3181 Demo.answering;
          OutFeedback FEEDBACK_GOOD_TURN Main.c_0_3].
Proof.
  split; [|split; [|split; [|split; [|split]]]].
  - apply (process_speech_segment_rules Demo.child_segment 2610 Demo.listening).
    vm_compute; reflexivity.
  - destruct (process_speech_segment_rules Demo.adult_segment 3910 Demo.served)
      as (_ & H & _).
    destruct H as (Hw & Hin & _); [vm_compute; reflexivity ..|].
    split; [exact Hw|]. apply Hin. vm_compute. discriminate.
  - destruct (process_speech_segment_rules Demo.late_adult_segment 6010
                Demo.served) as (_ & H & _).
    destruct H as (Hw & _ & Hout); [vm_compute; reflexivity ..|].
    split; [exact Hw|]. apply Hout. vm_compute. reflexivity.
  - apply (process_speech_segment_rules Demo.adult_segment 3910 Demo.listening);
      vm_compute; reflexivity.
  - set (seg := {| start_ms := 1000; end_ms := 1180; duration_ms := 180;
                   avg_energy := S754_finite false 11182080 (-28) |}).
    set (v2 := snd (Vad.vad_get_segment (Some Main.stack_segment)
                      (snd (Vad.vad_process (Some (Demo.silent 1180))
                              (Main.vad Demo.quiet_speaking))))).
    destruct (process_speech_segment_rules seg 1181 Demo.quiet_speaking)
      as (_ & _ & _ & H).
    destruct (H (Demo.tick_at 1181 []) (Some (Demo.silent 1180)) v2)
      as (Ht & _); [vm_compute; reflexivity|].
    rewrite Ht.
    destruct (process_speech_segment_rules seg 1181
                (Main.with_vad v2 Demo.quiet_speaking)) as (Hserve & _).
    destruct Hserve as (Hs & _); [vm_compute; reflexivity|].
    cbn [Demo.tick_at Main.t_segment]. rewrite Hs. vm_compute. reflexivity.
  - set (seg := {| start_ms := 3000; end_ms := 3180; duration_ms := 180;
                   avg_energy := S754_finite false 13653333 (-26) |}).
    set (v2 := snd (Vad.vad_get_segment (Some Main.stack_segment)
                      (snd (Vad.vad_process (Some (Demo.silent 3180))
                              (Main.vad Demo.answering))))).
    destruct (process_speech_segment_rules seg 3181 Demo.answering)
      as (_ & _ & _ & H).
    destruct (H (Demo.tick_at 3181 []) (Some (Demo.silent 3180)) v2)
      as (Ht & _); [vm_compute; reflexivity|].
    rewrite Ht.
    destruct (process_speech_segment_rules seg 3181
                (Main.with_vad v2 Demo.answering)) as (_ & Hret & _).
    destruct Hret as (_ & Hin & _); [vm_compute; reflexivity ..|].
    cbn [Demo.tick_at Main.t_segment]. rewrite Hin.
    + vm_compute. reflexivity.
    + vm_compute. discriminate.
Defined.

(** ** Turn detector: the missed opportunity *)

Lemma missed_needs_serve_refl (s : Main.system) : missed_needs_serve s s.
Proof. exists []. rewrite app_nil_r. split; [reflexivity|]. intros Hw _. split; [reflexivity|exact Hw]. Qed.

Lemma missed_needs_serve_trans (s1 s2 s3 : Main.system) :
  missed_needs_serve s1 s2 -> missed_needs_serve s2 s3 ->
  missed_needs_serve s1 s3.
Proof.
  intros (n1 & Ht1 & H1) (n2 & Ht2 & H2). exists (n1 ++ n2). split.
  - rewrite Ht2, Ht1, app_assoc. reflexivity.
  - intros Hw Hs. rewrite existsb_app in Hs.
    apply orb_false_iff in Hs as [Hs1 Hs2].
    destruct (H1 Hw Hs1) as [Hm1 Hw2]. destruct (H2 Hw2 Hs2) as [Hm2 Hw3].
    split; [|exact Hw3]. rewrite existsb_app, Hm1, Hm2. reflexivity.
Qed.

(** A step that emits no MissedOpportunity and does not raise the flag
    without a Serve. *)
Lemma missed_needs_serve_intro (s s' : Main.system) (new : list output) :
  Main.trace s' = Main.trace s ++ new ->
  existsb is_missed new = false ->
  (Main.waiting_for_response (Main.core s) = false ->
   existsb is_serve new = false ->
   Main.waiting_for_response (Main.core s') = false) ->
  missed_needs_serve s s'.
Proof. intros Ht Hm Hw. exists new. split; [exact Ht|]. intros H1 H2. split; [exact Hm|auto]. Qed.

Lemma process_speech_segment_serve (seg : SpeechSegment) (now : Z)
      (s : Main.system) :
  missed_needs_serve s (Main.process_speech_segment seg now s).
Proof.
  unfold Main.process_speech_segment.
  destruct (Main.is_child seg).
  - apply missed_needs_serve_intro with (new := [serve_event now s]).
    + cbn. apply send_event_trace.
    + reflexivity.
    + cbn. discriminate.
  - destruct (Main.waiting_for_response (Main.core s)) eqn:Hw;
      [|apply missed_needs_serve_refl].
    destruct (_ <=? _).
    + eapply missed_needs_serve_intro with (new := [_; _]).
      * cbn. rewrite send_event_trace, <- app_assoc. reflexivity.
      * reflexivity.
      * reflexivity.
    + apply missed_needs_serve_intro with (new := []).
      * cbn. rewrite app_nil_r. reflexivity.
      * reflexivity.
      * reflexivity.
Qed.

Lemma check_missed_opportunity_serve (t1 t2 : Z) (s : Main.system) :
  missed_needs_serve s (Main.check_missed_opportunity t1 t2 s).
Proof.
  unfold Main.check_missed_opportunity.
  destruct (Main.waiting_for_response (Main.core s)) eqn:Hw; cbn [negb];
    [|apply missed_needs_serve_refl].
  destruct (_ >=? _); [|apply missed_needs_serve_refl].
  eexists [_; _]. split.
  - cbn. rewrite send_event_trace, <- app_assoc. reflexivity.
  - congruence.
Qed.

Lemma on_session_control_serve (start : bool) (t1 t2 : Z) (s : Main.system) :
  missed_needs_serve s (Main.on_session_control start t1 t2 s).
Proof.
  unfold Main.on_session_control.
  destruct (start && negb (Main.session_active (Main.core s))).
  - eapply missed_needs_serve_intro with (new := [_]); reflexivity.
  - destruct (negb start && Main.session_active (Main.core s));
      [|apply missed_needs_serve_refl].
    eapply missed_needs_serve_intro with (new := [_]);
      [reflexivity | reflexivity |]. cbn. auto.
Qed.

Lemma ble_process_serve (s : Main.system) :
  missed_needs_serve s (Main.ble_process s).
Proof.
  unfold Main.ble_process.
  destruct (Bool.eqb _ _); [apply missed_needs_serve_refl|].
  unfold Main.on_ble_connection.
  destruct (Main.device_connected s).
  - eapply missed_needs_serve_intro with (new := [_]);
      [reflexivity | reflexivity | cbn; auto].
  - cbn [Main.feedback_trigger Main.emit Main.core].
    destruct (Main.session_active (Main.core s)) eqn:Ha.
    + unfold Main.on_session_control. cbn. rewrite Ha. cbn.
      eapply missed_needs_serve_intro with (new := [_; _]).
      * cbn. rewrite <- app_assoc. reflexivity.
      * reflexivity.
      * cbn. auto.
    + eapply missed_needs_serve_intro with (new := [_]);
        [reflexivity | reflexivity | cbn; auto].
Qed.

Lemma process_frame_serve (tk : Main.tick) (frame : option AudioFrame)
      (s : Main.system) :
  missed_needs_serve s (Main.process_frame tk frame s).
Proof.
  unfold Main.process_frame.
  destruct (Vad.vad_process frame (Main.vad s)) as [r v1].
  destruct (Vad.vad_get_segment (Some Main.stack_segment) v1) as [[got seg] v2].
  set (s1 := Main.with_vad v2 s).
  assert (H1 : missed_needs_serve s s1)
    by (apply missed_needs_serve_intro with (new := []);
        [cbn; rewrite app_nil_r; reflexivity | reflexivity | cbn; auto]).
  set (s2 := match got, seg with
             | true, Some seg0 =>
                 Main.process_speech_segment seg0 (Main.t_segment tk) s1
             | _, _ => s1
             end).
  assert (H2 : missed_needs_serve s1 s2).
  { subst s2. destruct got; [|apply missed_needs_serve_refl].
    destruct seg; [|apply missed_needs_serve_refl].
    apply process_speech_segment_serve. }
  eapply missed_needs_serve_trans; [exact H1|].
  eapply missed_needs_serve_trans; [exact H2|].
  apply missed_needs_serve_intro with (new := []);
    [cbn; rewrite app_nil_r; reflexivity | reflexivity | cbn; auto].
Qed.

Lemma session_tick_serve (tk : Main.tick) (s : Main.system) :
  missed_needs_serve s (Main.session_tick tk s).
Proof.
  unfold Main.session_tick.
  destruct (Audio.audio_get_frame _ _ _) as [[got frame] a1].
  set (s1 := Main.with_audio a1 s).
  assert (H1 : missed_needs_serve s s1)
    by (apply missed_needs_serve_intro with (new := []);
        [cbn; rewrite app_nil_r; reflexivity | reflexivity | cbn; auto]).
  eapply missed_needs_serve_trans; [exact H1|].
  eapply missed_needs_serve_trans; [|apply check_missed_opportunity_serve].
  destruct got; [apply process_frame_serve | apply missed_needs_serve_refl].
Qed.

Lemma status_update_serve (now : Z) (s : Main.system) :
  missed_needs_serve s (Main.status_update now s).
Proof.
  unfold Main.status_update.
  destruct (_ >? _); [|apply missed_needs_serve_refl].
  unfold Main.estimate_battery.
  destruct (_ && _); cbn;
    (eapply missed_needs_serve_intro with (new := [_]);
     [reflexivity | reflexivity | cbn; auto]).
Qed.

Lemma debug_output_serve (now : Z) (s : Main.system) :
  missed_needs_serve s (Main.debug_output now s).
Proof.
  unfold Main.debug_output.
  destruct (_ >? _); [|apply missed_needs_serve_refl].
  apply missed_needs_serve_intro with (new := []);
    [cbn; rewrite app_nil_r; reflexivity | reflexivity | cbn; auto].
Qed.

Lemma loop_serve (tk : Main.tick) (s : Main.system) :
  missed_needs_serve s (Main.loop tk s).
Proof.
  unfold Main.loop.
  eapply missed_needs_serve_trans; [|apply debug_output_serve].
  eapply missed_needs_serve_trans; [|apply status_update_serve].
  eapply missed_needs_serve_trans; [apply ble_process_serve|].
  set (s1 := Main.ble_process s).
  set (s2 := Main.with_audio _ s1).
  assert (H2 : missed_needs_serve s1 s2)
    by (apply missed_needs_serve_intro with (new := []);
        [cbn; rewrite app_nil_r; reflexivity | reflexivity | cbn; auto]).
  eapply missed_needs_serve_trans; [exact H2|].
  destruct (Main.session_active (Main.core s2));
    [apply session_tick_serve | apply missed_needs_serve_refl].
Qed.

Lemma step_serve (s : Main.system) (i : Main.input) :
  missed_needs_serve s (Main.step s i).
Proof.
  destruct i; cbn [Main.step].
  - apply missed_needs_serve_intro with (new := []);
      [cbn; rewrite app_nil_r; reflexivity | reflexivity | cbn; auto].
  - apply missed_needs_serve_intro with (new := []);
      [cbn; rewrite app_nil_r; reflexivity | reflexivity | cbn; auto].
  - apply on_session_control_serve.
  - apply loop_serve.
Qed.

Lemma run_serve (ins : list Main.input) :
  forall s : Main.system, missed_needs_serve s (Main.run s ins).
Proof.
  induction ins as [|i ins IH]; intros s.
  - apply missed_needs_serve_refl.
  - cbn [Main.run fold_left]. eapply missed_needs_serve_trans;
      [apply step_serve | apply IH].
Qed.

Lemma status_update_turn (now : Z) (s : Main.system) :
  exists rest : list output,
    Main.trace (Main.status_update now s) = Main.trace s ++ rest /\
    Main.waiting_for_response (Main.core (Main.status_update now s))
      = Main.waiting_for_response (Main.core s).
Proof.
  unfold Main.status_update. destruct (_ >? _).
  - unfold Main.estimate_battery. destruct (_ && _); cbn; eexists [_]; split; reflexivity.
  - exists []. rewrite app_nil_r. split; reflexivity.
Qed.

Lemma debug_output_turn (now : Z) (s : Main.system) :
  Main.trace (Main.debug_output now s) = Main.trace s /\
  Main.waiting_for_response (Main.core (Main.debug_output now s))
    = Main.waiting_for_response (Main.core s).
Proof. unfold Main.debug_output. destruct (_ >? _); split; reflexivity. Qed.

(** C5. With the waiting-for-response flag set and a measured silence
    ([vad_silence_duration]) of at least 5000 ms, [check_missed_opportunity]
    emits one MissedOpportunity carrying that silence and clears the flag;
    after that no input sequence produces another MissedOpportunity unless
    a Serve is emitted first; below the threshold, or with the flag down,
    nothing happens.  Every pass of [loop] in an active session ends its
    session part with this check, and it fires in a pass in which no frame
    is available at all. *)
Theorem missed_opportunity_rule (tk : Main.tick) (s : Main.system) :
  let silence := Vad.vad_silence_duration (Main.t_silence tk) (Main.vad s) in
  let s' := Main.check_missed_opportunity
              (Main.t_silence tk) (Main.t_missed tk) s in
  let fired := [missed_event silence (Main.t_missed tk) s;
                OutFeedback FEEDBACK_MISSED_OPP Main.c_0_7] in
  (Main.waiting_for_response (Main.core s) = true ->
   Main.MISSED_OPP_THRESHOLD_MS <= silence ->
     Main.trace s' = Main.trace s ++ fired /\
     Main.waiting_for_response (Main.core s') = false /\
     forall ins : list Main.input,
     exists new : list output,
       Main.trace (Main.run s' ins) = Main.trace s' ++ new /\
       (existsb is_serve new = false -> existsb is_missed new = false)) /\
  (Main.waiting_for_response (Main.core s) = false \/
   silence < Main.MISSED_OPP_THRESHOLD_MS -> s' = s) /\
  (Main.session_active (Main.core (Main.ble_process s)) = true ->
   exists pre : Main.system,
     Main.loop tk s
       = Main.debug_output (Main.t_loop tk)
           (Main.status_update (Main.t_loop tk)
              (Main.check_missed_opportunity
                 (Main.t_silence tk) (Main.t_missed tk) pre))) /\
  (Main.session_active (Main.core s) = true ->
   Main.device_connected s = Main.old_device_connected s ->
   Audio.audio_frames_available
     (Audio.audio_process (Main.t_i2s tk) (Main.audio s))
     < AUDIO_FRAME_SAMPLES ->
   Main.waiting_for_response (Main.core s) = true ->
   Main.MISSED_OPP_THRESHOLD_MS <= silence ->
   exists rest : list output,
     Main.trace (Main.loop tk s) = Main.trace s ++ fired ++ rest /\
     Main.waiting_for_response (Main.core (Main.loop tk s)) = false).
Proof.
  cbv zeta.
  assert (Hfire :
    Main.waiting_for_response (Main.core s) = true ->
    Main.MISSED_OPP_THRESHOLD_MS
      <= Vad.vad_silence_duration (Main.t_silence tk) (Main.vad s) ->
    forall a : Audio.t,
    let s0 := Main.with_audio a s in
    let s' := Main.check_missed_opportunity
                (Main.t_silence tk) (Main.t_missed tk) s0 in
    Main.trace s'
      = Main.trace s
        ++ [missed_event
              (Vad.vad_silence_duration (Main.t_silence tk) (Main.vad s))
              (Main.t_missed tk) s;
            OutFeedback FEEDBACK_MISSED_OPP Main.c_0_7] /\
    Main.waiting_for_response (Main.core s') = false).
  { intros Hw Hs a. cbv zeta. unfold Main.check_missed_opportunity.
    cbn [Main.with_audio Main.core Main.vad]. rewrite Hw. cbn [negb].
    destruct (_ >=? _) eqn:Hge; [|lia].
    cbn. rewrite send_event_trace, <- app_assoc. split; reflexivity. }
  assert (Hid : Main.with_audio (Main.audio s) s = s) by (destruct s; reflexivity).
  split; [|split; [|split]].
  - intros Hw Hs. destruct (Hfire Hw Hs (Main.audio s)) as [Ht Hw'].
    cbv zeta in Ht, Hw'. rewrite Hid in Ht, Hw'.
    split; [exact Ht|]. split; [exact Hw'|].
    intros ins. destruct (run_serve ins
      (Main.check_missed_opportunity (Main.t_silence tk) (Main.t_missed tk) s))
      as (new & Hnew & Hprop).
    exists new. split; [exact Hnew|]. intros Hno.
    apply (Hprop Hw' Hno).
  - unfold Main.check_missed_opportunity. intros [Hw | Hs].
    + rewrite Hw. reflexivity.
    + destruct (Main.waiting_for_response (Main.core s)); [|reflexivity].
      cbn [negb]. destruct (_ >=? _) eqn:Hge; [lia|reflexivity].
  - intros Ha. unfold Main.loop.
    cbn [Main.with_audio Main.core]. rewrite Ha.
    unfold Main.session_tick.
    destruct (Audio.audio_get_frame _ _ _) as [[got frame] a1].
    eexists. reflexivity.
  - intros Ha Hconn Hav Hw Hs.
    unfold Main.loop, Main.ble_process. rewrite Hconn, Bool.eqb_reflx.
    cbn [Main.with_audio Main.core]. rewrite Ha.
    unfold Main.session_tick, Audio.audio_get_frame.
    cbn [Main.audio Main.with_audio].
    destruct (_ <? AUDIO_FRAME_SAMPLES) eqn:Hlt; [|lia].
    match goal with
    | |- context [Main.check_missed_opportunity _ _ ?s0] =>
        change s0 with
          (Main.with_audio (Audio.audio_process (Main.t_i2s tk) (Main.audio s)) s)
    end.
    destruct (Hfire Hw Hs (Audio.audio_process (Main.t_i2s tk) (Main.audio s)))
      as [Ht Hw'].
    cbv zeta in Ht, Hw'.
    set (s3 := Main.check_missed_opportunity _ _ _) in *.
    destruct (status_update_turn (Main.t_loop tk) s3) as (rest & Hr & Hwr).
    destruct (debug_output_turn (Main.t_loop tk)
                (Main.status_update (Main.t_loop tk) s3)) as (Hd & Hwd).
    exists rest. split.
    + rewrite Hd, Hr, Ht, <- app_assoc. reflexivity.
    + rewrite Hwd, Hwr. exact Hw'.
Qed.

Lemma missed_opportunity_rule_witness :
  Vad.vad_silence_duration 6400 (Main.vad Demo.waiting) = 5000 /\
  (Main.trace (Main.check_missed_opportunity 6400 6400 Demo.waiting)
     = Main.trace Demo.waiting
       ++ [missed_event
             (Vad.vad_silence_duration 6400 (Main.vad Demo.waiting))
             6400 Demo.waiting;
           OutFeedback FEEDBACK_MISSED_OPP Main.c_0_7] /\
   Main.waiting_for_response
     (Main.core (Main.check_missed_opportunity 6400 6400 Demo.waiting))
     = false) /\
  Main.check_missed_opportunity 6399 6399 Demo.waiting = Demo.waiting /\
  (exists rest : list output,
     Main.trace (Main.loop (Demo.tick_at 6400 []) Demo.waiting)
       = Main.trace Demo.waiting
         ++ [missed_event
               (Vad.vad_silence_duration 6400 (Main.vad Demo.waiting))
               6400 Demo.waiting;
             OutFeedback FEEDBACK_MISSED_OPP Main.c_0_7] ++ rest /\
     Main.waiting_for_response
       (Main.core (Main.loop (Demo.tick_at 6400 []) Demo.waiting)) = false).
Proof.
  split; [vm_compute; reflexivity|].
  split; [|split].
  - destruct (missed_opportunity_rule (Demo.tick_at 6400 []) Demo.waiting)
      as (H & _).
    destruct H as (Ht & Hw & _);
      [vm_compute; reflexivity | vm_compute; discriminate |].
    split; [exact Ht | exact Hw].
  - destruct (missed_opportunity_rule (Demo.tick_at 6399 []) Demo.waiting)
      as (_ & H & _).
    apply H. right. vm_compute. reflexivity.
  - destruct (missed_opportunity_rule (Demo.tick_at 6400 []) Demo.waiting)
      as (_ & _ & _ & H).
    apply H.
    + vm_compute; reflexivity.
    + vm_compute; reflexivity.
    + vm_compute; reflexivity.
    + vm_compute; reflexivity.
    + vm_compute; discriminate.
Defined.

(** ** Session start *)

Lemma ble_process_inactive (s : Main.system) :
  Main.session_active (Main.core s) = false ->
  Main.vad (Main.ble_process s) = Main.vad s /\
  Main.core (Main.ble_process s) = Main.core s.
Proof.
  intros Ha. unfold Main.ble_process.
  destruct (Bool.eqb _ _); [split; reflexivity|].
  unfold Main.on_ble_connection. destruct (Main.device_connected s); cbn.
  - split; reflexivity.
  - rewrite Ha. split; reflexivity.
Qed.

Lemma loop_inactive (tk : Main.tick) (s : Main.system) :
  Main.session_active (Main.core s) = false ->
  Main.vad (Main.loop tk s) = Main.vad s /\
  Main.session_active (Main.core (Main.loop tk s)) = false /\
  Main.waiting_for_response (Main.core (Main.loop tk s))
    = Main.waiting_for_response (Main.core s) /\
  filter is_event (Main.trace (Main.loop tk s))
    = filter is_event (Main.trace s).
Proof.
  intros Ha. destruct (ble_process_inactive s Ha) as [Hv Hc].
  assert (Ht : filter is_event (Main.trace (Main.ble_process s))
               = filter is_event (Main.trace s)).
  { unfold Main.ble_process. destruct (Bool.eqb _ _); [reflexivity|].
    unfold Main.on_ble_connection. destruct (Main.device_connected s); cbn.
    - rewrite filter_app. cbn. apply app_nil_r.
    - rewrite Ha. cbn. rewrite filter_app. cbn. apply app_nil_r. }
  unfold Main.loop. cbn [Main.with_audio Main.core]. rewrite Hc, Ha.
  set (s2 := Main.with_audio _ _).
  assert (H2 : Main.vad s2 = Main.vad s /\ Main.core s2 = Main.core s /\
               Main.trace s2 = Main.trace (Main.ble_process s))
    by (subst s2; cbn; auto).
  destruct H2 as (H2v & H2c & H2t). clearbody s2.
  unfold Main.debug_output, Main.status_update, Main.estimate_battery.
  rewrite H2c, Ha. cbn [andb].
  destruct (u32 (Main.t_loop tk - Main.last_status_update (Main.core s))
            >? Main.STATUS_UPDATE_INTERVAL_MS); cbn.
  - destruct (_ >? _); cbn; rewrite ?H2c, ?H2t, ?filter_app, ?Ht; cbn;
      rewrite ?app_nil_r; auto.
  - rewrite H2c. destruct (_ >? _); cbn; rewrite ?H2c, ?H2t, ?Ht; auto.
Qed.

(** C3, amended. A start command that arrives while no session is active
    (audio initialised, as [setup] guarantees) resets, within the call
    itself, the VAD state machine, its timestamps, its segment accumulators
    and its ready flag, and the TurnDetector's waiting-for-response and
    speaking flags; it marks the session active and starts capture.  It
    does not reset the rest: in every such state the adaptive noise floor,
    the threshold, the pending segment, the child speech time, the ring
    buffer, its two cursors and hence the number of unread samples are
    after the call what they were before it, and [audio_get_frame] then
    delivers the frame it would have delivered before the call.  While no
    session is active [loop] leaves the VAD alone and emits no event. *)
Theorem session_start_resets (s : Main.system) (t_session t_reset : Z) :
  Main.session_active (Main.core s) = false ->
  Audio.is_initialized (Main.audio s) = true ->
  let s' := Main.on_session_control true t_session t_reset s in
  vad_reset_values t_reset (Main.vad s') /\
  turn_reset_values (Main.core s') /\
  Main.session_active (Main.core s') = true /\
  Main.session_start_time (Main.core s') = t_session /\
  Main.session_event_count (Main.core s') = 0 /\
  Audio.is_running (Main.audio s') = true /\
  (forall tk : Main.tick,
     Main.vad (Main.loop tk s) = Main.vad s /\
     filter is_event (Main.trace (Main.loop tk s))
       = filter is_event (Main.trace s)) /\
  Vad.noise_floor (Main.vad s') = Vad.noise_floor (Main.vad s) /\
  Vad.energy_threshold (Main.vad s') = Vad.energy_threshold (Main.vad s) /\
  Vad.adaptive_enabled (Main.vad s') = Vad.adaptive_enabled (Main.vad s) /\
  Vad.pending_segment (Main.vad s') = Vad.pending_segment (Main.vad s) /\
  Main.child_speech_time (Main.core s')
    = Main.child_speech_time (Main.core s) /\
  Audio.audio_buffer (Main.audio s') = Audio.audio_buffer (Main.audio s) /\
  Audio.write_index (Main.audio s') = Audio.write_index (Main.audio s) /\
  Audio.read_index (Main.audio s') = Audio.read_index (Main.audio s) /\
  Audio.audio_frames_available (Main.audio s')
    = Audio.audio_frames_available (Main.audio s) /\
  (forall (now : Z) (frame : option AudioFrame),
     fst (Audio.audio_get_frame now frame (Main.audio s'))
     = fst (Audio.audio_get_frame now frame (Main.audio s))).
Proof.
  intros Ha Hi. cbv zeta. unfold Main.on_session_control. rewrite Ha. cbn.
  assert (Hkeep :
    Audio.audio_buffer (Audio.audio_start (Main.audio s))
      = Audio.audio_buffer (Main.audio s) /\
    Audio.write_index (Audio.audio_start (Main.audio s))
      = Audio.write_index (Main.audio s) /\
    Audio.read_index (Audio.audio_start (Main.audio s))
      = Audio.read_index (Main.audio s)).
  { unfold Audio.audio_start.
    destruct (negb _ || _); cbn; repeat split; reflexivity. }
  destruct Hkeep as (Hb & Hwi & Hri).
  assert (Hav : Audio.audio_frames_available
                  (Audio.audio_start (Main.audio s))
                = Audio.audio_frames_available (Main.audio s)).
  { unfold Audio.audio_frames_available. rewrite Hwi, Hri. reflexivity. }
  unfold vad_reset_values, turn_reset_values. cbn.
  do 2 (split; [repeat split|]).
  do 3 (split; [reflexivity|]).
  split.
  { unfold Audio.audio_start. rewrite Hi. cbn.
    destruct (Audio.is_running (Main.audio s)) eqn:Hr; [exact Hr|reflexivity]. }
  split; [intros tk; split; apply (loop_inactive tk s Ha)|].
  do 5 (split; [reflexivity|]).
  do 4 (split; [assumption|]).
  intros now [f|]; [|reflexivity].
  unfold Audio.audio_get_frame. rewrite Hav, Hb, Hri.
  destruct (_ <? _); reflexivity.
Qed.

Lemma session_start_resets_witness :
  vad_reset_values 9001
    (Main.vad (Main.on_session_control true 9000 9001 Demo.stopped)) /\
  turn_reset_values
    (Main.core (Main.on_session_control true 9000 9001 Demo.stopped)) /\
  Audio.is_running
    (Main.audio (Main.on_session_control true 9000 9001 Demo.stopped)) = true /\
  Vad.noise_floor
    (Main.vad (Main.on_session_control true 9000 9001 Demo.stopped))
    = Vad.noise_floor (Main.vad Demo.stopped) /\
  Vad.pending_segment
    (Main.vad (Main.on_session_control true 9000 9001 Demo.stopped))
    = Vad.pending_segment (Main.vad Demo.stopped) /\
  Main.child_speech_time
    (Main.core (Main.on_session_control true 9000 9001 Demo.stopped))
    = Main.child_speech_time (Main.core Demo.stopped) /\
  Audio.audio_frames_available
    (Main.audio (Main.on_session_control true 9000 9001 Demo.stopped))
    = Audio.audio_frames_available (Main.audio Demo.stopped).
Proof.
  destruct (session_start_resets Demo.stopped 9000 9001)
    as (Hv & Ht & _ & _ & _ & Hr & _ & Hn & _ & _ & Hp & Hc & _ & _ & _
        & Hav & _).
  - vm_compute; reflexivity.
  - vm_compute; reflexivity.
  - exact (conj Hv (conj Ht (conj Hr (conj Hn (conj Hp (conj Hc Hav)))))).
Defined.


(** Splitting an equation between pairs without unfolding its sides. *)
Lemma pair_eq_parts {A B : Type} (a c : A) (b d : B) :
  (a, b) = (c, d) -> a = c /\ b = d.
Proof. intros H. inversion H. split; reflexivity. Qed.

(** C3 as stated fails.  After a first session has been stopped, a start
    command leaves the adaptive noise floor, the pending segment and the
    child speech time as that session left them, and the samples it left
    unread in the ring buffer are framed and classified in the new session:
    with a mute microphone the new session still emits a Serve. *)
Lemma session_start_counterexample :
  Main.session_active (Main.core Demo.stopped) = false /\
  Vad.noise_floor
    (Main.vad (Main.on_session_control true 9000 9000 Demo.stopped))
    = S754_finite false 10952101 (-30) /\
  Vad.noise_floor Vad.power_on = S754_finite false 10737418 (-30) /\
  Vad.pending_segment
    (Main.vad (Main.on_session_control true 9000 9000 Demo.stopped))
    = {| start_ms := 1010; end_ms := 1130; duration_ms := 120;
         avg_energy := F32.zero |} /\
  Main.child_speech_time
    (Main.core (Main.on_session_control true 9000 9000 Demo.stopped)) = 1130 /\
  ~ start_restores_all Demo.stopped 9000 9000 /\
  session_events (Main.on_session_control true 9000 9000 Demo.stopped)
                 Demo.mute_session
    = [OutEvent {| type := BLE_EVENT_SERVE;
                   timestamp := S754_finite false 8724152 (-26);
                   confidence := Main.c_0_8;
                   pitch_hz := F32.zero;
                   response_latency := F32.zero;
                   silence_duration := F32.zero |} true] /\
  session_events (Main.on_session_control true 9000 9000 Demo.connected)
                 Demo.mute_session = [] /\
  ~ start_forgets Demo.stopped Demo.connected 9000 9000 Demo.mute_session.
Proof.
  assert (H :
    (Main.session_active (Main.core Demo.stopped),
     Vad.noise_floor
       (Main.vad (Main.on_session_control true 9000 9000 Demo.stopped)),
     Vad.pending_segment
       (Main.vad (Main.on_session_control true 9000 9000 Demo.stopped)),
     Main.child_speech_time
       (Main.core (Main.on_session_control true 9000 9000 Demo.stopped)),
     session_events (Main.on_session_control true 9000 9000 Demo.stopped)
                    Demo.mute_session,
     session_events (Main.on_session_control true 9000 9000 Demo.connected)
                    Demo.mute_session)
    = (false, S754_finite false 10952101 (-30),
       {| start_ms := 1010; end_ms := 1130; duration_ms := 120;
          avg_energy := F32.zero |},
       1130,
       [OutEvent {| type := BLE_EVENT_SERVE;
                    timestamp := S754_finite false 8724152 (-26);
                    confidence := Main.c_0_8;
                    pitch_hz := F32.zero;
                    response_latency := F32.zero;
                    silence_duration := F32.zero |} true],
       [])) by (vm_compute; reflexivity).
  apply pair_eq_parts in H as [H He2].
  apply pair_eq_parts in H as [H He1].
  apply pair_eq_parts in H as [H Hc].
  apply pair_eq_parts in H as [H Hp].
  apply pair_eq_parts in H as [Ha Hn].
  split; [exact Ha|]. split; [exact Hn|]. split; [reflexivity|].
  split; [exact Hp|]. split; [exact Hc|]. split; [|split; [exact He1|]].
  - intros (Hv & _). destruct Hv as (_ & Hnf & _).
    rewrite Hn in Hnf. discriminate Hnf.
  - split; [exact He2|].
    unfold start_forgets. rewrite He1, He2. discriminate.
Qed.

(** ** Ring buffer *)

Lemma buffer_size_value : AUDIO_BUFFER_SIZE = 160000.
Proof. reflexivity. Qed.

Lemma frame_samples_value : AUDIO_FRAME_SAMPLES = 480.
Proof. reflexivity. Qed.

Ltac ring_arith :=
  unfold RingClient.wf, u32 in *;
  rewrite ?buffer_size_value, ?frame_samples_value in *;
  change (2 ^ 32) with 4294967296 in *;
  Z.div_mod_to_equations; lia.

Lemma frames_available_mod (a : Audio.t) :
  RingClient.wf a ->
  Audio.audio_frames_available a
  = (Audio.write_index a - Audio.read_index a) mod AUDIO_BUFFER_SIZE.
Proof.
  intros Hwf. unfold Audio.audio_frames_available.
  destruct (_ >=? _) eqn:E; ring_arith.
Qed.

Lemma copy_out_length (buf : list Z) (ri n : Z) :
  length (Audio.copy_out buf ri n) = Z.to_nat n.
Proof. unfold Audio.copy_out. rewrite length_map, length_seq. reflexivity. Qed.

Lemma copy_out_lookup (buf : list Z) (ri n : Z) (i : nat) :
  (i < Z.to_nat n)%nat ->
  Audio.copy_out buf ri n !! i
  = Some (Audio.buf_get buf ((ri + Z.of_nat i) mod AUDIO_BUFFER_SIZE)).
Proof.
  intros Hi. unfold Audio.copy_out.
  rewrite list_lookup_fmap, lookup_seq_lt by exact Hi. reflexivity.
Qed.

Lemma buf_get_insert (buf : list Z) (w j x : Z) :
  0 <= w < Z.of_nat (length buf) -> 0 <= j ->
  Audio.buf_get (<[Z.to_nat w := x]> buf) j
  = if j =? w then x else Audio.buf_get buf j.
Proof.
  intros Hw Hj. unfold Audio.buf_get.
  destruct (j =? w) eqn:E.
  - apply Z.eqb_eq in E. subst j.
    rewrite list_lookup_insert_eq by lia. reflexivity.
  - apply Z.eqb_neq in E.
    rewrite list_lookup_insert_ne by lia. reflexivity.
Qed.

Lemma push_sample_wf (a : Audio.t) (x : Z) :
  RingClient.wf a -> RingClient.wf (Audio.push_sample a x).
Proof.
  intros (Hl & Hw & Hr). unfold RingClient.wf, Audio.push_sample. cbn.
  rewrite length_insert. split; [exact Hl|].
  destruct (_ =? _); rewrite buffer_size_value in *;
    Z.div_mod_to_equations; lia.
Qed.

Lemma push_sample_unread (a : Audio.t) (x : Z) :
  RingClient.wf a ->
  RingClient.unread (Audio.push_sample a x)
  = Fifo.push (RingClient.unread a) x.
Proof.
  intros Hwf. pose proof Hwf as (Hl & Hw & Hr).
  unfold Fifo.push, RingClient.unread. rewrite copy_out_length.
  unfold Audio.push_sample. cbn [Audio.audio_buffer Audio.write_index Audio.read_index].
  set (W := Audio.write_index a) in *. set (R := Audio.read_index a) in *.
  set (buf := Audio.audio_buffer a) in *.
  apply list_eq. intros i.
  destruct ((W + 1) mod AUDIO_BUFFER_SIZE =? R) eqn:Efull.
  - (* the write cursor caught up: the oldest sample goes *)
    apply Z.eqb_eq in Efull.
    assert (Hn : (W - R) mod AUDIO_BUFFER_SIZE = AUDIO_BUFFER_SIZE - 1)
      by (rewrite buffer_size_value in *; Z.div_mod_to_equations; lia).
    assert (Hn' : ((W + 1) mod AUDIO_BUFFER_SIZE
                   - (R + 1) mod AUDIO_BUFFER_SIZE) mod AUDIO_BUFFER_SIZE
                  = AUDIO_BUFFER_SIZE - 1)
      by (rewrite buffer_size_value in *; Z.div_mod_to_equations; lia).
    rewrite Hn, Hn'.
    destruct (Z.ltb_spec (Z.of_nat (Z.to_nat (AUDIO_BUFFER_SIZE - 1)) + 1)
                         AUDIO_BUFFER_SIZE) as [Elt|Elt];
      [rewrite buffer_size_value in *; lia|].
    destruct (decide (i < Z.to_nat (AUDIO_BUFFER_SIZE - 1))%nat) as [Hi|Hi].
    + rewrite copy_out_lookup by exact Hi.
      rewrite buf_get_insert by (rewrite ?buffer_size_value in *; Z.div_mod_to_equations; lia).
      destruct (decide (i = Z.to_nat (AUDIO_BUFFER_SIZE - 2))) as [->|Hne].
      * rewrite lookup_app_r
          by (rewrite length_drop, copy_out_length, buffer_size_value; lia).
        rewrite length_drop, copy_out_length.
        replace (_ - _)%nat with 0%nat by (rewrite buffer_size_value; lia).
        destruct (_ =? W) eqn:E; [reflexivity|].
        apply Z.eqb_neq in E. exfalso. apply E.
        rewrite buffer_size_value in *. Z.div_mod_to_equations; lia.
      * rewrite lookup_app_l
          by (rewrite length_drop, copy_out_length, buffer_size_value in *; lia).
        rewrite lookup_drop, copy_out_lookup
          by (rewrite buffer_size_value in *; lia).
        destruct (_ =? W) eqn:E.
        { apply Z.eqb_eq in E. exfalso.
          rewrite buffer_size_value in *. Z.div_mod_to_equations; lia. }
        do 2 f_equal. rewrite buffer_size_value in *.
        Z.div_mod_to_equations; lia.
    + rewrite !lookup_ge_None_2; [reflexivity| |].
      * rewrite length_app, length_drop, copy_out_length. cbn.
        rewrite buffer_size_value in *. lia.
      * rewrite copy_out_length. lia.
  - apply Z.eqb_neq in Efull.
    assert (Hn' : ((W + 1) mod AUDIO_BUFFER_SIZE - R) mod AUDIO_BUFFER_SIZE
                  = (W - R) mod AUDIO_BUFFER_SIZE + 1)
      by (rewrite buffer_size_value in *; Z.div_mod_to_equations; lia).
    rewrite Hn'.
    set (n := (W - R) mod AUDIO_BUFFER_SIZE) in *.
    assert (Hnr : 0 <= n < AUDIO_BUFFER_SIZE - 1)
      by (subst n; rewrite buffer_size_value in *; Z.div_mod_to_equations; lia).
    destruct (Z.ltb_spec (Z.of_nat (Z.to_nat n) + 1) AUDIO_BUFFER_SIZE)
      as [Elt|Elt]; [|rewrite buffer_size_value in *; lia].
    destruct (decide (i < Z.to_nat (n + 1))%nat) as [Hi|Hi].
    + rewrite copy_out_lookup by exact Hi.
      rewrite buf_get_insert by (rewrite ?buffer_size_value in *; Z.div_mod_to_equations; lia).
      destruct (decide (i = Z.to_nat n)) as [->|Hne].
      * rewrite lookup_app_r by (rewrite copy_out_length; lia).
        rewrite copy_out_length, Nat.sub_diag.
        destruct (_ =? W) eqn:E; [reflexivity|].
        apply Z.eqb_neq in E. exfalso. apply E. subst n.
        rewrite buffer_size_value in *. Z.div_mod_to_equations; lia.
      * rewrite lookup_app_l by (rewrite copy_out_length; lia).
        rewrite copy_out_lookup by lia.
        destruct (_ =? W) eqn:E; [|reflexivity].
        apply Z.eqb_eq in E. exfalso. subst n.
        rewrite buffer_size_value in *. Z.div_mod_to_equations; lia.
    + rewrite !lookup_ge_None_2; [reflexivity| |].
      * rewrite length_app, copy_out_length. cbn. lia.
      * rewrite copy_out_length. lia.
Qed.

Lemma push_samples_unread (l : list Z) :
  forall a : Audio.t,
    RingClient.wf a ->
    RingClient.wf (fold_left Audio.push_sample l a) /\
    RingClient.unread (fold_left Audio.push_sample l a)
    = fold_left Fifo.push l (RingClient.unread a) /\
    Audio.is_running (fold_left Audio.push_sample l a) = Audio.is_running a.
Proof.
  induction l as [|x l IH]; intros a Hwf; cbn [fold_left].
  - auto.
  - destruct (IH (Audio.push_sample a x) (push_sample_wf a x Hwf))
      as (Hwf' & Hu & Hr).
    split; [exact Hwf'|]. split; [|exact Hr].
    rewrite Hu, push_sample_unread by exact Hwf. reflexivity.
Qed.

Lemma audio_process_unread (rd : Audio.i2s_result) (a : Audio.t) :
  RingClient.wf a ->
  RingClient.wf (Audio.audio_process rd a) /\
  RingClient.unread (Audio.audio_process rd a)
  = Fifo.feed (Audio.is_running a) rd (RingClient.unread a) /\
  Audio.is_running (Audio.audio_process rd a) = Audio.is_running a.
Proof.
  intros Hwf. unfold Audio.audio_process, Fifo.feed.
  destruct (Audio.is_running a) eqn:Hrun; cbn [negb]; [|auto].
  destruct (_ || _); [auto|].
  destruct (push_samples_unread (Audio.i2s_samples rd) a Hwf) as (H1 & H2 & H3).
  split; [exact H1|]. split; [exact H2|]. cbn. rewrite H3. exact Hrun.
Qed.

Lemma audio_get_frame_unread (now : Z) (f0 : AudioFrame) (a : Audio.t) :
  RingClient.wf a ->
  let '(got, frame, a') := Audio.audio_get_frame now (Some f0) a in
  RingClient.wf a' /\
  Audio.is_running a' = Audio.is_running a /\
  match Fifo.next_frame (RingClient.unread a) with
  | (Some smp, q') =>
      got = true /\
      frame = Some {| samples := smp; timestamp_ms := now; valid := true |} /\
      RingClient.unread a' = q'
  | (None, q') => got = false /\ a' = a /\ RingClient.unread a' = q'
  end.
Proof.
  intros Hwf. pose proof Hwf as (Hl & Hw & Hr).
  unfold Audio.audio_get_frame, Fifo.next_frame.
  rewrite frames_available_mod by exact Hwf.
  unfold RingClient.unread at 1. rewrite copy_out_length.
  set (W := Audio.write_index a) in *. set (R := Audio.read_index a) in *.
  set (n := (W - R) mod AUDIO_BUFFER_SIZE).
  assert (Hn : 0 <= n < AUDIO_BUFFER_SIZE)
    by (subst n; rewrite buffer_size_value in *; Z.div_mod_to_equations; lia).
  rewrite Z2Nat.id by lia.
  destruct (Z.ltb_spec n AUDIO_FRAME_SAMPLES) as [Hlt|Hge].
  - split; [exact Hwf|]. split; [reflexivity|]. auto.
  - split.
    { unfold RingClient.wf. cbn. split; [exact Hl|]. split; [exact Hw|].
      rewrite buffer_size_value, frame_samples_value in *.
      Z.div_mod_to_equations; lia. }
    split; [reflexivity|]. split; [reflexivity|].
    unfold RingClient.unread.
    cbn [Audio.audio_buffer Audio.write_index Audio.read_index].
    fold W R. fold n.
    assert (Hn' : (W - (R + AUDIO_FRAME_SAMPLES) mod AUDIO_BUFFER_SIZE)
                    mod AUDIO_BUFFER_SIZE = n - AUDIO_FRAME_SAMPLES)
      by (subst n; rewrite buffer_size_value, frame_samples_value in *;
          Z.div_mod_to_equations; lia).
    rewrite Hn'. split.
    + do 2 f_equal. apply list_eq. intros i.
      destruct (decide (i < Z.to_nat AUDIO_FRAME_SAMPLES)%nat) as [Hi|Hi].
      * rewrite lookup_take_lt by exact Hi.
        rewrite !copy_out_lookup by lia. reflexivity.
      * rewrite lookup_take_ge by lia.
        apply lookup_ge_None_2. rewrite copy_out_length. lia.
    + apply list_eq. intros i. rewrite lookup_drop.
      destruct (decide (i < Z.to_nat (n - AUDIO_FRAME_SAMPLES))%nat) as [Hi|Hi].
      * rewrite !copy_out_lookup
          by (rewrite frame_samples_value in *; lia).
        do 2 f_equal. rewrite buffer_size_value, frame_samples_value in *.
        Z.div_mod_to_equations; lia.
      * rewrite !lookup_ge_None_2; [reflexivity| |];
          rewrite copy_out_length; rewrite frame_samples_value in *; lia.
Qed.

Lemma exec_refines (ops : list RingClient.op) :
  forall a : Audio.t,
    RingClient.wf a ->
    fst (RingClient.exec ops a)
    = fst (Fifo.exec (Audio.is_running a) ops (RingClient.unread a)) /\
    RingClient.unread (snd (RingClient.exec ops a))
    = snd (Fifo.exec (Audio.is_running a) ops (RingClient.unread a)) /\
    RingClient.wf (snd (RingClient.exec ops a)).
Proof.
  induction ops as [|[rd|now] ops IH]; intros a Hwf.
  - cbn. auto.
  - cbn [RingClient.exec Fifo.exec].
    destruct (audio_process_unread rd a Hwf) as (Hwf' & Hu & Hr).
    specialize (IH _ Hwf'). rewrite Hu, Hr in IH. exact IH.
  - cbn [RingClient.exec Fifo.exec].
    pose proof (audio_get_frame_unread now Main.stack_frame a Hwf) as H.
    destruct (Audio.audio_get_frame now (Some Main.stack_frame) a)
      as [[got frame] a'].
    destruct H as (Hwf' & Hr & H).
    specialize (IH _ Hwf'). rewrite Hr in IH.
    destruct (Fifo.next_frame (RingClient.unread a)) as [[smp|] q'].
    + destruct H as (-> & -> & Hu). rewrite Hu in IH.
      destruct (RingClient.exec ops a') as [fs a''].
      destruct (Fifo.exec (Audio.is_running a) ops q') as [fs' q''].
      cbn in *. destruct IH as (-> & IH). auto.
    + destruct H as (-> & -> & Hu). rewrite Hu in IH. exact IH.
Qed.

(** C9. In every state with the cursors inside the array (all states the
    program reaches): [available = (W - R) mod C], and it is the number of
    unread samples; a push that makes the write cursor catch up with the
    read cursor advances the read cursor by exactly one and discards only
    the oldest unread sample, any other push discards nothing; and for every
    sequence of [audio_process] and [audio_get_frame] calls the frames
    delivered are those of a first-in first-out queue that drops its oldest
    element when full, so samples come out in the order pushed, none
    duplicated, none skipped but the discarded ones. *)
Theorem ring_buffer_is_fifo (a : Audio.t) :
  RingClient.wf a ->
  (Audio.audio_frames_available a
   = (Audio.write_index a - Audio.read_index a) mod AUDIO_BUFFER_SIZE /\
   Audio.audio_frames_available a = Z.of_nat (length (RingClient.unread a))) /\
  (forall x : Z,
     let a' := Audio.push_sample a x in
     RingClient.wf a' /\
     ((Audio.write_index a + 1) mod AUDIO_BUFFER_SIZE = Audio.read_index a ->
        Audio.read_index a' = (Audio.read_index a + 1) mod AUDIO_BUFFER_SIZE /\
        RingClient.unread a' = drop 1 (RingClient.unread a) ++ [x]) /\
     ((Audio.write_index a + 1) mod AUDIO_BUFFER_SIZE <> Audio.read_index a ->
        Audio.read_index a' = Audio.read_index a /\
        RingClient.unread a' = RingClient.unread a ++ [x])) /\
  (forall ops : list RingClient.op,
     let r := RingClient.exec ops a in
     fst r = fst (Fifo.exec (Audio.is_running a) ops (RingClient.unread a)) /\
     RingClient.unread (snd r)
     = snd (Fifo.exec (Audio.is_running a) ops (RingClient.unread a)) /\
     RingClient.wf (snd r) /\
     Audio.audio_frames_available (snd r)
     = (Audio.write_index (snd r) - Audio.read_index (snd r))
         mod AUDIO_BUFFER_SIZE).
Proof.
  intros Hwf. pose proof Hwf as (Hl & Hw & Hr).
  assert (Hlen : Z.of_nat (length (RingClient.unread a))
                 = (Audio.write_index a - Audio.read_index a)
                     mod AUDIO_BUFFER_SIZE).
  { unfold RingClient.unread. rewrite copy_out_length.
    rewrite buffer_size_value in *. Z.div_mod_to_equations; lia. }
  split; [|split].
  - rewrite Hlen. split; apply frames_available_mod; exact Hwf.
  - intros x. cbv zeta. split; [apply push_sample_wf; exact Hwf|].
    pose proof (push_sample_unread a x Hwf) as Hu. unfold Fifo.push in Hu.
    rewrite Hlen in Hu. split; intros Hfull.
    + split; [cbn; apply Z.eqb_eq in Hfull; rewrite Hfull; reflexivity|].
      rewrite Hu.
      destruct (Z.ltb_spec
                  ((Audio.write_index a - Audio.read_index a)
                     mod AUDIO_BUFFER_SIZE + 1) AUDIO_BUFFER_SIZE)
        as [Hlt|Hge]; [|reflexivity].
      exfalso. rewrite buffer_size_value in *. Z.div_mod_to_equations; lia.
    + split; [cbn; apply Z.eqb_neq in Hfull; rewrite Hfull; reflexivity|].
      rewrite Hu.
      destruct (Z.ltb_spec
                  ((Audio.write_index a - Audio.read_index a)
                     mod AUDIO_BUFFER_SIZE + 1) AUDIO_BUFFER_SIZE)
        as [Hlt|Hge]; [reflexivity|].
      exfalso. rewrite buffer_size_value in *. Z.div_mod_to_equations; lia.
  - intros ops. cbv zeta.
    destruct (exec_refines ops a Hwf) as (H1 & H2 & H3).
    split; [exact H1|]. split; [exact H2|]. split; [exact H3|].
    apply frames_available_mod. exact H3.
Qed.

Lemma ring_buffer_is_fifo_witness :
  (Audio.audio_frames_available Demo.full = Z.of_nat (length (RingClient.unread Demo.full)) /\
   Audio.read_index (Audio.push_sample Demo.full 9)
   = (Audio.read_index Demo.full + 1) mod AUDIO_BUFFER_SIZE /\
   RingClient.unread (Audio.push_sample Demo.full 9)
   = drop 1 (RingClient.unread Demo.full) ++ [9]) /\
  (RingClient.unread (Audio.push_sample Demo.capturing 9)
   = RingClient.unread Demo.capturing ++ [9] /\
   fst (RingClient.exec Demo.ring_ops Demo.capturing)
   = fst (Fifo.exec (Audio.is_running Demo.capturing) Demo.ring_ops
            (RingClient.unread Demo.capturing))).
Proof.
  split.
  - destruct (ring_buffer_is_fifo Demo.full) as ((_ & Hav) & Hpush & _).
    { vm_compute. repeat split; try reflexivity; discriminate. }
    destruct (Hpush 9) as (_ & Hfull & _).
    destruct Hfull as (Hr & Hu); [vm_compute; reflexivity|].
    split; [exact Hav|]. split; [exact Hr | exact Hu].
  - destruct (ring_buffer_is_fifo Demo.capturing) as (_ & Hpush & Hexec).
    { vm_compute. repeat split; try reflexivity; discriminate. }
    destruct (Hpush 9) as (_ & _ & Hfree).
    destruct Hfree as (_ & Hu); [vm_compute; discriminate|].
    split; [exact Hu|].
    destruct (Hexec Demo.ring_ops) as (Hfs & _). exact Hfs.
Defined.

(** C2, the code at the failing input.  After 1024 samples have been
    pushed into the empty buffer, [audio_frames_available] returns 1024, the
    number of unread samples: two whole frames are buffered, and 1024 is
    above [AUDIO_BUFFER_SIZE / AUDIO_FRAME_SAMPLES = 333]. *)
Theorem frames_available_counts_samples :
  let a := Audio.audio_process
             {| Audio.i2s_ok := true; Audio.i2s_samples := replicate 1024 3 |}
             Demo.capturing in
  Audio.audio_frames_available a = 1024 /\
  Z.of_nat (length (RingClient.unread a)) = 1024 /\
  Z.of_nat (length (RingClient.unread a)) / AUDIO_FRAME_SAMPLES = 2 /\
  AUDIO_BUFFER_SIZE / AUDIO_FRAME_SAMPLES = 333 /\
  AUDIO_BUFFER_SIZE / AUDIO_FRAME_SAMPLES < Audio.audio_frames_available a.
Proof. vm_compute. repeat split; reflexivity. Qed.

(** ** Order of binary32 values *)

Lemma SFcompare_finite_pos (m1 m2 : positive) (e1 e2 : Z) :
  match Z.compare e1 e2 with
  | Lt => Lt | Gt => Gt | Eq => Pos.compare_cont Eq m1 m2 end = Lt <->
  (e1 < e2 \/ (e1 = e2 /\ (m1 < m2)%positive)).
Proof.
  destruct (Z.compare_spec e1 e2) as [He|He|He].
  - change (Pos.compare_cont Eq m1 m2) with (Pos.compare m1 m2).
    rewrite Pos.compare_lt_iff. split; [auto|]. intros [H|[_ H]]; [lia|exact H].
  - split; [auto|reflexivity].
  - split; [discriminate|]. intros [H|[H _]]; lia.
Qed.

Lemma SFcompare_finite_neg (m1 m2 : positive) (e1 e2 : Z) :
  match Z.compare e1 e2 with
  | Lt => Gt | Gt => Lt | Eq => CompOpp (Pos.compare_cont Eq m1 m2) end = Lt <->
  (e2 < e1 \/ (e1 = e2 /\ (m2 < m1)%positive)).
Proof.
  destruct (Z.compare_spec e1 e2) as [He|He|He].
  - change (Pos.compare_cont Eq m1 m2) with (Pos.compare m1 m2).
    rewrite <- Pos.compare_antisym, Pos.compare_lt_iff.
    split; [auto|]. intros [H|[_ H]]; [lia|exact H].
  - split; [discriminate|]. intros [H|[H _]]; lia.
  - split; [auto|reflexivity].
Qed.

Lemma SFltb_lt_prop (a b : spec_float) : SFltb a b = true <-> lt_prop a b.
Proof.
  unfold SFltb, SFcompare, lt_prop.
  destruct a as [sa|sa| |sa ma ea], b as [sb|sb| |sb mb eb];
    try destruct sa; try destruct sb;
    try (split; [discriminate | tauto]);
    try (split; [discriminate | intros [H1 H2]; discriminate]);
    try (split; [discriminate | intros H; discriminate]);
    try (split; [auto | reflexivity]).
  - pose proof (SFcompare_finite_neg ma mb ea eb) as H.
    destruct (Z.compare ea eb), (Pos.compare_cont Eq ma mb); cbn in *;
      split; intros H0; try discriminate; try reflexivity;
      try (apply H; reflexivity); try (apply H in H0; discriminate).
  - pose proof (SFcompare_finite_pos ma mb ea eb) as H.
    destruct (Z.compare ea eb), (Pos.compare_cont Eq ma mb); cbn in *;
      split; intros H0; try discriminate; try reflexivity;
      try (apply H; reflexivity); try (apply H in H0; discriminate).
Qed.

Lemma SFltb_irrefl (a : spec_float) : SFltb a a = false.
Proof.
  destruct (SFltb a a) eqn:E; [|reflexivity].
  apply SFltb_lt_prop in E. destruct a as [s|s| |s m e]; cbn in E;
    try destruct s; try tauto; try (destruct E; congruence); lia.
Qed.

Lemma SFltb_trans (a b c : spec_float) :
  SFltb a b = true -> SFltb b c = true -> SFltb a c = true.
Proof.
  rewrite !SFltb_lt_prop.
  destruct a as [sa|sa| |sa ma ea], b as [sb|sb| |sb mb eb],
           c as [sc|sc| |sc mc ec]; cbn;
    try destruct sa; try destruct sb; try destruct sc;
    try tauto; try (intuition congruence); try lia.
Qed.

(** On numbers, [not (c < b)] is [b <= c]. *)
Lemma SFltb_nlt_trans (a b c : spec_float) :
  SFltb a b = true -> SFltb c b = false -> c <> S754_nan ->
  SFltb a c = true.
Proof.
  intros Hab Hcb Hc.
  assert (Hn : ~ lt_prop c b)
    by (rewrite <- SFltb_lt_prop; congruence).
  apply SFltb_lt_prop in Hab. apply SFltb_lt_prop. revert Hab Hn.
  destruct a as [sa|sa| |sa ma ea], b as [sb|sb| |sb mb eb],
           c as [sc|sc| |sc mc ec]; cbn;
    try destruct sa; try destruct sb; try destruct sc;
    try tauto; try congruence; try (intuition congruence); try lia.
Qed.

(** ** YIN: lag selection *)

Lemma read_lag_value (diff : list F32.t) (tau : Z) :
  0 <= tau < Z.of_nat (length diff) ->
  read diff tau = Some (lag_value diff tau).
Proof.
  intros Ht. unfold lag_value, read.
  destruct (Z.ltb_spec tau 0) as [H|H]; [lia|].
  destruct (lookup_lt_is_Some_2 diff (Z.to_nat tau)) as [x Hx]; [lia|].
  rewrite Hx. reflexivity.
Qed.

Lemma dip_at_is_dip (diff : list F32.t) (thr : F32.t) (tau : Z) :
  1 <= tau -> tau + 1 < Z.of_nat (length diff) -> tau < 2 ^ 32 ->
  Pitch.dip_at diff thr tau = Some (is_dip diff thr tau).
Proof.
  intros H1 H2 H3. unfold Pitch.dip_at, is_dip.
  assert (Hu : u32 (tau - 1) = tau - 1)
    by (unfold u32; apply Z.mod_small; lia).
  rewrite Hu, !read_lag_value by lia. cbn.
  destruct (F32.ltb (lag_value diff tau) thr); cbn; [|reflexivity].
  destruct (F32.ltb (lag_value diff tau) (lag_value diff (tau - 1))); cbn;
    reflexivity.
Qed.

Lemma first_dip_scan (diff : list F32.t) (thr : F32.t) (n : nat) :
  forall tau : Z,
    1 <= tau -> tau + Z.of_nat n + 1 <= Z.of_nat (length diff) ->
    tau + Z.of_nat n < 2 ^ 32 ->
    (exists t : Z,
       Pitch.first_dip diff thr tau n = Some (Some t) /\
       first_dip_at diff thr tau (tau + Z.of_nat n) t) \/
    (Pitch.first_dip diff thr tau n = Some None /\
     no_dip diff thr tau (tau + Z.of_nat n)).
Proof.
  induction n as [|n IH]; intros tau H1 H2 H3.
  - right. split; [reflexivity|]. intros t Ht. lia.
  - cbn [Pitch.first_dip]. rewrite dip_at_is_dip by lia. cbn.
    destruct (is_dip diff thr tau) eqn:Hd.
    + left. exists tau. split; [reflexivity|].
      split; [lia|]. split; [exact Hd|]. intros t Ht. lia.
    + destruct (IH (tau + 1)) as [(t & Hf & Hlo & Hdip & Hmin) | (Hf & Hno)];
        try lia.
      * left. exists t. split; [exact Hf|]. split; [lia|].
        split; [exact Hdip|]. intros t' Ht'.
        destruct (Z.eq_dec t' tau) as [->|Hne]; [exact Hd|].
        apply Hmin. lia.
      * right. split; [exact Hf|]. intros t' Ht'.
        destruct (Z.eq_dec t' tau) as [->|Hne]; [exact Hd|].
        apply Hno. lia.
Qed.

Lemma global_min_scan (diff : list F32.t) (lo : Z) (n : nat) :
  forall tau mt : Z,
    0 <= lo -> lo <= mt < tau ->
    tau + Z.of_nat n <= Z.of_nat (length diff) ->
    (forall t : Z, lo <= t < tau + Z.of_nat n -> lag_value diff t <> S754_nan) ->
    global_minimum_at diff lo tau mt ->
    exists m : Z,
      Pitch.global_min diff tau n (lag_value diff mt) mt
      = Some (lag_value diff m, m) /\
      global_minimum_at diff lo (tau + Z.of_nat n) m.
Proof.
  induction n as [|n IH]; intros tau mt Hlo Hmt Hlen Hnum Hmin.
  - exists mt. split; [reflexivity|]. rewrite Z.add_0_r. exact Hmin.
  - cbn [Pitch.global_min]. rewrite read_lag_value by lia. cbn.
    destruct Hmin as (_ & Hbelow & Habove).
    destruct (F32.ltb (lag_value diff tau) (lag_value diff mt)) eqn:Hlt.
    + destruct (IH (tau + 1) tau) as (m & Hm & Hg); try lia.
      * intros t Ht. apply Hnum. lia.
      * split; [lia|]. split.
        -- intros t Ht. destruct (Z.eq_dec t tau) as [->|Hne];
             [apply SFltb_irrefl|].
           destruct (F32.ltb (lag_value diff t) (lag_value diff tau)) eqn:E;
             [|reflexivity].
           rewrite <- (Hbelow t) by lia. symmetry.
           apply (SFltb_trans _ _ _ E Hlt).
        -- intros t Ht.
           destruct (Z.lt_ge_cases t mt) as [Hlt'|Hge].
           ++ apply (SFltb_trans _ _ _ Hlt). apply Habove. lia.
           ++ apply (SFltb_nlt_trans _ _ _ Hlt).
              ** apply Hbelow. lia.
              ** apply Hnum. lia.
      * exists m. split; [exact Hm|].
        replace (tau + Z.of_nat (S n)) with (tau + 1 + Z.of_nat n) by lia.
        exact Hg.
    + destruct (IH (tau + 1) mt) as (m & Hm & Hg); try lia.
      * intros t Ht. apply Hnum. lia.
      * split; [lia|]. split.
        -- intros t Ht. destruct (Z.eq_dec t tau) as [->|Hne]; [exact Hlt|].
           apply Hbelow. lia.
        -- exact Habove.
      * exists m. split; [exact Hm|].
        replace (tau + Z.of_nat (S n)) with (tau + 1 + Z.of_nat n) by lia.
        exact Hg.
Qed.

(** The lag-selection step with any threshold.  For every
    normalized-difference array and every search range [tau_min, tau_max)
    inside it, the lag-selection step returns the
    smallest lag of [tau_min, tau_max - 1) whose value is below the
    threshold and is a local minimum (strictly less than its left
    neighbour, no greater than its right one); if there is none it returns
    the lag of the global minimum over [tau_min, tau_max) when that minimum
    is below 0.5, and -1 (no pitch) otherwise. *)
Theorem yin_absolute_threshold_selects (diff : list F32.t) (thr : F32.t)
        (tau_min tau_max : Z) :
  lag_range_ok diff tau_min tau_max ->
  exists result : Z,
    Pitch.yin_absolute_threshold diff tau_min tau_max thr = Some result /\
    selects diff thr tau_min (tau_max - 1) tau_max result.
Proof.
  intros (H1 & H2 & H3 & H4 & Hnum).
  assert (H31 : 2 ^ 31 = 2147483648) by reflexivity.
  assert (H32 : 2 ^ 32 = 4294967296) by reflexivity.
  unfold Pitch.yin_absolute_threshold.
  assert (Hu : u32 (tau_max - 1) = tau_max - 1)
    by (unfold u32; apply Z.mod_small; lia).
  rewrite Hu.
  assert (Hint : forall t, 0 <= t < tau_max -> int_of_u32 t = t).
  { intros t Ht. unfold int_of_u32.
    destruct (Z.ltb_spec t (2 ^ 31)); [reflexivity|lia]. }
  destruct (first_dip_scan diff thr (Z.to_nat (tau_max - 1 - tau_min)) tau_min)
    as [(t & Hf & Hfirst) | (Hf & Hno)]; try lia.
  - rewrite Hf. cbn. rewrite Z2Nat.id in Hfirst by lia.
    replace (tau_min + (tau_max - 1 - tau_min)) with (tau_max - 1) in Hfirst
      by lia.
    exists t. rewrite Hint by (destruct Hfirst; lia).
    split; [reflexivity|]. left. exact Hfirst.
  - rewrite Hf. cbn. rewrite Z2Nat.id in Hno by lia.
    replace (tau_min + (tau_max - 1 - tau_min)) with (tau_max - 1) in Hno
      by lia.
    rewrite read_lag_value by lia. cbn.
    destruct (global_min_scan diff tau_min
                (Z.to_nat (tau_max - (tau_min + 1))) (tau_min + 1) tau_min)
      as (m & Hm & Hg); try lia.
    + intros t Ht. apply Hnum. lia.
    + split; [lia|]. split.
      * intros t Ht. replace t with tau_min by lia. apply SFltb_irrefl.
      * intros t Ht. lia.
    + rewrite Hm. cbn. rewrite Z2Nat.id in Hg by lia.
      replace (tau_min + 1 + (tau_max - (tau_min + 1))) with tau_max in Hg
        by lia.
      destruct (F32.ltb (lag_value diff m) Pitch.c_0_5) eqn:Hhalf.
      * exists m. rewrite Hint by (destruct Hg; lia).
        split; [reflexivity|]. right. split; [exact Hno|].
        exists m. split; [exact Hg|]. left. auto.
      * exists (-1). split; [reflexivity|]. right. split; [exact Hno|].
        exists m. split; [exact Hg|]. right. auto.
Qed.


Lemma yin_absolute_threshold_selects_witness :
  exists result : Z,
    Pitch.yin_absolute_threshold Demo.cmnd 3 6 Pitch.YIN_THRESHOLD
    = Some result /\
    selects Demo.cmnd Pitch.YIN_THRESHOLD 3 (6 - 1) 6 result.
Proof.
  apply (yin_absolute_threshold_selects Demo.cmnd Pitch.YIN_THRESHOLD 3 6).
  unfold lag_range_ok. repeat split; try (vm_compute; congruence).
  intros t Ht. assert (Hc : t = 3 \/ t = 4 \/ t = 5) by lia.
  destruct Hc as [-> | [-> | ->]]; vm_compute; discriminate.
Defined.

(** *** The selection is determined by its description *)










(** ** Capture: ingesting a block *)

Lemma fifo_push_drop (q : list Z) (x : Z) :
  Z.of_nat (length q) <= AUDIO_BUFFER_SIZE - 1 ->
  Fifo.push q x
  = drop (Z.to_nat (Z.of_nat (length q) + 1
                    - Z.min (Z.of_nat (length q) + 1) (AUDIO_BUFFER_SIZE - 1)))
         (q ++ [x]).
Proof.
  intros Hq. unfold Fifo.push. rewrite buffer_size_value in *.
  destruct (Z.ltb_spec (Z.of_nat (length q) + 1) 160000) as [Hlt|Hge].
  - replace (Z.to_nat _) with 0%nat by lia. reflexivity.
  - replace (Z.to_nat _) with 1%nat by lia.
    destruct q as [|y q]; [cbn in *; lia|]. reflexivity.
Qed.

Lemma fifo_push_all_drop (l : list Z) :
  forall q : list Z,
    Z.of_nat (length q) <= AUDIO_BUFFER_SIZE - 1 ->
    fold_left Fifo.push l q
    = drop (Z.to_nat (Z.of_nat (length q) + Z.of_nat (length l)
                      - Z.min (Z.of_nat (length q) + Z.of_nat (length l))
                              (AUDIO_BUFFER_SIZE - 1)))
           (q ++ l).
Proof.
  induction l as [|x l IH]; intros q Hq.
  - cbn [fold_left length]. rewrite app_nil_r.
    replace (Z.to_nat _) with 0%nat by lia. reflexivity.
  - cbn [fold_left]. rewrite IH.
    + rewrite fifo_push_drop by exact Hq.
      rewrite length_drop, length_app. cbn [length].
      rewrite <- drop_app_le by (rewrite length_app; cbn; lia).
      rewrite drop_drop, <- app_assoc. cbn [app]. f_equal.
      rewrite buffer_size_value in *. lia.
    + rewrite fifo_push_drop by exact Hq.
      rewrite length_drop, length_app. cbn [length].
      rewrite buffer_size_value in *. lia.
Qed.

Lemma unread_length (a : Audio.t) :
  RingClient.wf a ->
  Z.of_nat (length (RingClient.unread a)) = Audio.audio_frames_available a.
Proof.
  intros Hwf. rewrite frames_available_mod by exact Hwf.
  unfold RingClient.unread. rewrite copy_out_length.
  destruct Hwf as (_ & Hw & Hr). rewrite buffer_size_value in *.
  Z.div_mod_to_equations; lia.
Qed.

(** While capture runs, a successful [i2s_read] of a non-empty block appends
    the block to the unread samples and keeps the newest
    [AUDIO_BUFFER_SIZE - 1] of them: on overflow the oldest samples are
    dropped, never the new ones.  [audio_frames_available] grows by the
    block length up to that capacity, and the level reported by
    [audio_get_level] is the RMS of the block just read. *)
Theorem audio_process_ingests (rd : Audio.i2s_result) (a : Audio.t) :
  RingClient.wf a ->
  Audio.is_running a = true ->
  Audio.i2s_ok rd = true ->
  Audio.i2s_samples rd <> [] ->
  let n := Z.of_nat (length (Audio.i2s_samples rd)) in
  let a' := Audio.audio_process rd a in
  let kept := Z.min (Audio.audio_frames_available a + n) (AUDIO_BUFFER_SIZE - 1) in
  Audio.audio_frames_available a' = kept /\
  RingClient.unread a'
  = drop (Z.to_nat (Audio.audio_frames_available a + n - kept))
         (RingClient.unread a ++ Audio.i2s_samples rd) /\
  Audio.current_level a' = Audio.calculate_rms (Audio.i2s_samples rd) n.
Proof.
  intros Hwf Hrun Hok Hne. cbv zeta.
  destruct (audio_process_unread rd a Hwf) as (Hwf' & Hu & _).
  pose proof (unread_length a Hwf) as Hlen.
  assert (Hcap : Z.of_nat (length (RingClient.unread a)) <= AUDIO_BUFFER_SIZE - 1).
  { rewrite Hlen, frames_available_mod by exact Hwf.
    rewrite buffer_size_value. Z.div_mod_to_equations; lia. }
  assert (Hfeed : Fifo.feed true rd (RingClient.unread a)
                  = fold_left Fifo.push (Audio.i2s_samples rd) (RingClient.unread a)).
  { unfold Fifo.feed. rewrite Hok. cbn [negb orb].
    destruct (Audio.i2s_samples rd); [congruence|]. reflexivity. }
  rewrite Hrun, Hfeed, fifo_push_all_drop in Hu by exact Hcap.
  rewrite Hlen in Hu.
  split; [|split].
  - rewrite <- (unread_length _ Hwf'), Hu, length_drop, length_app.
    rewrite buffer_size_value in *. lia.
  - exact Hu.
  - unfold Audio.audio_process. rewrite Hrun, Hok. cbn [negb orb].
    destruct (Audio.i2s_samples rd) eqn:E; [congruence|]. reflexivity.
Qed.


(** ** Capture: start, stop, init *)

(** [audio_start] is refused before [audio_init] (nothing changes);
    otherwise it sets the running flag.  Neither [audio_start] nor
    [audio_stop] touches the buffered samples, and stopping a capture that
    was started from rest gives back the state before the start. *)
Theorem audio_start_stop (a : Audio.t) :
  (Audio.is_initialized a = false -> Audio.audio_start a = a) /\
  (Audio.is_initialized a = true ->
     Audio.is_running (Audio.audio_start a) = true) /\
  Audio.is_running (Audio.audio_stop a) = false /\
  (Audio.is_running a = false -> Audio.audio_stop (Audio.audio_start a) = a) /\
  RingClient.unread (Audio.audio_start a) = RingClient.unread a /\
  RingClient.unread (Audio.audio_stop a) = RingClient.unread a /\
  Audio.audio_frames_available (Audio.audio_stop (Audio.audio_start a))
  = Audio.audio_frames_available a.
Proof.
  unfold Audio.audio_start, Audio.audio_stop.
  destruct a as [buf w r ini run lvl]; destruct ini, run; cbn;
    repeat split; intros; try reflexivity; try discriminate.
Qed.

(** [audio_init] is idempotent: on an initialised module it reports success
    and changes nothing.  On a fresh module it reports what the I2S driver
    reported, and leaves an empty ring (both cursors 0, inside the buffer)
    whether the driver was configured or not. *)
Theorem audio_init_outcomes (configured : bool) (a : Audio.t) :
  (Audio.is_initialized a = true ->
     Audio.audio_init configured a = (true, a)) /\
  (Audio.is_initialized a = false ->
     let a' := snd (Audio.audio_init configured a) in
     fst (Audio.audio_init configured a) = configured /\
     Audio.is_initialized a' = configured /\
     RingClient.wf a' /\
     Audio.audio_frames_available a' = 0 /\
     RingClient.unread a' = [] /\
     Audio.is_running a' = Audio.is_running a).
Proof.
  unfold Audio.audio_init. split; intros Hi; rewrite Hi; [reflexivity|].
  assert (Hwf : forall b r l,
            RingClient.wf
              {| Audio.audio_buffer := replicate (Z.to_nat AUDIO_BUFFER_SIZE) 0;
                 Audio.write_index := 0; Audio.read_index := 0;
                 Audio.is_initialized := b; Audio.is_running := r;
                 Audio.current_level := l |}).
  { intros b r l. unfold RingClient.wf. cbn [Audio.audio_buffer Audio.write_index Audio.read_index].
    rewrite length_replicate, buffer_size_value. lia. }
  destruct configured; cbn [negb fst snd]; cbv zeta;
    (split; [reflexivity|]; split; [try exact Hi; reflexivity|];
     split; [apply Hwf|]; split; [reflexivity|]; split; reflexivity).
Qed.

(** ** VAD: the adaptive noise floor *)

Lemma update_noise_floor_clamps (e : F32.t) (v : Vad.t) :
  Vad.current_state v = VAD_STATE_SILENCE ->
  noise_floor_clamped (Vad.noise_floor (Vad.update_noise_floor e v)).
Proof.
  intros Hs. unfold Vad.update_noise_floor, noise_floor_clamped. rewrite Hs.
  cbn [Vad.with_noise_floor Vad.noise_floor].
  set (nf := F32.add _ _).
  destruct (F32.ltb nf Vad.c_0_001) eqn:Hlo.
  - split; vm_compute; reflexivity.
  - destruct (F32.gtb nf Vad.c_0_1) eqn:Hhi.
    + split; vm_compute; reflexivity.
    + split; assumption.
Qed.

Lemma update_noise_floor_speaking (e : F32.t) (v : Vad.t) :
  Vad.current_state v <> VAD_STATE_SILENCE ->
  Vad.update_noise_floor e v = v.
Proof.
  unfold Vad.update_noise_floor.
  destruct (Vad.current_state v); [congruence | reflexivity | reflexivity].
Qed.

Lemma transition_to_noise_floor (ns : VADState) (now : Z) (v : Vad.t) :
  Vad.noise_floor (Vad.transition_to ns now v) = Vad.noise_floor v /\
  Vad.adaptive_enabled (Vad.transition_to ns now v) = Vad.adaptive_enabled v /\
  Vad.energy_threshold (Vad.transition_to ns now v) = Vad.energy_threshold v.
Proof.
  unfold Vad.transition_to. destruct (VADState_eqb _ _); repeat split.
Qed.

Lemma step_machine_noise_floor (speech : bool) (e : F32.t) (now : Z)
      (v : Vad.t) :
  Vad.noise_floor (Vad.step_machine speech e now v) = Vad.noise_floor v /\
  Vad.adaptive_enabled (Vad.step_machine speech e now v)
  = Vad.adaptive_enabled v /\
  Vad.energy_threshold (Vad.step_machine speech e now v)
  = Vad.energy_threshold v.
Proof.
  unfold Vad.step_machine.
  destruct (Vad.current_state v), speech; cbn [negb];
    try (repeat split; reflexivity);
    try apply transition_to_noise_floor.
  - destruct (transition_to_noise_floor VAD_STATE_HANGOVER now
                (Vad.accumulate e v)) as (H1 & H2 & H3).
    rewrite H1, H2, H3. repeat split.
  - destruct (_ >? _); [apply transition_to_noise_floor | repeat split].
Qed.

Lemma vad_process_noise_floor (frame : option AudioFrame) (v : Vad.t) :
  let v' := snd (Vad.vad_process frame v) in
  (noise_floor_clamped (Vad.noise_floor v) ->
   noise_floor_clamped (Vad.noise_floor v')) /\
  (Vad.adaptive_enabled v = false \/
   Vad.current_state v <> VAD_STATE_SILENCE ->
   Vad.noise_floor v' = Vad.noise_floor v) /\
  Vad.adaptive_enabled v' = Vad.adaptive_enabled v /\
  Vad.energy_threshold v' = Vad.energy_threshold v.
Proof.
  cbv zeta. unfold Vad.vad_process.
  destruct frame as [f|]; [|cbn; auto].
  destruct (valid f); cbn [negb snd]; [|auto].
  match goal with
  | |- context [Vad.step_machine ?sp ?e ?now ?v1] =>
      destruct (step_machine_noise_floor sp e now v1) as (H1 & H2 & H3);
      rewrite H1, H2, H3
  end.
  destruct (Vad.adaptive_enabled v) eqn:Had.
  - split; [|split; [|split]].
    + intros Hc. destruct (Vad.current_state v) eqn:Hs.
      * apply update_noise_floor_clamps. exact Hs.
      * rewrite update_noise_floor_speaking by congruence. exact Hc.
      * rewrite update_noise_floor_speaking by congruence. exact Hc.
    + intros [H | H]; [discriminate|].
      rewrite update_noise_floor_speaking by exact H. reflexivity.
    + unfold Vad.update_noise_floor. destruct (Vad.current_state v); cbn; auto.
    + unfold Vad.update_noise_floor. destruct (Vad.current_state v); cbn; auto.
  - auto.
Qed.

Lemma vad_get_segment_noise_floor (seg : option SpeechSegment) (v : Vad.t) :
  Vad.noise_floor (snd (Vad.vad_get_segment seg v)) = Vad.noise_floor v.
Proof.
  unfold Vad.vad_get_segment. destruct seg; [|reflexivity].
  destruct (Vad.segment_ready v); reflexivity.
Qed.

(** Invariant of the adaptive threshold: whatever frames are processed and
    whenever segments are fetched, a noise floor that tests neither below
    0.001 nor above 0.1 (as it does after [vad_init]) never tests below
    0.001 or above 0.1 afterwards. *)
Theorem noise_floor_stays_clamped (cs : list VadClient.call) :
  forall v : Vad.t,
    noise_floor_clamped (Vad.noise_floor v) ->
    noise_floor_clamped (Vad.noise_floor (snd (VadClient.calls cs v))).
Proof.
  induction cs as [|[frame|] cs IH]; intros v Hc.
  - exact Hc.
  - cbn [VadClient.calls]. apply IH.
    apply (vad_process_noise_floor frame v). exact Hc.
  - cbn [VadClient.calls].
    pose proof (vad_get_segment_noise_floor (Some Main.stack_segment) v) as Hn.
    destruct (Vad.vad_get_segment (Some Main.stack_segment) v)
      as [[got seg] v'].
    cbn [snd] in Hn.
    assert (Hc' : noise_floor_clamped (Vad.noise_floor v'))
      by (rewrite Hn; exact Hc).
    specialize (IH v' Hc').
    destruct got; [|exact IH]. destruct seg; [|exact IH].
    destruct (VadClient.calls cs v') as [segs v'']. exact IH.
Qed.

Lemma noise_floor_stays_clamped_witness :
  noise_floor_clamped
    (Vad.noise_floor
       (snd (VadClient.calls (VadClient.drained Demo.interrupted)
                             (Vad.vad_set_adaptive true Demo.vad0)))).
Proof.
  apply (noise_floor_stays_clamped (VadClient.drained Demo.interrupted)
           (Vad.vad_set_adaptive true Demo.vad0)).
  split; vm_compute; reflexivity.
Defined.

(** ** VAD: the state machine *)

Lemma frame_is_speech_above (e zcr thr : F32.t) :
  Vad.frame_is_speech e zcr thr = true -> F32.gtb e thr = true.
Proof.
  unfold Vad.frame_is_speech. destruct (F32.gtb e thr); [reflexivity|].
  cbn. auto.
Qed.

Lemma transition_to_state (ns : VADState) (now : Z) (v : Vad.t) :
  Vad.current_state (Vad.transition_to ns now v) = ns.
Proof.
  unfold Vad.transition_to.
  destruct (Vad.current_state v) eqn:Hs, ns; cbn; try reflexivity; exact Hs.
Qed.

(** One valid frame moves the state machine along one of its arrows only
    (never Silence -> Hangover, never Speech -> Silence), the result
    reports the new state, [is_speech] holds exactly outside Silence, the
    silence timer reads 0 while speech is reported, and the arrow
    Silence -> Speech is taken only by a frame whose energy is above the
    effective threshold, which stamps the start of the speech and of the
    pending segment and clears the frame count. *)
Theorem vad_process_arrows (f : AudioFrame) (v : Vad.t) :
  valid f = true ->
  let r := fst (Vad.vad_process (Some f) v) in
  let v' := snd (Vad.vad_process (Some f) v) in
  vad_arrow (Vad.current_state v) (Vad.current_state v') = true /\
  state r = Vad.current_state v' /\
  is_speech r = negb (VADState_eqb (Vad.current_state v') VAD_STATE_SILENCE) /\
  (is_speech r = true ->
     speech_start r = Vad.speech_start_time v' /\
     forall now : Z, Vad.vad_silence_duration now v' = 0) /\
  (is_speech r = false -> speech_start r = 0 /\ speech_duration_ms r = 0) /\
  (Vad.current_state v = VAD_STATE_SILENCE ->
   Vad.current_state v' = VAD_STATE_SPEECH ->
     F32.gtb (energy r) (threshold r) = true /\
     Vad.speech_start_time v' = timestamp_ms f /\
     start_ms (Vad.pending_segment v') = timestamp_ms f /\
     Vad.segment_frame_count v' = 0).
Proof.
  intros Hv. cbv zeta. unfold Vad.vad_process. rewrite Hv. cbn [negb fst snd].
  set (e := Vad.calculate_energy _ _). set (zcr := Vad.calculate_zcr _ _).
  set (v1 := if Vad.adaptive_enabled v then _ else v).
  assert (Hs1 : Vad.current_state v1 = Vad.current_state v).
  { subst v1. destruct (Vad.adaptive_enabled v); [|reflexivity].
    unfold Vad.update_noise_floor.
    destruct (Vad.current_state v) eqn:E; cbn; rewrite ?E; reflexivity. }
  set (thr := Vad.get_effective_threshold v1).
  pose proof (frame_is_speech_above e zcr thr) as Habove.
  destruct (Vad.frame_is_speech e zcr thr) eqn:Hsp.
  all: unfold Vad.step_machine; rewrite Hs1.
  all: destruct (Vad.current_state v) eqn:Hs; cbn [negb].
  all: rewrite ?transition_to_state.
  all: try rewrite Hs1.
  all: cbn [Vad.accumulate Vad.current_state VADState_eqb orb negb vad_arrow
            is_speech state speech_start speech_duration_ms energy threshold].
  all: try rewrite Hs.
  all: cbn [VADState_eqb orb negb vad_arrow].
  all: try (destruct (u32 (timestamp_ms f - Vad.state_start_time v1)
                      >? VAD_HANGOVER_MS);
            rewrite ?transition_to_state, ?Hs1, ?Hs;
            cbn [VADState_eqb orb negb vad_arrow]).
  all: repeat split; try reflexivity; try discriminate; try congruence.
  all: try (apply Habove; reflexivity).
  all: try (intros now; unfold Vad.vad_silence_duration;
            rewrite ?transition_to_state; cbn [Vad.accumulate Vad.current_state];
            rewrite ?Hs1; reflexivity).
  all: try (unfold Vad.transition_to; rewrite Hs1; reflexivity).
Qed.

(** ** VAD: the configured threshold *)

Lemma same_but_threshold_eta (v w : Vad.t) :
  same_but_threshold v w ->
  w = {| Vad.energy_threshold := Vad.energy_threshold w;
         Vad.adaptive_enabled := Vad.adaptive_enabled v;
         Vad.current_state := Vad.current_state v;
         Vad.state_start_time := Vad.state_start_time v;
         Vad.last_speech_time := Vad.last_speech_time v;
         Vad.speech_start_time := Vad.speech_start_time v;
         Vad.noise_floor := Vad.noise_floor v;
         Vad.pending_segment := Vad.pending_segment v;
         Vad.segment_ready := Vad.segment_ready v;
         Vad.segment_energy_sum := Vad.segment_energy_sum v;
         Vad.segment_frame_count := Vad.segment_frame_count v |}.
Proof.
  intros (H1 & H2 & H3 & H4 & H5 & H6 & H7 & H8 & H9 & H10).
  destruct w; cbn in *. congruence.
Qed.

Lemma vad_process_ignores_threshold (frame : option AudioFrame)
      (v w : Vad.t) :
  same_but_threshold v w ->
  Vad.adaptive_enabled v = true ->
  fst (Vad.vad_process frame w) = fst (Vad.vad_process frame v) /\
  same_but_threshold (snd (Vad.vad_process frame v))
                     (snd (Vad.vad_process frame w)).
Proof.
  intros Hsame Ha. rewrite (same_but_threshold_eta v w Hsame).
  generalize (Vad.energy_threshold w). intros T. clear Hsame w.
  destruct v as [thr ad cs t0 t1 t2 nf seg rdy sum cnt].
  cbn in Ha. subst ad.
  unfold Vad.vad_process, Vad.get_effective_threshold.
  cbn [Vad.adaptive_enabled Vad.noise_floor Vad.current_state].
  destruct frame as [f|]; [|split; [reflexivity | repeat split]].
  destruct (valid f); cbn [negb]; [|split; [reflexivity | repeat split]].
  set (e := Vad.calculate_energy _ _). set (zcr := Vad.calculate_zcr _ _).
  unfold Vad.update_noise_floor, Vad.step_machine, Vad.transition_to.
  destruct cs; cbn.
  - destruct (Vad.frame_is_speech e zcr _); cbn;
      (split; [reflexivity | repeat split]).
  - destruct (Vad.frame_is_speech e zcr _); cbn;
      (split; [reflexivity | repeat split]).
  - destruct (Vad.frame_is_speech e zcr _); cbn;
      [split; [reflexivity | repeat split]|].
    destruct (u32 (timestamp_ms f - t0) >? VAD_HANGOVER_MS); cbn;
      (split; [reflexivity | repeat split]).
Qed.

(** [vad_set_threshold] stores its argument clamped to [0.001, 1] (the
    argument itself when it is inside) and touches nothing else.  With the
    adaptive threshold on, the stored value is not used: the effective
    threshold and the outcome of every later frame are the same as without
    the call. *)
Theorem vad_set_threshold_clamps (thr : F32.t) (v : Vad.t) :
  let v' := Vad.vad_set_threshold thr v in
  F32.ltb (Vad.energy_threshold v') Vad.c_0_001 = false /\
  F32.gtb (Vad.energy_threshold v') F32.one = false /\
  (F32.ltb thr Vad.c_0_001 = false -> F32.gtb thr F32.one = false ->
     Vad.energy_threshold v' = thr) /\
  same_but_threshold v v' /\
  (Vad.adaptive_enabled v = false ->
     Vad.vad_get_threshold v' = Vad.energy_threshold v') /\
  (Vad.adaptive_enabled v = true ->
     Vad.vad_get_threshold v' = Vad.vad_get_threshold v /\
     forall frame : option AudioFrame,
       fst (Vad.vad_process frame v') = fst (Vad.vad_process frame v) /\
       same_but_threshold (snd (Vad.vad_process frame v))
                          (snd (Vad.vad_process frame v'))).
Proof.
  cbv zeta.
  assert (Hsame : same_but_threshold v (Vad.vad_set_threshold thr v))
    by (repeat split).
  unfold Vad.vad_set_threshold at 1 2 3.
  set (t1 := if F32.ltb thr Vad.c_0_001 then Vad.c_0_001 else thr).
  set (t2 := if F32.gtb t1 F32.one then F32.one else t1).
  cbn [Vad.energy_threshold].
  assert (Hlo : F32.ltb t2 Vad.c_0_001 = false /\ F32.gtb t2 F32.one = false).
  { subst t2 t1. destruct (F32.ltb thr Vad.c_0_001) eqn:E1.
    - split; vm_compute; reflexivity.
    - destruct (F32.gtb thr F32.one) eqn:E2.
      + split; vm_compute; reflexivity.
      + split; assumption. }
  destruct Hlo as [Hlo Hhi].
  split; [exact Hlo|]. split; [exact Hhi|]. split.
  { intros E1 E2. subst t2 t1. rewrite E1, E2. reflexivity. }
  split; [exact Hsame|]. split.
  { intros Ha. unfold Vad.vad_get_threshold, Vad.get_effective_threshold.
    cbn. rewrite Ha. reflexivity. }
  intros Ha. split.
  { unfold Vad.vad_get_threshold, Vad.get_effective_threshold.
    cbn. rewrite Ha. reflexivity. }
  intros frame. apply vad_process_ignores_threshold; assumption.
Qed.

(** ** The session's event counter *)

Lemma u16_u16_add (a b : Z) : u16 (u16 a + b) = u16 (a + b).
Proof. unfold u16. apply Zplus_mod_idemp_l. Qed.

Lemma u16_range (z : Z) : 0 <= u16 z < 2 ^ 16.
Proof. unfold u16. apply Z.mod_pos_bound. reflexivity. Qed.

Lemma counts_sent_trans (s1 s2 s3 : Main.system) :
  counts_sent s1 s2 -> counts_sent s2 s3 -> counts_sent s1 s3.
Proof.
  intros H1 H2 Hok. destruct (H1 Hok) as (n1 & Ht1 & Hc1).
  destruct H2 as (n2 & Ht2 & Hc2).
  { unfold counter_ok. rewrite Hc1. apply u16_range. }
  exists (n1 ++ n2). split.
  - rewrite Ht2, Ht1, app_assoc. reflexivity.
  - rewrite Hc2, Hc1, u16_u16_add, filter_app, length_app. f_equal. lia.
Qed.

(** A step that sends nothing and leaves the counter alone. *)
Lemma counts_sent_quiet (s s' : Main.system) (new : list output) :
  Main.trace s' = Main.trace s ++ new ->
  filter is_sent new = [] ->
  Main.session_event_count (Main.core s')
  = Main.session_event_count (Main.core s) ->
  counts_sent s s'.
Proof.
  intros Ht Hf Hc Hok. exists new. split; [exact Ht|].
  rewrite Hf, Hc. cbn. rewrite Z.add_0_r. unfold u16.
  symmetry. apply Z.mod_small. exact Hok.
Qed.

Lemma counts_sent_refl (s : Main.system) : counts_sent s s.
Proof.
  apply counts_sent_quiet with (new := []);
    [rewrite app_nil_r; reflexivity | reflexivity | reflexivity].
Qed.

Lemma send_event_counts (ty : BLEEventType) (x : F32.t) (now : Z)
      (s : Main.system) :
  counts_sent s (Main.send_event ty x now s).
Proof.
  intros Hok. eexists. split; [apply send_event_trace|].
  unfold Main.send_event. destruct (Main.device_connected s); cbn.
  - reflexivity.
  - rewrite Z.add_0_r. unfold u16. symmetry. apply Z.mod_small. exact Hok.
Qed.

(** Appending a feedback call or rewriting fields other than the counter. *)
Lemma counts_sent_feedback (ty : FeedbackType) (x : F32.t) (s : Main.system) :
  counts_sent s (Main.feedback_trigger ty x s).
Proof. apply counts_sent_quiet with (new := [OutFeedback ty x]); reflexivity. Qed.

Lemma counts_sent_turn (w : bool) (c : Z) (k : bool) (s : Main.system) :
  counts_sent s (Main.with_core (Main.set_turn w c k (Main.core s)) s).
Proof.
  apply counts_sent_quiet with (new := []);
    [cbn; rewrite app_nil_r; reflexivity | reflexivity | reflexivity].
Qed.

Lemma process_speech_segment_counts (seg : SpeechSegment) (now : Z)
      (s : Main.system) :
  counts_sent s (Main.process_speech_segment seg now s).
Proof.
  unfold Main.process_speech_segment.
  destruct (Main.is_child seg).
  - eapply counts_sent_trans; [apply send_event_counts|].
    apply counts_sent_turn.
  - destruct (Main.waiting_for_response (Main.core s));
      [|apply counts_sent_refl].
    destruct (_ <=? _).
    + eapply counts_sent_trans; [apply send_event_counts|].
      eapply counts_sent_trans; [apply counts_sent_feedback|].
      apply counts_sent_turn.
    + apply counts_sent_turn.
Qed.

Lemma check_missed_opportunity_counts (t1 t2 : Z) (s : Main.system) :
  counts_sent s (Main.check_missed_opportunity t1 t2 s).
Proof.
  unfold Main.check_missed_opportunity.
  destruct (Main.waiting_for_response (Main.core s)); cbn [negb];
    [|apply counts_sent_refl].
  destruct (_ >=? _); [|apply counts_sent_refl].
  eapply counts_sent_trans; [apply send_event_counts|].
  eapply counts_sent_trans; [apply counts_sent_feedback|].
  apply counts_sent_turn.
Qed.

Lemma process_frame_counts (tk : Main.tick) (frame : option AudioFrame)
      (s : Main.system) :
  counts_sent s (Main.process_frame tk frame s).
Proof.
  unfold Main.process_frame.
  destruct (Vad.vad_process frame (Main.vad s)) as [r v1].
  destruct (Vad.vad_get_segment (Some Main.stack_segment) v1) as [[got seg] v2].
  eapply counts_sent_trans with (s2 := Main.with_vad v2 s).
  { apply counts_sent_quiet with (new := []);
      [cbn; rewrite app_nil_r; reflexivity | reflexivity | reflexivity]. }
  eapply counts_sent_trans.
  2:{ apply counts_sent_quiet with (new := []);
      [cbn; rewrite app_nil_r; reflexivity | reflexivity | reflexivity]. }
  destruct got; [|apply counts_sent_refl].
  destruct seg; [|apply counts_sent_refl].
  apply process_speech_segment_counts.
Qed.

Lemma session_tick_counts (tk : Main.tick) (s : Main.system) :
  counts_sent s (Main.session_tick tk s).
Proof.
  unfold Main.session_tick.
  destruct (Audio.audio_get_frame _ _ _) as [[got frame] a1].
  eapply counts_sent_trans with (s2 := Main.with_audio a1 s).
  { apply counts_sent_quiet with (new := []);
      [cbn; rewrite app_nil_r; reflexivity | reflexivity | reflexivity]. }
  eapply counts_sent_trans; [|apply check_missed_opportunity_counts].
  destruct got; [apply process_frame_counts | apply counts_sent_refl].
Qed.

Lemma on_session_control_stop_counts (t1 t2 : Z) (s : Main.system) :
  counts_sent s (Main.on_session_control false t1 t2 s).
Proof.
  unfold Main.on_session_control. cbn [andb negb].
  destruct (Main.session_active (Main.core s)); [|apply counts_sent_refl].
  eapply counts_sent_quiet with (new := [_]); reflexivity.
Qed.

Lemma ble_process_counts (s : Main.system) :
  counts_sent s (Main.ble_process s).
Proof.
  unfold Main.ble_process.
  destruct (Bool.eqb _ _); [apply counts_sent_refl|].
  eapply counts_sent_trans.
  2:{ apply counts_sent_quiet with (new := []);
      [cbn; rewrite app_nil_r; reflexivity | reflexivity | reflexivity]. }
  unfold Main.on_ble_connection.
  destruct (Main.device_connected s); [apply counts_sent_feedback|].
  eapply counts_sent_trans; [apply counts_sent_feedback|].
  destruct (Main.session_active _);
    [apply on_session_control_stop_counts | apply counts_sent_refl].
Qed.

Lemma status_update_counts (now : Z) (s : Main.system) :
  counts_sent s (Main.status_update now s).
Proof.
  unfold Main.status_update.
  destruct (_ >? _); [|apply counts_sent_refl].
  unfold Main.estimate_battery.
  destruct (_ && _); cbn;
    (eapply counts_sent_quiet with (new := [_]); reflexivity).
Qed.

Lemma debug_output_counts (now : Z) (s : Main.system) :
  counts_sent s (Main.debug_output now s).
Proof.
  unfold Main.debug_output.
  destruct (_ >? _); [|apply counts_sent_refl].
  apply counts_sent_quiet with (new := []);
    [cbn; rewrite app_nil_r; reflexivity | reflexivity | reflexivity].
Qed.

Lemma loop_counts (tk : Main.tick) (s : Main.system) :
  counts_sent s (Main.loop tk s).
Proof.
  unfold Main.loop.
  eapply counts_sent_trans; [|apply debug_output_counts].
  eapply counts_sent_trans; [|apply status_update_counts].
  eapply counts_sent_trans; [apply ble_process_counts|].
  eapply counts_sent_trans.
  { apply counts_sent_quiet with (new := [])
      (s' := Main.with_audio
               (Audio.audio_process (Main.t_i2s tk)
                  (Main.audio (Main.ble_process s))) (Main.ble_process s));
      [cbn; rewrite app_nil_r; reflexivity | reflexivity | reflexivity]. }
  cbn [Main.with_audio Main.core].
  destruct (Main.session_active (Main.core (Main.ble_process s)));
    [apply session_tick_counts | apply counts_sent_refl].
Qed.

Lemma step_counts (s : Main.system) (i : Main.input) :
  is_start i = false -> counts_sent s (Main.step s i).
Proof.
  intros Hi. destruct i as [| |start t1 t2|tk]; cbn [Main.step].
  - apply counts_sent_quiet with (new := []);
      [cbn; rewrite app_nil_r; reflexivity | reflexivity | reflexivity].
  - apply counts_sent_quiet with (new := []);
      [cbn; rewrite app_nil_r; reflexivity | reflexivity | reflexivity].
  - cbn in Hi. subst start. apply on_session_control_stop_counts.
  - apply loop_counts.
Qed.

Lemma run_counts (ins : list Main.input) :
  forall s : Main.system,
    forallb (fun i => negb (is_start i)) ins = true ->
    counts_sent s (Main.run s ins).
Proof.
  induction ins as [|i ins IH]; intros s Hall.
  - apply counts_sent_refl.
  - cbn [forallb] in Hall. apply andb_true_iff in Hall as [Hi Hall].
    cbn [Main.run fold_left]. eapply counts_sent_trans.
    + apply step_counts. apply negb_true_iff. exact Hi.
    + apply IH. exact Hall.
Qed.

(** From the start of a session on, [session_event_count] is the number
    of events the transport accepted since that start, modulo 2^16: events
    refused by [ble_send_event] are not counted. *)
Theorem event_counter_counts_sent_events (s : Main.system)
        (t_session t_reset : Z) (ins : list Main.input) :
  Main.session_active (Main.core s) = false ->
  forallb (fun i => negb (is_start i)) ins = true ->
  let s0 := Main.on_session_control true t_session t_reset s in
  Main.session_event_count (Main.core (Main.run s0 ins))
  = u16 (Z.of_nat
           (length
              (filter is_sent
                 (drop (length (Main.trace s0))
                       (Main.trace (Main.run s0 ins)))))).
Proof.
  intros Ha Hall. cbv zeta.
  set (s0 := Main.on_session_control true t_session t_reset s).
  assert (H0 : Main.session_event_count (Main.core s0) = 0).
  { subst s0. unfold Main.on_session_control. rewrite Ha. reflexivity. }
  destruct (run_counts ins s0 Hall) as (new & Ht & Hc).
  { unfold counter_ok. rewrite H0. split; [lia|reflexivity]. }
  rewrite Hc, H0, Ht, drop_app_length. reflexivity.
Qed.

(** ** Outside a session *)

Lemma step_inactive (s : Main.system) (i : Main.input) :
  Main.session_active (Main.core s) = false ->
  is_start i = false ->
  Main.session_active (Main.core (Main.step s i)) = false /\
  Main.vad (Main.step s i) = Main.vad s /\
  filter is_event (Main.trace (Main.step s i))
  = filter is_event (Main.trace s).
Proof.
  intros Ha Hi. destruct i as [| |start t1 t2|tk]; cbn [Main.step].
  - cbn. auto.
  - cbn. auto.
  - cbn in Hi. subst start. unfold Main.on_session_control. rewrite Ha.
    cbn. auto.
  - destruct (loop_inactive tk s Ha) as (H1 & H2 & _ & H3). auto.
Qed.

(** While no session is active and no start command arrives, whatever
    connects, disconnects, stop commands and passes of [loop] occur (with
    any microphone data), no conversational event is emitted and the VAD is
    not touched. *)
Theorem no_event_outside_session (ins : list Main.input) :
  forall s : Main.system,
    Main.session_active (Main.core s) = false ->
    forallb (fun i => negb (is_start i)) ins = true ->
    session_events s ins = [] /\
    Main.session_active (Main.core (Main.run s ins)) = false /\
    Main.vad (Main.run s ins) = Main.vad s.
Proof.
  assert (Hrun : forall ins s,
    Main.session_active (Main.core s) = false ->
    forallb (fun i => negb (is_start i)) ins = true ->
    Main.session_active (Main.core (Main.run s ins)) = false /\
    Main.vad (Main.run s ins) = Main.vad s /\
    filter is_event (Main.trace (Main.run s ins))
    = filter is_event (Main.trace s)).
  { induction ins0 as [|i ins0 IH]; intros s Ha Hall; [cbn; auto|].
    cbn [forallb] in Hall. apply andb_true_iff in Hall as [Hi Hall].
    cbn [Main.run fold_left].
    destruct (step_inactive s i Ha) as (H1 & H2 & H3);
      [apply negb_true_iff; exact Hi|].
    destruct (IH (Main.step s i) H1 Hall) as (H4 & H5 & H6).
    fold (Main.run (Main.step s i) ins0).
    rewrite H5, H6. auto. }
  intros s Ha Hall. destruct (Hrun ins s Ha Hall) as (H1 & H2 & H3).
  split; [|auto].
  unfold session_events.
  destruct (run_serve ins s) as (new & Ht & _).
  rewrite Ht, drop_app_length.
  rewrite Ht, filter_app in H3.
  rewrite <- (app_nil_r (filter is_event (Main.trace s))) in H3 at 2.
  apply app_inv_head in H3. exact H3.
Qed.

(** ** A disconnect *)

(** The pass of [loop] that notices a lost connection ends the session:
    the session flag is cleared, the VAD is left as it is and no event is
    emitted in that pass; if a session was active, capture is stopped with
    the unread samples kept, and the DISCONNECTED feedback is triggered,
    then SESSION_END. *)
Theorem disconnect_stops_session (tk : Main.tick) (s : Main.system) :
  Main.device_connected s = false ->
  Main.old_device_connected s = true ->
  let s' := Main.loop tk s in
  Main.session_active (Main.core s') = false /\
  Main.old_device_connected s' = false /\
  Main.vad s' = Main.vad s /\
  filter is_event (Main.trace s') = filter is_event (Main.trace s) /\
  (Main.session_active (Main.core s) = true ->
     Audio.is_running (Main.audio s') = false /\
     RingClient.unread (Main.audio s') = RingClient.unread (Main.audio s) /\
     exists rest : list output,
       Main.trace s'
       = Main.trace s
         ++ [OutFeedback FEEDBACK_DISCONNECTED Main.c_0_5;
             OutFeedback FEEDBACK_SESSION_END F32.one] ++ rest).
Proof.
  intros Hd Ho. cbv zeta. unfold Main.loop.
  set (s1 := Main.ble_process s).
  assert (H1 : Main.session_active (Main.core s1) = false /\
               Main.old_device_connected s1 = false /\
               Main.vad s1 = Main.vad s /\
               Main.waiting_for_response (Main.core s1)
               = Main.waiting_for_response (Main.core s) /\
               (Main.session_active (Main.core s) = true ->
                Main.audio s1 = Audio.audio_stop (Main.audio s) /\
                Main.trace s1
                = Main.trace s
                  ++ [OutFeedback FEEDBACK_DISCONNECTED Main.c_0_5;
                      OutFeedback FEEDBACK_SESSION_END F32.one]) /\
               filter is_event (Main.trace s1)
               = filter is_event (Main.trace s)).
  { subst s1. unfold Main.ble_process, Main.on_ble_connection.
    rewrite Hd, Ho. cbn [Bool.eqb Main.feedback_trigger Main.emit Main.core].
    unfold Main.on_session_control. cbn [andb negb Main.core].
    destruct (Main.session_active (Main.core s)) eqn:Ha; cbn; rewrite ?Ha; cbn.
    - rewrite Hd. repeat split; try reflexivity.
      + rewrite <- app_assoc. reflexivity.
      + rewrite !filter_app. cbn. rewrite !app_nil_r. reflexivity.
    - rewrite ?Ha, ?Hd. repeat split; try reflexivity; try discriminate.
      rewrite filter_app. cbn. rewrite app_nil_r. reflexivity. }
  destruct H1 as (Ha1 & Ho1 & Hv1 & Hw1 & Hact & Hev1).
  cbn [Main.with_audio Main.core]. rewrite Ha1.
  set (s2 := Main.with_audio _ s1).
  assert (H2 : Main.core s2 = Main.core s1 /\ Main.vad s2 = Main.vad s1 /\
               Main.trace s2 = Main.trace s1 /\
               Main.old_device_connected s2 = Main.old_device_connected s1 /\
               Main.audio s2
               = Audio.audio_process (Main.t_i2s tk) (Main.audio s1))
    by (subst s2; cbn; auto).
  destruct H2 as (Hc2 & Hv2 & Ht2 & Ho2 & Hau2). clearbody s2.
  destruct (status_update_turn (Main.t_loop tk) s2) as (rest & Hr & _).
  assert (H3 : Main.session_active (Main.core (Main.status_update (Main.t_loop tk) s2)) = false /\
               Main.vad (Main.status_update (Main.t_loop tk) s2) = Main.vad s2 /\
               Main.old_device_connected (Main.status_update (Main.t_loop tk) s2)
               = Main.old_device_connected s2 /\
               Main.audio (Main.status_update (Main.t_loop tk) s2) = Main.audio s2 /\
               filter is_event rest = []).
  { revert Hr. unfold Main.status_update, Main.estimate_battery.
    rewrite Hc2, Ha1. cbn [andb].
    destruct (_ >? _); cbn; intros Hr.
    - rewrite ?Hc2, ?Ha1. repeat split; try reflexivity.
      apply app_inv_head in Hr. subst rest. reflexivity.
    - rewrite ?Hc2, ?Ha1. repeat split; try reflexivity.
      rewrite <- (app_nil_r (Main.trace s2)) in Hr at 1.
      apply app_inv_head in Hr. subst rest. reflexivity. }
  destruct H3 as (Ha3 & Hv3 & Ho3 & Hau3 & Hev3).
  set (s3 := Main.status_update (Main.t_loop tk) s2) in *. clearbody s3.
  assert (H4 : Main.session_active (Main.core (Main.debug_output (Main.t_loop tk) s3)) = false /\
               Main.vad (Main.debug_output (Main.t_loop tk) s3) = Main.vad s3 /\
               Main.old_device_connected (Main.debug_output (Main.t_loop tk) s3)
               = Main.old_device_connected s3 /\
               Main.audio (Main.debug_output (Main.t_loop tk) s3) = Main.audio s3 /\
               Main.trace (Main.debug_output (Main.t_loop tk) s3) = Main.trace s3).
  { unfold Main.debug_output. destruct (_ >? _); cbn; auto. }
  destruct H4 as (Ha4 & Hv4 & Ho4 & Hau4 & Ht4).
  split; [exact Ha4|]. split; [congruence|]. split; [congruence|].
  split.
  { rewrite Ht4, Hr, filter_app, Hev3, app_nil_r, Ht2. exact Hev1. }
  intros Ha. destruct (Hact Ha) as (Hau1 & Ht1).
  assert (Hstop : Audio.audio_process (Main.t_i2s tk) (Main.audio s1)
                  = Audio.audio_stop (Main.audio s)).
  { rewrite Hau1. unfold Audio.audio_process.
    replace (Audio.is_running (Audio.audio_stop (Main.audio s))) with false;
      [reflexivity|].
    unfold Audio.audio_stop. destruct (Audio.is_running (Main.audio s)) eqn:E;
      cbn; [reflexivity | rewrite E; reflexivity]. }
  rewrite Hau4, Hau3, Hau2, Hstop.
  split; [|split].
  - unfold Audio.audio_stop. destruct (Audio.is_running (Main.audio s)) eqn:E;
      cbn; [reflexivity | exact E].
  - unfold Audio.audio_stop. destruct (Audio.is_running (Main.audio s)); reflexivity.
  - exists rest. rewrite Ht4, Hr, Ht2, Ht1, <- app_assoc. reflexivity.
Qed.

(** ** Pitch estimation: every array access is inside its object *)

Lemma read_in_range {A : Type} (l : list A) (i : Z) :
  0 <= i < Z.of_nat (length l) -> exists x : A, read l i = Some x.
Proof.
  intros Hi. unfold read.
  destruct (Z.ltb_spec i 0) as [H|H]; [lia|].
  destruct (lookup_lt_is_Some_2 l (Z.to_nat i)) as [x Hx]; [lia|].
  exists x. exact Hx.
Qed.

Lemma write_in_range {A : Type} (l : list A) (i : Z) (x : A) :
  0 <= i < Z.of_nat (length l) ->
  write l i x = Some (<[ Z.to_nat i := x ]> l).
Proof.
  intros Hi. unfold write.
  destruct (Z.leb_spec 0 i) as [H|H]; [|lia].
  destruct (Z.ltb_spec i (Z.of_nat (length l))) as [H'|H']; [|lia].
  reflexivity.
Qed.

Lemma lag_value_write_eq (diff : list F32.t) (i : Z) (x : F32.t) :
  0 <= i < Z.of_nat (length diff) ->
  lag_value (<[ Z.to_nat i := x ]> diff) i = x.
Proof.
  intros Hi. unfold lag_value, read.
  destruct (Z.ltb_spec i 0) as [H|H]; [lia|].
  rewrite list_lookup_insert_eq by lia. reflexivity.
Qed.

Lemma lag_value_write_ne (diff : list F32.t) (i t : Z) (x : F32.t) :
  0 <= i -> t <> i ->
  lag_value (<[ Z.to_nat i := x ]> diff) t = lag_value diff t.
Proof.
  intros Hi Ht. unfold lag_value, read.
  destruct (Z.ltb_spec t 0) as [H|H]; [reflexivity|].
  rewrite list_lookup_insert_ne by lia. reflexivity.
Qed.

Lemma tau_range (sample_rate : Z) :
  500 <= sample_rate < 127500 ->
  1 <= Pitch.tau_min_of sample_rate /\
  Pitch.tau_min_of sample_rate < Pitch.tau_max_of sample_rate /\
  Pitch.tau_max_of sample_rate <= 255.
Proof.
  intros Hsr. unfold Pitch.tau_min_of, Pitch.tau_max_of,
    Pitch.PITCH_MAX_HZ, Pitch.PITCH_MIN_HZ.
  rewrite Z.gtb_ltb.
  destruct (Z.ltb_spec 255 (sample_rate / 75)) as [H|H];
    Z.div_mod_to_equations; lia.
Qed.

Lemma energy_loop_defined (smp : list Z) (n : nat) :
  forall i acc : Z,
    0 <= i -> i + Z.of_nat n <= Z.of_nat (length smp) ->
    exists e : Z, Pitch.energy_loop smp i n acc = Some e.
Proof.
  induction n as [|n IH]; intros i acc Hi Hn.
  - exists acc. reflexivity.
  - cbn [Pitch.energy_loop].
    destruct (read_in_range smp i) as [s Hs]; [lia|].
    rewrite Hs. cbn. apply IH; lia.
Qed.

Lemma diff_sum_defined (smp : list Z) (tau : Z) (n : nat) :
  forall (j : Z) (sum : F32.t),
    0 <= j -> 0 <= tau ->
    j + Z.of_nat n + tau <= Z.of_nat (length smp) ->
    exists s : F32.t, Pitch.diff_sum smp tau j n sum = Some s.
Proof.
  induction n as [|n IH]; intros j sum Hj Htau Hn.
  - exists sum. reflexivity.
  - cbn [Pitch.diff_sum].
    destruct (read_in_range smp j) as [a Ha]; [lia|].
    destruct (read_in_range smp (j + tau)) as [b Hb]; [lia|].
    rewrite Ha. cbn. rewrite Hb. cbn. apply IH; lia.
Qed.

Lemma diff_loop_defined (smp : list Z) (len : Z) (n : nat) :
  forall (tau : Z) (diff : list F32.t),
    0 <= len -> 1 <= tau ->
    tau + Z.of_nat n <= Z.of_nat (length diff) ->
    len + tau + Z.of_nat n - 1 <= Z.of_nat (length smp) ->
    exists d : list F32.t,
      Pitch.diff_loop smp len tau n diff = Some d /\ length d = length diff.
Proof.
  induction n as [|n IH]; intros tau diff Hlen Htau Hd Hs.
  - exists diff. split; reflexivity.
  - cbn [Pitch.diff_loop].
    destruct (diff_sum_defined smp tau (Z.to_nat len) 0 F32.zero)
      as [s Hsum]; [lia|lia|lia|].
    rewrite Hsum. cbn. rewrite write_in_range by lia. cbn.
    destruct (IH (tau + 1) (<[ Z.to_nat tau := s ]> diff))
      as (d & Hd1 & Hd2); try lia.
    + rewrite length_insert. lia.
    + exists d. split; [exact Hd1|]. rewrite Hd2, length_insert. reflexivity.
Qed.

Lemma yin_difference_defined (smp : list Z) (count tau_max : Z)
      (diff : list F32.t) :
  1 <= tau_max <= Z.of_nat (length diff) ->
  tau_max <= count < 2 ^ 32 -> count <= Z.of_nat (length smp) ->
  exists d : list F32.t,
    Pitch.yin_difference smp count diff tau_max = Some d /\
    length d = length diff.
Proof.
  intros Ht Hc Hs. unfold Pitch.yin_difference.
  assert (Hu : u32 (count - tau_max) = count - tau_max)
    by (unfold u32; apply Z.mod_small; lia).
  rewrite Hu, write_in_range by lia. cbn.
  destruct (diff_loop_defined smp (count - tau_max) (Z.to_nat (tau_max - 1))
              1 (<[ Z.to_nat 0 := F32.zero ]> diff))
    as (d & Hd1 & Hd2); try lia.
  - rewrite length_insert. lia.
  - exists d. split; [exact Hd1|]. rewrite Hd2, length_insert. reflexivity.
Qed.

Lemma cumulative_loop_defined (n : nat) :
  forall (tau : Z) (running_sum : F32.t) (diff : list F32.t),
    0 <= tau -> tau + Z.of_nat n <= Z.of_nat (length diff) ->
    exists d : list F32.t,
      Pitch.cumulative_loop tau n running_sum diff = Some d /\
      length d = length diff.
Proof.
  induction n as [|n IH]; intros tau rs diff Htau Hd.
  - exists diff. split; reflexivity.
  - cbn [Pitch.cumulative_loop].
    destruct (read_in_range diff tau) as [x Hx]; [lia|].
    rewrite Hx. cbn. rewrite write_in_range by lia. cbn.
    match goal with
    | |- context [Pitch.cumulative_loop _ _ ?r (<[ _ := ?v ]> _)] =>
        destruct (IH (tau + 1) r (<[ Z.to_nat tau := v ]> diff))
          as (d & Hd1 & Hd2)
    end; try lia.
    + rewrite length_insert. lia.
    + exists d. split; [exact Hd1|]. rewrite Hd2, length_insert. reflexivity.
Qed.

Lemma yin_cumulative_mean_defined (diff : list F32.t) (tau_max : Z) :
  1 <= tau_max <= Z.of_nat (length diff) ->
  exists d : list F32.t,
    Pitch.yin_cumulative_mean diff tau_max = Some d /\
    length d = length diff.
Proof.
  intros Ht. unfold Pitch.yin_cumulative_mean.
  rewrite write_in_range by lia. cbn.
  destruct (cumulative_loop_defined (Z.to_nat (tau_max - 1)) 1 F32.zero
              (<[ Z.to_nat 0 := F32.one ]> diff))
    as (d & Hd1 & Hd2); try lia.
  - rewrite length_insert. lia.
  - exists d. split; [exact Hd1|]. rewrite Hd2, length_insert. reflexivity.
Qed.

Lemma global_min_defined (diff : list F32.t) (lo : Z) (n : nat) :
  forall (tau : Z) (min_val : F32.t) (min_tau : Z),
    0 <= tau -> tau + Z.of_nat n <= Z.of_nat (length diff) ->
    lo <= min_tau < tau ->
    exists (v : F32.t) (m : Z),
      Pitch.global_min diff tau n min_val min_tau = Some (v, m) /\
      lo <= m < tau + Z.of_nat n.
Proof.
  induction n as [|n IH]; intros tau mv mt Htau Hd Hm.
  - exists mv, mt. split; [reflexivity|lia].
  - cbn [Pitch.global_min].
    destruct (read_in_range diff tau) as [x Hx]; [lia|].
    rewrite Hx. cbn.
    destruct (F32.ltb x mv).
    + destruct (IH (tau + 1) x tau) as (v & m & H1 & H2); try lia.
      exists v, m. split; [exact H1|lia].
    + destruct (IH (tau + 1) mv mt) as (v & m & H1 & H2); try lia.
      exists v, m. split; [exact H1|lia].
Qed.

Lemma int_of_u32_small (z : Z) : 0 <= z < 2 ^ 31 -> int_of_u32 z = z.
Proof.
  intros Hz. unfold int_of_u32.
  destruct (Z.ltb_spec z (2 ^ 31)) as [H|H]; [reflexivity|lia].
Qed.

Lemma yin_absolute_threshold_defined (diff : list F32.t) (lo hi : Z)
      (thr : F32.t) :
  1 <= lo -> lo < hi -> hi <= Z.of_nat (length diff) -> hi < 2 ^ 31 ->
  exists tau : Z,
    Pitch.yin_absolute_threshold diff lo hi thr = Some tau /\
    (tau = -1 \/ lo <= tau < hi).
Proof.
  intros Hlo Hlt Hhi Hint. unfold Pitch.yin_absolute_threshold.
  assert (Hu : u32 (hi - 1) = hi - 1)
    by (unfold u32; apply Z.mod_small; lia).
  rewrite Hu.
  destruct (first_dip_scan diff thr (Z.to_nat (hi - 1 - lo)) lo)
    as [(t & Hf & Ht & _)|(Hf & _)]; try lia.
  - rewrite Hf. cbn. exists (int_of_u32 t).
    rewrite int_of_u32_small by lia. split; [reflexivity|]. right. lia.
  - rewrite Hf. cbn.
    destruct (read_in_range diff lo) as [m0 Hm0]; [lia|].
    rewrite Hm0. cbn.
    destruct (global_min_defined diff lo (Z.to_nat (hi - (lo + 1)))
                (lo + 1) m0 lo) as (v & m & Hg & Hm); try lia.
    rewrite Hg. cbn.
    destruct (F32.ltb v Pitch.c_0_5).
    + exists (int_of_u32 m). rewrite int_of_u32_small by lia.
      split; [reflexivity|]. right. lia.
    + exists (-1). split; [reflexivity|]. left. reflexivity.
Qed.

Lemma yin_parabolic_interpolation_defined (diff : list F32.t)
      (tau tau_max : Z) :
  0 <= tau < tau_max -> tau_max <= Z.of_nat (length diff) ->
  tau_max < 2 ^ 31 ->
  exists r : F32.t,
    Pitch.yin_parabolic_interpolation diff tau tau_max = Some r.
Proof.
  intros Ht Hd Hint. unfold Pitch.yin_parabolic_interpolation.
  rewrite int_of_u32_small by lia.
  destruct ((tau <=? 0) || (tau >=? tau_max - 1)) eqn:E.
  - eexists. reflexivity.
  - apply orb_false_iff in E. destruct E as [E1 E2].
    apply Z.leb_gt in E1. rewrite Z.geb_leb in E2. apply Z.leb_gt in E2.
    destruct (read_in_range diff (tau - 1)) as [s0 H0]; [lia|].
    destruct (read_in_range diff tau) as [s1 H1]; [lia|].
    destruct (read_in_range diff (tau + 1)) as [s2 H2]; [lia|].
    rewrite H0. cbn. rewrite H1. cbn. rewrite H2. cbn.
    eexists. reflexivity.
Qed.

Lemma pitch_estimate_total
      (smp : list Z) (count sample_rate : Z) (buf : list F32.t) :
  500 <= sample_rate < 127500 ->
  0 <= count < 2 ^ 32 ->
  count <= Z.of_nat (length smp) ->
  Z.of_nat (length buf) = Pitch.DIFF_BUFFER_LEN ->
  exists (r : Pitch.PitchResult) (buf' : list F32.t),
    Pitch.pitch_estimate smp count sample_rate buf = Some (r, buf') /\
    length buf' = length buf /\
    (Pitch.valid r = false -> r = Pitch.no_pitch) /\
    (count < 2 * Pitch.tau_max_of sample_rate ->
     r = Pitch.no_pitch /\ buf' = buf) /\
    (Pitch.valid r = true ->
     Pitch.speaker r = Pitch.pitch_classify (Pitch.pitch_hz r) /\
     exists tau : Z,
       Pitch.tau_min_of sample_rate <= tau < Pitch.tau_max_of sample_rate /\
       Pitch.confidence r = F32.sub F32.one (lag_value buf' tau)).
Proof.
  intros Hsr Hc Hs Hb. unfold Pitch.DIFF_BUFFER_LEN in Hb.
  destruct (tau_range sample_rate Hsr) as (Hmin & Hlt & Hmax).
  unfold Pitch.pitch_estimate.
  destruct (Z.ltb_spec count (Pitch.tau_max_of sample_rate * 2)) as [Hshort|Hlong].
  { exists Pitch.no_pitch, buf. repeat split; try reflexivity; discriminate. }
  destruct (energy_loop_defined smp (Z.to_nat count) 0 0) as [e He]; try lia.
  rewrite He. cbn.
  destruct (F32.ltb (Pitch.window_rms e count) Pitch.c_0_01).
  { exists Pitch.no_pitch, buf.
    repeat split; try reflexivity; try discriminate; lia. }
  destruct (yin_difference_defined smp count (Pitch.tau_max_of sample_rate) buf)
    as (d1 & Hd1 & Hl1); try lia.
  rewrite Hd1. cbn.
  destruct (yin_cumulative_mean_defined d1 (Pitch.tau_max_of sample_rate))
    as (d2 & Hd2 & Hl2); try lia.
  rewrite Hd2. cbn.
  assert (Hlen : length d2 = length buf) by congruence.
  destruct (yin_absolute_threshold_defined d2 (Pitch.tau_min_of sample_rate)
              (Pitch.tau_max_of sample_rate) Pitch.YIN_THRESHOLD)
    as (tau & Htau & Hrange); try lia.
  rewrite Htau. cbn.
  destruct (Z.ltb_spec tau 0) as [Hneg|Hpos].
  { exists Pitch.no_pitch, d2.
    repeat split; try reflexivity; try discriminate; try exact Hlen; lia. }
  destruct Hrange as [Hrange|Hrange]; [lia|].
  destruct (yin_parabolic_interpolation_defined d2 tau
              (Pitch.tau_max_of sample_rate)) as [tr Htr]; try lia.
  rewrite Htr. cbn.
  destruct (F32.leb tr F32.zero).
  { exists Pitch.no_pitch, d2.
    repeat split; try reflexivity; try discriminate; try exact Hlen; lia. }
  rewrite read_lag_value by lia. cbn.
  eexists. exists d2. split; [reflexivity|].
  split; [exact Hlen|].
  split; [discriminate|].
  split; [lia|].
  intros _. split; [reflexivity|].
  exists tau. split; [exact Hrange|reflexivity].
Qed.

(** [pitch_estimate] on any window that lies inside the sample array and any
    sample rate whose lag range is not empty: no access leaves [samples] or
    [diff_buffer], the result is either the all-zero "invalid" record or a
    valid one taken at a lag of the search range, with the confidence
    [1 - d'(tau)] and the speaker label of its own frequency. *)
Theorem pitch_estimate_stays_in_bounds
        (smp : list Z) (count sample_rate : Z) (buf : list F32.t) :
  500 <= sample_rate < 127500 ->
  0 <= count < 2 ^ 32 ->
  count <= Z.of_nat (length smp) ->
  Z.of_nat (length buf) = Pitch.DIFF_BUFFER_LEN ->
  exists (r : Pitch.PitchResult) (buf' : list F32.t),
    Pitch.pitch_estimate smp count sample_rate buf = Some (r, buf') /\
    length buf' = length buf /\
    (Pitch.valid r = false -> r = Pitch.no_pitch) /\
    (count < 2 * Pitch.tau_max_of sample_rate ->
     r = Pitch.no_pitch /\ buf' = buf) /\
    (Pitch.valid r = true ->
     Pitch.speaker r = Pitch.pitch_classify (Pitch.pitch_hz r) /\
     exists tau : Z,
       Pitch.tau_min_of sample_rate <= tau < Pitch.tau_max_of sample_rate /\
       Pitch.confidence r = F32.sub F32.one (lag_value buf' tau)).
Proof.
  intros Hsr Hc Hs Hb.
  exact (pitch_estimate_total smp count sample_rate buf Hsr Hc Hs Hb).
Qed.

(** ** Conversion of small integers *)

Lemma digits2_pos_bound (p : positive) :
  forall n : Z, 0 <= n -> Z.pos p < 2 ^ n -> Z.pos (digits2_pos p) <= n.
Proof.
  induction p as [p IH|p IH|]; intros n Hn Hp; cbn [digits2_pos].
  - assert (H1 : 1 <= n).
    { destruct (Z.eq_dec n 0) as [->|]; [cbn in Hp; lia|lia]. }
    replace n with (Z.succ (n - 1)) in Hp by lia.
    rewrite Z.pow_succ_r in Hp by lia.
    specialize (IH (n - 1) ltac:(lia) ltac:(lia)). lia.
  - assert (H1 : 1 <= n).
    { destruct (Z.eq_dec n 0) as [->|]; [cbn in Hp; lia|lia]. }
    replace n with (Z.succ (n - 1)) in Hp by lia.
    rewrite Z.pow_succ_r in Hp by lia.
    specialize (IH (n - 1) ltac:(lia) ltac:(lia)). lia.
  - destruct (Z.eq_dec n 0) as [->|]; [cbn in Hp; lia|lia].
Qed.

Lemma digits2_pos_iter (k p : positive) :
  digits2_pos (Pos.iter xO p k) = (digits2_pos p + k)%positive.
Proof.
  induction k as [|k IH] using Pos.peano_ind.
  - cbn. lia.
  - rewrite Pos.iter_succ. cbn [digits2_pos]. rewrite IH. lia.
Qed.

(** An integer below [2^24] converts to a finite number. *)
Lemma binary_round_small (s : bool) (p : positive) :
  Z.pos p < 2 ^ 24 ->
  exists (m : positive) (e : Z),
    binary_round F32.prec F32.emax s p 0 = S754_finite s m e.
Proof.
  intros Hp.
  pose proof (digits2_pos_bound p 24 ltac:(lia) Hp) as Hd.
  assert (Hal : exists (mz : positive) (ez : Z),
             shl_align p 0
               (fexp F32.prec F32.emax (Z.pos (digits2_pos p) + 0))
             = (mz, ez) /\
             Z.pos (digits2_pos mz) = 24 /\ -23 <= ez <= 0).
  { unfold shl_align, fexp, emin, F32.prec, F32.emax.
    rewrite Z.add_0_r, Z.sub_0_r.
    rewrite Z.max_l by lia.
    destruct (Z.pos (digits2_pos p) - 24) as [|q|q] eqn:E.
    - exists p, 0. split; [reflexivity|]. lia.
    - lia.
    - exists (Pos.iter xO p q), (Z.neg q). split; [reflexivity|].
      rewrite digits2_pos_iter. lia. }
  destruct Hal as (mz & ez & Hal & Hdz & Hez).
  unfold binary_round. rewrite Hal.
  unfold binary_round_aux.
  assert (Hshr : forall l : location,
             shr_fexp F32.prec F32.emax (Z.pos mz) ez l
             = (shr_record_of_loc (Z.pos mz) l, ez)).
  { intros l. unfold shr_fexp, fexp, emin, F32.prec, F32.emax.
    cbn [Zdigits2]. rewrite Hdz.
    replace (Z.max (24 + ez - 24) (3 - 128 - 24) - ez) with 0 by lia.
    reflexivity. }
  rewrite Hshr. cbn [shr_record_of_loc loc_of_shr_record round_nearest_even
                     shr_m shr_r shr_s].
  rewrite Hshr. cbn [shr_record_of_loc shr_m].
  unfold F32.prec, F32.emax.
  destruct (Z.leb_spec ez (128 - 24)) as [H|H]; [|lia].
  exists mz, ez. reflexivity.
Qed.

Lemma of_Z_sub_self (c : Z) :
  - 2 ^ 24 < c < 2 ^ 24 -> F32.sub (F32.of_Z c) (F32.of_Z c) = F32.zero.
Proof.
  intros Hc. unfold F32.of_Z, binary_normalize.
  destruct c as [|p|p].
  - reflexivity.
  - destruct (binary_round_small false p) as (m & e & ->); [lia|].
    unfold F32.sub, SFsub. rewrite Z.sub_diag. reflexivity.
  - destruct (binary_round_small true p) as (m & e & ->); [lia|].
    unfold F32.sub, SFsub. rewrite Z.sub_diag. reflexivity.
Qed.

(** ** A constant window *)

Section ConstantWindow.

Variables (smp : list Z) (count c : Z).
Hypothesis Hc : - 32768 <= c <= 32767.
Hypothesis Hsmp : forall i : Z, 0 <= i < count -> read smp i = Some c.

Lemma energy_loop_constant (n : nat) :
  forall i acc : Z,
    0 <= i -> i + Z.of_nat n <= count ->
    Pitch.energy_loop smp i n acc = Some (acc + Z.of_nat n * (c * c)).
Proof.
  induction n as [|n IH]; intros i acc Hi Hn.
  - cbn. f_equal. lia.
  - cbn [Pitch.energy_loop]. rewrite Hsmp by lia. cbn [mbind option_bind].
    rewrite IH by lia. f_equal. lia.
Qed.

Lemma diff_sum_constant (tau : Z) (n : nat) :
  forall j : Z,
    0 <= j -> 0 <= tau -> j + Z.of_nat n + tau <= count ->
    Pitch.diff_sum smp tau j n F32.zero = Some F32.zero.
Proof.
  induction n as [|n IH]; intros j Hj Htau Hn.
  - reflexivity.
  - cbn [Pitch.diff_sum]. rewrite !Hsmp by lia. cbn.
    rewrite of_Z_sub_self by lia.
    change (F32.add F32.zero (F32.mul F32.zero F32.zero)) with F32.zero.
    apply IH; lia.
Qed.

Lemma diff_loop_constant (len : Z) (n : nat) :
  forall (tau : Z) (diff : list F32.t),
    0 <= len -> 1 <= tau ->
    tau + Z.of_nat n <= Z.of_nat (length diff) ->
    len + tau + Z.of_nat n - 1 <= count ->
    exists d : list F32.t,
      Pitch.diff_loop smp len tau n diff = Some d /\
      length d = length diff /\
      (forall t : Z, tau <= t < tau + Z.of_nat n -> lag_value d t = F32.zero) /\
      (forall t : Z, t < tau -> lag_value d t = lag_value diff t).
Proof.
  induction n as [|n IH]; intros tau diff Hlen Htau Hd Hs.
  - exists diff. repeat split. intros t Ht. lia.
  - cbn [Pitch.diff_loop].
    rewrite diff_sum_constant by lia. cbn.
    rewrite write_in_range by lia. cbn.
    destruct (IH (tau + 1) (<[ Z.to_nat tau := F32.zero ]> diff))
      as (d & Hd1 & Hd2 & Hd3 & Hd4); try lia.
    + rewrite length_insert. lia.
    + exists d. split; [exact Hd1|].
      split; [rewrite Hd2, length_insert; reflexivity|].
      split.
      * intros t Ht. destruct (Z.eq_dec t tau) as [->|Hne].
        -- rewrite Hd4 by lia. apply lag_value_write_eq. lia.
        -- apply Hd3. lia.
      * intros t Ht. rewrite Hd4 by lia. apply lag_value_write_ne; lia.
Qed.

End ConstantWindow.

Lemma cumulative_loop_flat (n : nat) :
  forall (tau : Z) (diff : list F32.t),
    0 <= tau -> tau + Z.of_nat n <= Z.of_nat (length diff) ->
    (forall t : Z, tau <= t < tau + Z.of_nat n -> lag_value diff t = F32.zero) ->
    exists d : list F32.t,
      Pitch.cumulative_loop tau n F32.zero diff = Some d /\
      length d = length diff /\
      (forall t : Z, tau <= t < tau + Z.of_nat n -> lag_value d t = F32.one) /\
      (forall t : Z, t < tau -> lag_value d t = lag_value diff t).
Proof.
  induction n as [|n IH]; intros tau diff Htau Hd Hz.
  - exists diff. repeat split. intros t Ht. lia.
  - cbn [Pitch.cumulative_loop].
    rewrite read_lag_value by lia. rewrite Hz by lia. cbn.
    change (F32.add F32.zero F32.zero) with F32.zero.
    change (F32.gtb F32.zero F32.zero) with false. cbn iota.
    rewrite write_in_range by lia. cbn.
    destruct (IH (tau + 1) (<[ Z.to_nat tau := F32.one ]> diff))
      as (d & Hd1 & Hd2 & Hd3 & Hd4); try lia.
    + rewrite length_insert. lia.
    + intros t Ht. rewrite lag_value_write_ne by lia. apply Hz. lia.
    + exists d. split; [exact Hd1|].
      split; [rewrite Hd2, length_insert; reflexivity|].
      split.
      * intros t Ht. destruct (Z.eq_dec t tau) as [->|Hne].
        -- rewrite Hd4 by lia. apply lag_value_write_eq. lia.
        -- apply Hd3. lia.
      * intros t Ht. rewrite Hd4 by lia. apply lag_value_write_ne; lia.
Qed.

Lemma first_dip_flat (diff : list F32.t) (n : nat) :
  forall tau : Z,
    0 <= tau -> tau + Z.of_nat n <= Z.of_nat (length diff) ->
    (forall t : Z, tau <= t < tau + Z.of_nat n -> lag_value diff t = F32.one) ->
    Pitch.first_dip diff Pitch.YIN_THRESHOLD tau n = Some None.
Proof.
  induction n as [|n IH]; intros tau Htau Hd Hone.
  - reflexivity.
  - cbn [Pitch.first_dip]. unfold Pitch.dip_at.
    rewrite (read_lag_value diff tau) by lia. rewrite Hone by lia. cbn.
    change (F32.ltb F32.one Pitch.YIN_THRESHOLD) with false. cbn.
    apply IH; try lia. intros t Ht. apply Hone. lia.
Qed.

Lemma global_min_flat (diff : list F32.t) (n : nat) :
  forall tau m : Z,
    0 <= tau -> tau + Z.of_nat n <= Z.of_nat (length diff) ->
    (forall t : Z, tau <= t < tau + Z.of_nat n -> lag_value diff t = F32.one) ->
    Pitch.global_min diff tau n F32.one m = Some (F32.one, m).
Proof.
  induction n as [|n IH]; intros tau m Htau Hd Hone.
  - reflexivity.
  - cbn [Pitch.global_min].
    rewrite read_lag_value by lia. rewrite Hone by lia. cbn.
    change (F32.ltb F32.one F32.one) with false. cbn iota.
    apply IH; try lia. intros t Ht. apply Hone. lia.
Qed.

Lemma yin_absolute_threshold_flat (diff : list F32.t) (lo hi : Z) :
  0 <= lo -> lo < hi -> hi <= Z.of_nat (length diff) -> hi < 2 ^ 31 ->
  (forall t : Z, lo <= t < hi -> lag_value diff t = F32.one) ->
  Pitch.yin_absolute_threshold diff lo hi Pitch.YIN_THRESHOLD = Some (-1).
Proof.
  intros Hlo Hlt Hhi Hint Hone. unfold Pitch.yin_absolute_threshold.
  assert (Hu : u32 (hi - 1) = hi - 1)
    by (unfold u32; apply Z.mod_small; lia).
  rewrite Hu, first_dip_flat; try lia.
  2: { intros t Ht. apply Hone. lia. }
  cbn. rewrite read_lag_value by lia. rewrite Hone by lia. cbn.
  rewrite global_min_flat; try lia.
  2: { intros t Ht. apply Hone. lia. }
  cbn. change (F32.ltb F32.one Pitch.c_0_5) with false. reflexivity.
Qed.

Lemma constant_window_no_pitch
      (smp : list Z) (count c sample_rate : Z) (buf : list F32.t) :
  500 <= sample_rate < 127500 ->
  0 <= count < 2 ^ 32 ->
  - 32768 <= c <= 32767 ->
  (forall i : Z, 0 <= i < count -> read smp i = Some c) ->
  Z.of_nat (length buf) = Pitch.DIFF_BUFFER_LEN ->
  exists buf' : list F32.t,
    Pitch.pitch_estimate smp count sample_rate buf
    = Some (Pitch.no_pitch, buf').
Proof.
  intros Hsr Hcount Hc Hsmp Hb. unfold Pitch.DIFF_BUFFER_LEN in Hb.
  destruct (tau_range sample_rate Hsr) as (Hmin & Hlt & Hmax).
  unfold Pitch.pitch_estimate.
  destruct (Z.ltb_spec count (Pitch.tau_max_of sample_rate * 2)) as [Hshort|Hlong].
  { exists buf. reflexivity. }
  assert (Hlen : count <= Z.of_nat (length smp)).
  { destruct (Z.le_gt_cases count (Z.of_nat (length smp))) as [H|H];
      [exact H|].
    specialize (Hsmp (Z.of_nat (length smp)) ltac:(lia)).
    unfold read in Hsmp.
    destruct (Z.ltb_spec (Z.of_nat (length smp)) 0) as [H0|H0]; [lia|].
    rewrite lookup_ge_None_2 in Hsmp by lia. discriminate. }
  destruct (energy_loop_defined smp (Z.to_nat count) 0 0) as [e He]; try lia.
  rewrite He. cbn.
  destruct (F32.ltb (Pitch.window_rms e count) Pitch.c_0_01).
  { exists buf. reflexivity. }
  unfold Pitch.yin_difference.
  assert (Hu : u32 (count - Pitch.tau_max_of sample_rate)
               = count - Pitch.tau_max_of sample_rate)
    by (unfold u32; apply Z.mod_small; lia).
  rewrite Hu, write_in_range by lia. cbn.
  destruct (diff_loop_constant smp count c Hc Hsmp
              (count - Pitch.tau_max_of sample_rate)
              (Z.to_nat (Pitch.tau_max_of sample_rate - 1)) 1
              (<[ Z.to_nat 0 := F32.zero ]> buf))
    as (d1 & Hd1 & Hl1 & Hz1 & _); try lia.
  { rewrite length_insert. lia. }
  rewrite Hd1. cbn. rewrite length_insert in Hl1.
  unfold Pitch.yin_cumulative_mean.
  rewrite write_in_range by lia. cbn.
  destruct (cumulative_loop_flat
              (Z.to_nat (Pitch.tau_max_of sample_rate - 1)) 1
              (<[ Z.to_nat 0 := F32.one ]> d1))
    as (d2 & Hd2 & Hl2 & Hone & _); try lia.
  { rewrite length_insert. lia. }
  { intros t Ht. rewrite lag_value_write_ne by lia. apply Hz1. lia. }
  rewrite Hd2. cbn. rewrite length_insert in Hl2.
  rewrite yin_absolute_threshold_flat; try lia.
  2: { intros t Ht. apply Hone. lia. }
  cbn. exists d2. reflexivity.
Qed.

(** The stages of [pitch_estimate] on a constant window that is long
    enough for the lag range. *)
Lemma constant_window_stages
      (smp : list Z) (count c sample_rate : Z) (buf : list F32.t) :
  500 <= sample_rate < 127500 ->
  0 <= count < 2 ^ 32 ->
  - 32768 <= c <= 32767 ->
  (forall i : Z, 0 <= i < count -> read smp i = Some c) ->
  Z.of_nat (length buf) = Pitch.DIFF_BUFFER_LEN ->
  Pitch.tau_max_of sample_rate * 2 <= count ->
  exists d1 d2 : list F32.t,
    Pitch.energy_loop smp 0 (Z.to_nat count) 0 = Some (count * (c * c)) /\
    Pitch.yin_difference smp count buf (Pitch.tau_max_of sample_rate)
      = Some d1 /\
    (forall t : Z, 0 <= t < Pitch.tau_max_of sample_rate ->
                   lag_value d1 t = F32.zero) /\
    Pitch.yin_cumulative_mean d1 (Pitch.tau_max_of sample_rate) = Some d2 /\
    (forall t : Z, 0 <= t < Pitch.tau_max_of sample_rate ->
                   lag_value d2 t = F32.one) /\
    Pitch.yin_absolute_threshold d2 (Pitch.tau_min_of sample_rate)
      (Pitch.tau_max_of sample_rate) Pitch.YIN_THRESHOLD = Some (-1) /\
    Pitch.pitch_estimate smp count sample_rate buf
    = Some (Pitch.no_pitch,
            if F32.ltb (Pitch.window_rms (count * (c * c)) count) Pitch.c_0_01
            then buf else d2).
Proof.
  intros Hsr Hcount Hc Hsmp Hb Hlong. unfold Pitch.DIFF_BUFFER_LEN in Hb.
  destruct (tau_range sample_rate Hsr) as (Hmin & Hlt & Hmax).
  assert (He : Pitch.energy_loop smp 0 (Z.to_nat count) 0
               = Some (count * (c * c))).
  { rewrite (energy_loop_constant smp count c Hsmp) by lia. f_equal. lia. }
  assert (Hu : u32 (count - Pitch.tau_max_of sample_rate)
               = count - Pitch.tau_max_of sample_rate)
    by (unfold u32; apply Z.mod_small; lia).
  destruct (diff_loop_constant smp count c Hc Hsmp
              (count - Pitch.tau_max_of sample_rate)
              (Z.to_nat (Pitch.tau_max_of sample_rate - 1)) 1
              (<[ Z.to_nat 0 := F32.zero ]> buf))
    as (d1 & Hd1 & Hl1 & Hz1 & Hk1); try lia.
  { rewrite length_insert. lia. }
  rewrite length_insert in Hl1.
  assert (Hdiff : Pitch.yin_difference smp count buf
                    (Pitch.tau_max_of sample_rate) = Some d1).
  { unfold Pitch.yin_difference. rewrite Hu, write_in_range by lia.
    cbn [mbind option_bind]. exact Hd1. }
  assert (Hzero : forall t : Z, 0 <= t < Pitch.tau_max_of sample_rate ->
                                lag_value d1 t = F32.zero).
  { intros t Ht. destruct (Z.eq_dec t 0) as [->|Hne].
    - rewrite Hk1 by lia. apply (lag_value_write_eq buf 0). lia.
    - apply Hz1. lia. }
  destruct (cumulative_loop_flat
              (Z.to_nat (Pitch.tau_max_of sample_rate - 1)) 1
              (<[ Z.to_nat 0 := F32.one ]> d1))
    as (d2 & Hd2 & Hl2 & Hone & Hk2); try lia.
  { rewrite length_insert. lia. }
  { intros t Ht. rewrite lag_value_write_ne by lia. apply Hz1. lia. }
  rewrite length_insert in Hl2.
  assert (Hcum : Pitch.yin_cumulative_mean d1 (Pitch.tau_max_of sample_rate)
                 = Some d2).
  { unfold Pitch.yin_cumulative_mean. rewrite write_in_range by lia.
    cbn [mbind option_bind]. exact Hd2. }
  assert (Hones : forall t : Z, 0 <= t < Pitch.tau_max_of sample_rate ->
                                lag_value d2 t = F32.one).
  { intros t Ht. destruct (Z.eq_dec t 0) as [->|Hne].
    - rewrite Hk2 by lia. apply (lag_value_write_eq d1 0). lia.
    - apply Hone. lia. }
  assert (Hthr : Pitch.yin_absolute_threshold d2
                   (Pitch.tau_min_of sample_rate)
                   (Pitch.tau_max_of sample_rate) Pitch.YIN_THRESHOLD
                 = Some (-1)).
  { apply yin_absolute_threshold_flat; try lia.
    intros t Ht. apply Hones. lia. }
  exists d1, d2.
  do 6 (split; [assumption|]).
  unfold Pitch.pitch_estimate.
  destruct (Z.ltb_spec count (Pitch.tau_max_of sample_rate * 2)) as [H|_];
    [lia|].
  rewrite He. cbn [mbind option_bind].
  destruct (F32.ltb (Pitch.window_rms (count * (c * c)) count) Pitch.c_0_01);
    [reflexivity|].
  rewrite Hdiff. cbn [mbind option_bind].
  rewrite Hcum. cbn [mbind option_bind].
  rewrite Hthr. cbn [mbind option_bind]. reflexivity.
Qed.

(** A window whose samples are all equal to [c] (silence, or a microphone
    stuck at a DC offset, however large) has no pitch: [pitch_estimate]
    returns the all-zero "invalid" record.  A window shorter than twice the
    largest lag is refused at once and the difference buffer is left as it
    was.  Otherwise the energy is [count * c * c]; the difference function
    of the window is zero at every lag, the zero-sum guard of
    [yin_cumulative_mean] sets the normalized difference to 1 at every lag,
    and [yin_absolute_threshold] returns -1 on it; [pitch_estimate] leaves
    the buffer as it was when the RMS gate ([rms < 0.01]) rejects the
    window first, and leaves the normalized difference in it when the
    threshold step rejects it. *)
Theorem constant_window_has_no_pitch
        (smp : list Z) (count c sample_rate : Z) (buf : list F32.t) :
  500 <= sample_rate < 127500 ->
  0 <= count < 2 ^ 32 ->
  - 32768 <= c <= 32767 ->
  (forall i : Z, 0 <= i < count -> read smp i = Some c) ->
  Z.of_nat (length buf) = Pitch.DIFF_BUFFER_LEN ->
  (exists buf' : list F32.t,
     Pitch.pitch_estimate smp count sample_rate buf
     = Some (Pitch.no_pitch, buf')) /\
  (count < Pitch.tau_max_of sample_rate * 2 ->
     Pitch.pitch_estimate smp count sample_rate buf
     = Some (Pitch.no_pitch, buf)) /\
  (Pitch.tau_max_of sample_rate * 2 <= count ->
   exists d1 d2 : list F32.t,
     Pitch.energy_loop smp 0 (Z.to_nat count) 0 = Some (count * (c * c)) /\
     Pitch.yin_difference smp count buf (Pitch.tau_max_of sample_rate)
       = Some d1 /\
     (forall t : Z, 0 <= t < Pitch.tau_max_of sample_rate ->
                    lag_value d1 t = F32.zero) /\
     Pitch.yin_cumulative_mean d1 (Pitch.tau_max_of sample_rate) = Some d2 /\
     (forall t : Z, 0 <= t < Pitch.tau_max_of sample_rate ->
                    lag_value d2 t = F32.one) /\
     Pitch.yin_absolute_threshold d2 (Pitch.tau_min_of sample_rate)
       (Pitch.tau_max_of sample_rate) Pitch.YIN_THRESHOLD = Some (-1) /\
     Pitch.pitch_estimate smp count sample_rate buf
     = Some (Pitch.no_pitch,
             if F32.ltb (Pitch.window_rms (count * (c * c)) count)
                        Pitch.c_0_01
             then buf else d2)).
Proof.
  intros Hsr Hcount Hc Hsmp Hb.
  split; [|split].
  - exact (constant_window_no_pitch smp count c sample_rate buf
             Hsr Hcount Hc Hsmp Hb).
  - intros Hshort. unfold Pitch.pitch_estimate.
    destruct (Z.ltb_spec count (Pitch.tau_max_of sample_rate * 2)) as [_|H];
      [reflexivity|lia].
  - exact (constant_window_stages smp count c sample_rate buf
             Hsr Hcount Hc Hsmp Hb).
Qed.

(** ** Order on numbers *)

Lemma SFleb_nltb (a b : spec_float) :
  a <> S754_nan -> b <> S754_nan -> SFleb a b = negb (SFltb b a).
Proof.
  intros Ha Hb. unfold SFleb, SFltb, SFcompare.
  destruct a as [sa|sa| |sa ma ea], b as [sb|sb| |sb mb eb];
    try congruence;
    try destruct sa; try destruct sb; try reflexivity.
  - rewrite (Z.compare_antisym ea eb).
    assert (Hm : Pos.compare_cont Eq mb ma
                 = CompOpp (Pos.compare_cont Eq ma mb))
      by (rewrite Pos.compare_cont_antisym; reflexivity).
    rewrite Hm.
    destruct (Z.compare ea eb); cbn; try reflexivity.
    destruct (Pos.compare_cont Eq ma mb); reflexivity.
  - rewrite (Z.compare_antisym ea eb).
    assert (Hm : Pos.compare_cont Eq mb ma
                 = CompOpp (Pos.compare_cont Eq ma mb))
      by (rewrite Pos.compare_cont_antisym; reflexivity).
    rewrite Hm.
    destruct (Z.compare ea eb); cbn; try reflexivity.
    destruct (Pos.compare_cont Eq ma mb); reflexivity.
Qed.

Lemma SFltb_not_nan (a b : spec_float) :
  SFltb a b = true -> a <> S754_nan /\ b <> S754_nan.
Proof.
  intros H. apply SFltb_lt_prop in H.
  destruct a, b; cbn in H; try (exfalso; exact H); split; discriminate.
Qed.

Lemma le_f32_refl (a : F32.t) : a <> S754_nan -> le_f32 a a.
Proof.
  intros Ha. unfold le_f32, F32.leb.
  rewrite SFleb_nltb by assumption. rewrite SFltb_irrefl. reflexivity.
Qed.

Lemma le_f32_trans (a b c : F32.t) :
  a <> S754_nan -> b <> S754_nan -> c <> S754_nan ->
  le_f32 a b -> le_f32 b c -> le_f32 a c.
Proof.
  unfold le_f32, F32.leb. intros Ha Hb Hc.
  rewrite !SFleb_nltb by assumption.
  rewrite !negb_true_iff. intros Hab Hbc.
  destruct (SFltb c a) eqn:E; [|reflexivity].
  pose proof (SFltb_nlt_trans c a b E Hab Hb) as H. congruence.
Qed.

Lemma gtb_le_f32 (a b : F32.t) : F32.gtb a b = true -> le_f32 b a.
Proof.
  unfold F32.gtb, le_f32, F32.leb. intros H.
  destruct (SFltb_not_nan _ _ H) as [Hb Ha].
  rewrite SFleb_nltb by assumption. apply negb_true_iff.
  destruct (SFltb a b) eqn:E; [|reflexivity].
  pose proof (SFltb_trans _ _ _ H E) as H1.
  rewrite SFltb_irrefl in H1. discriminate.
Qed.

Lemma not_gtb_le_f32 (a b : F32.t) :
  a <> S754_nan -> b <> S754_nan -> F32.gtb a b = false -> le_f32 a b.
Proof.
  unfold F32.gtb, le_f32, F32.leb. intros Ha Hb H.
  rewrite SFleb_nltb by assumption. rewrite H. reflexivity.
Qed.

(** ** The bubble sort *)

Lemma read_app_head {A : Type} (pre l : list A) (a : A) :
  read (pre ++ a :: l) (Z.of_nat (length pre)) = Some a.
Proof.
  unfold read.
  destruct (Z.ltb_spec (Z.of_nat (length pre)) 0) as [H|H]; [lia|].
  rewrite Nat2Z.id. rewrite lookup_app_r by lia.
  rewrite Nat.sub_diag. reflexivity.
Qed.

Lemma write_app_head {A : Type} (pre l : list A) (a x : A) :
  write (pre ++ a :: l) (Z.of_nat (length pre)) x = Some (pre ++ x :: l).
Proof.
  rewrite write_in_range.
  - rewrite Nat2Z.id. f_equal.
    rewrite insert_app_r_alt by lia. rewrite Nat.sub_diag. reflexivity.
  - rewrite length_app. cbn [length]. lia.
Qed.

Lemma snoc_cons {A : Type} (pre l : list A) (a : A) :
  pre ++ a :: l = (pre ++ [a]) ++ l.
Proof. rewrite <- app_assoc. reflexivity. Qed.

Lemma length_snoc_Z {A : Type} (pre : list A) (a : A) :
  Z.of_nat (length (pre ++ [a])) = Z.of_nat (length pre) + 1.
Proof. rewrite length_app. cbn [length]. lia. Qed.

Lemma read_app_next {A : Type} (pre l : list A) (a b : A) :
  read (pre ++ a :: b :: l) (Z.of_nat (length pre) + 1) = Some b.
Proof.
  rewrite (snoc_cons pre (b :: l) a), <- (length_snoc_Z pre a).
  apply read_app_head.
Qed.

Lemma write_app_next {A : Type} (pre l : list A) (a b x : A) :
  write (pre ++ a :: b :: l) (Z.of_nat (length pre) + 1) x
  = Some (pre ++ a :: x :: l).
Proof.
  rewrite (snoc_cons pre (b :: l) a), <- (length_snoc_Z pre a).
  rewrite write_app_head. rewrite <- snoc_cons. reflexivity.
Qed.

Lemma bubble_inner_pass (n : nat) :
  forall pre l : list F32.t,
    (n < length l)%nat ->
    Robust.bubble_inner (pre ++ l) (Z.of_nat (length pre)) n
    = Some (pre ++ bubble_pass n l).
Proof.
  induction n as [|n IH]; intros pre l Hn.
  - destruct l; reflexivity.
  - destruct l as [|a [|b l']]; cbn [length] in Hn; try lia.
    cbn [Robust.bubble_inner bubble_pass].
    rewrite read_app_head. cbn.
    rewrite read_app_next. cbn.
    destruct (F32.gtb a b).
    + rewrite write_app_head. cbn.
      rewrite write_app_next. cbn.
      rewrite (snoc_cons pre (a :: l') b), <- (length_snoc_Z pre b).
      rewrite (IH (pre ++ [b]) (a :: l')) by (cbn [length]; lia).
      rewrite <- snoc_cons. reflexivity.
    + rewrite (snoc_cons pre (b :: l') a), <- (length_snoc_Z pre a).
      rewrite (IH (pre ++ [a]) (b :: l')) by (cbn [length]; lia).
      rewrite <- snoc_cons. reflexivity.
Qed.

Lemma bubble_pass_shape (n : nat) :
  forall l : list F32.t,
    (n < length l)%nat ->
    (forall y : F32.t, y ∈ l -> y <> S754_nan) ->
    exists (pre : list F32.t) (x : F32.t),
      bubble_pass n l = pre ++ x :: drop (S n) l /\
      length pre = n /\
      pre ++ [x] ≡ₚ take (S n) l /\
      (forall y : F32.t, y ∈ pre ++ [x] -> le_f32 y x).
Proof.
  induction n as [|n IH]; intros l Hn Hnum.
  - destruct l as [|a l']; cbn [length] in Hn; [lia|].
    exists [], a. cbn. rewrite drop_0. repeat split; try reflexivity.
    intros y Hy. apply list_elem_of_singleton in Hy. subst y.
    apply le_f32_refl. apply Hnum. left.
  - destruct l as [|a [|b l']]; cbn [length] in Hn; try lia.
    assert (Ha : a <> S754_nan) by (apply Hnum; left).
    assert (Hb : b <> S754_nan) by (apply Hnum; right; left).
    cbn [bubble_pass].
    destruct (F32.gtb a b) eqn:E.
    + destruct (IH (a :: l')) as (pre & x & Hp & Hlen & Hperm & Hmax).
      { cbn [length]. lia. }
      { intros y Hy. apply Hnum. apply elem_of_cons in Hy.
        destruct Hy as [->|Hy]; [left|right; right; exact Hy]. }
      assert (Hx : x <> S754_nan).
      { apply Hnum. assert (Hin : x ∈ take (S n) (a :: l')).
        { rewrite <- Hperm. apply elem_of_app. right. left. }
        apply elem_of_take in Hin. destruct Hin as (i & Hi & _).
        apply list_elem_of_lookup_2 in Hi.
        apply elem_of_cons in Hi.
        destruct Hi as [->|Hi]; [left|right; right; exact Hi]. }
      assert (Hax : le_f32 a x).
      { apply Hmax. rewrite Hperm. cbn. left. }
      exists (b :: pre), x. split; [|split; [|split]].
      * rewrite Hp. reflexivity.
      * cbn [length]. rewrite Hlen. reflexivity.
      * cbn [app]. rewrite Hperm. cbn. apply perm_swap.
      * intros y Hy. cbn [app] in Hy. apply elem_of_cons in Hy.
        destruct Hy as [->|Hy]; [|apply Hmax; exact Hy].
        apply (le_f32_trans b a x); try assumption.
        apply gtb_le_f32. exact E.
    + destruct (IH (b :: l')) as (pre & x & Hp & Hlen & Hperm & Hmax).
      { cbn [length]. lia. }
      { intros y Hy. apply Hnum. right. exact Hy. }
      assert (Hx : x <> S754_nan).
      { apply Hnum. assert (Hin : x ∈ take (S n) (b :: l')).
        { rewrite <- Hperm. apply elem_of_app. right. left. }
        apply elem_of_take in Hin. destruct Hin as (i & Hi & _).
        apply list_elem_of_lookup_2 in Hi. right. exact Hi. }
      assert (Hbx : le_f32 b x).
      { apply Hmax. rewrite Hperm. cbn. left. }
      exists (a :: pre), x. split; [|split; [|split]].
      * rewrite Hp. reflexivity.
      * cbn [length]. rewrite Hlen. reflexivity.
      * cbn [app]. rewrite Hperm. reflexivity.
      * intros y Hy. cbn [app] in Hy. apply elem_of_cons in Hy.
        destruct Hy as [->|Hy]; [|apply Hmax; exact Hy].
        apply (le_f32_trans a b x); try assumption.
        apply not_gtb_le_f32; assumption.
Qed.

Lemma bubble_outer_sorts (n : nat) :
  forall pre suf : list F32.t,
    length pre = S n ->
    Z.of_nat (length pre + length suf) < 2 ^ 32 ->
    (forall y : F32.t, y ∈ pre ++ suf -> y <> S754_nan) ->
    StronglySorted le_f32 suf ->
    (forall y z : F32.t, y ∈ pre -> z ∈ suf -> le_f32 y z) ->
    exists p : list F32.t,
      Robust.bubble_outer (pre ++ suf)
                          (Z.of_nat (length pre + length suf))
                          (Z.of_nat (length suf)) n = Some p /\
      p ≡ₚ pre ++ suf /\
      StronglySorted le_f32 p.
Proof.
  induction n as [|n IH]; intros pre suf Hlen Hsize Hnum Hsorted Hbelow.
  - exists (pre ++ suf). split; [reflexivity|]. split; [reflexivity|].
    destruct pre as [|y [|? ?]]; cbn [length] in Hlen; try lia.
    cbn [app]. constructor; [exact Hsorted|].
    apply Forall_forall. intros z Hz. apply Hbelow; [left|exact Hz].
  - cbn [Robust.bubble_outer].
    assert (Hu : u32 (Z.of_nat (length pre + length suf)
                      - Z.of_nat (length suf) - 1) = Z.of_nat (S n)).
    { unfold u32. rewrite Z.mod_small by lia. lia. }
    rewrite Hu, Nat2Z.id.
    pose proof (bubble_inner_pass (S n) [] (pre ++ suf)) as Hin.
    cbn [app length] in Hin. change (Z.of_nat 0) with 0 in Hin.
    rewrite Hin by (rewrite length_app; lia). clear Hin.
    destruct (bubble_pass_shape (S n) (pre ++ suf))
      as (pre' & x & Hp & Hlen' & Hperm & Hmax).
    { rewrite length_app. lia. }
    { exact Hnum. }
    rewrite <- Hlen in Hp, Hperm.
    rewrite drop_app_length in Hp. rewrite take_app_length in Hperm.
    rewrite Hp. cbn [mbind option_bind].
    assert (Hxpre : x ∈ pre).
    { rewrite <- Hperm. apply elem_of_app. right. left. }
    assert (Hpre' : forall y : F32.t, y ∈ pre' -> y ∈ pre).
    { intros y Hy. rewrite <- Hperm. apply elem_of_app. left. exact Hy. }
    destruct (IH pre' (x :: suf)) as (p & Hrun & Hpp & Hps).
    + exact Hlen'.
    + cbn [length]. lia.
    + intros y Hy. apply Hnum. apply elem_of_app in Hy.
      apply elem_of_app. destruct Hy as [Hy|Hy]; [left; auto|].
      apply elem_of_cons in Hy. destruct Hy as [->|Hy]; [left|right]; auto.
    + constructor; [exact Hsorted|].
      apply Forall_forall. intros z Hz. apply Hbelow; assumption.
    + intros y z Hy Hz. apply elem_of_cons in Hz.
      destruct Hz as [->|Hz].
      * apply Hmax. apply elem_of_app. left. exact Hy.
      * apply Hbelow; auto.
    + replace (Z.of_nat (length pre' + length (x :: suf)))
        with (Z.of_nat (length pre + length suf)) in Hrun
        by (cbn [length]; lia).
      replace (Z.of_nat (length (x :: suf)))
        with (Z.of_nat (length suf) + 1) in Hrun
        by (cbn [length]; lia).
      exists p. split; [exact Hrun|]. split; [|exact Hps].
      rewrite Hpp. rewrite (snoc_cons pre' suf x). rewrite Hperm.
      reflexivity.
Qed.

Lemma bubble_sort_total (p : list F32.t) :
  p <> [] -> Z.of_nat (length p) < 2 ^ 32 ->
  (forall y : F32.t, y ∈ p -> y <> S754_nan) ->
  exists q : list F32.t,
    Robust.bubble_sort p = Some q /\
    q ≡ₚ p /\ StronglySorted le_f32 q.
Proof.
  intros Hne Hsize Hnum. unfold Robust.bubble_sort.
  assert (Hlen : exists n : nat, length p = S n).
  { destruct p as [|a p']; [congruence|]. exists (length p'). reflexivity. }
  destruct Hlen as [n Hlen].
  assert (Hu : u32 (Z.of_nat (length p) - 1) = Z.of_nat n).
  { unfold u32. rewrite Z.mod_small by lia. lia. }
  rewrite Hu, Nat2Z.id.
  destruct (bubble_outer_sorts n p []) as (q & Hq & Hperm & Hsorted).
  - exact Hlen.
  - cbn [length]. lia.
  - rewrite app_nil_r. exact Hnum.
  - constructor.
  - intros y z _ Hz. apply elem_of_nil in Hz. destruct Hz.
  - rewrite app_nil_r in Hq, Hperm. cbn [length] in Hq.
    rewrite Nat.add_0_r in Hq. change (Z.of_nat 0) with 0 in Hq.
    exists q. split; [exact Hq|]. split; assumption.
Qed.

(** ** The window loop and the median *)

Lemma window_size_value : Robust.window_size = 800.
Proof. reflexivity. Qed.

Lemma hop_size_value : Robust.hop_size = 400.
Proof. reflexivity. Qed.

Lemma usable_in_pitch_range (r : Pitch.PitchResult) :
  Robust.usable r = true -> in_pitch_range (Pitch.pitch_hz r).
Proof.
  unfold Robust.usable, in_pitch_range. intros H.
  apply andb_true_iff in H. destruct H as [H H2].
  apply andb_true_iff in H. destruct H as [_ H1].
  split; assumption.
Qed.

Lemma collect_total (smp : list Z) (count sample_rate : Z) (n : nat) :
  500 <= sample_rate < 127500 ->
  0 <= count < 2 ^ 31 ->
  count <= Z.of_nat (length smp) ->
  forall (i : Z) (pitches buf : list F32.t),
    0 <= i <= count ->
    count < i + 400 * Z.of_nat n + 800 ->
    Z.of_nat (length buf) = Pitch.DIFF_BUFFER_LEN ->
    Forall in_pitch_range pitches ->
    Z.of_nat (length pitches) <= Robust.MAX_PITCHES ->
    exists ps buf' : list F32.t,
      Robust.collect smp count sample_rate i n pitches buf = Some (ps, buf') /\
      length buf' = length buf /\
      Forall in_pitch_range ps /\
      Z.of_nat (length ps) <= Robust.MAX_PITCHES /\
      (count < i + 800 -> ps = pitches /\ buf' = buf).
Proof.
  intros Hsr Hcount Hsmp.
  induction n as [|n IH]; intros i pitches buf Hi Hfuel Hbuf Hall Hlen.
  - cbn [Robust.collect]. rewrite window_size_value.
    assert (Hu : u32 (i + 800) = i + 800)
      by (unfold u32; apply Z.mod_small; lia).
    rewrite Hu.
    destruct (Z.leb_spec (i + 800) count) as [H|H]; [lia|].
    cbn. exists pitches, buf. repeat split; assumption.
  - cbn [Robust.collect]. rewrite window_size_value, hop_size_value.
    assert (Hu : u32 (i + 800) = i + 800)
      by (unfold u32; apply Z.mod_small; lia).
    assert (Hu' : u32 (i + 400) = i + 400)
      by (unfold u32; apply Z.mod_small; lia).
    rewrite Hu, Hu'.
    destruct (Z.leb_spec (i + 800) count) as [Hw|Hw]; cbn [andb].
    2: { exists pitches, buf. repeat split; assumption. }
    destruct (Z.ltb_spec (Z.of_nat (length pitches)) Robust.MAX_PITCHES)
      as [Hroom|Hfull].
    2: { exists pitches, buf. repeat split; try assumption; lia. }
    destruct (pitch_estimate_total (drop (Z.to_nat i) smp) 800 sample_rate buf)
      as (r & buf1 & Hr & Hl1 & _); try lia.
    { rewrite length_drop. lia. }
    rewrite Hr. cbn [mbind option_bind fst snd].
    destruct (IH (i + 400)
                (if Robust.usable r then pitches ++ [Pitch.pitch_hz r]
                 else pitches) buf1)
      as (ps & buf' & Hrun & Hl2 & Hps & Hpl & _); try lia.
    + destruct (Robust.usable r) eqn:E; [|exact Hall].
      apply Forall_app. split; [exact Hall|].
      constructor; [|constructor]. apply usable_in_pitch_range. exact E.
    + destruct (Robust.usable r); [|lia].
      rewrite length_app. cbn [length]. lia.
    + exists ps, buf'. split; [exact Hrun|].
      split; [congruence|]. split; [exact Hps|]. split; [exact Hpl|]. lia.
Qed.

Lemma collect_windows (smp : list Z) (count sample_rate : Z) (n : nat) :
  500 <= sample_rate < 127500 ->
  0 <= count < 2 ^ 31 ->
  count <= Z.of_nat (length smp) ->
  forall (i : Z) (pitches buf ps buf' : list F32.t),
    0 <= i <= count -> i mod 400 = 0 ->
    Z.of_nat (length buf) = Pitch.DIFF_BUFFER_LEN ->
    Forall (window_estimate smp count sample_rate) pitches ->
    Robust.collect smp count sample_rate i n pitches buf = Some (ps, buf') ->
    Forall (window_estimate smp count sample_rate) ps.
Proof.
  intros Hsr Hcount Hsmp.
  induction n as [|n IH]; intros i pitches buf ps buf' Hi Hmod Hbuf Hall Hrun.
  - cbn [Robust.collect] in Hrun.
    destruct (_ && _); [discriminate|]. injection Hrun as <- <-. exact Hall.
  - cbn [Robust.collect] in Hrun.
    rewrite window_size_value, hop_size_value in Hrun.
    assert (Hu : u32 (i + 800) = i + 800)
      by (unfold u32; apply Z.mod_small; lia).
    assert (Hu' : u32 (i + 400) = i + 400)
      by (unfold u32; apply Z.mod_small; lia).
    rewrite Hu, Hu' in Hrun.
    destruct (Z.leb_spec (i + 800) count) as [Hw|Hw]; cbn [andb] in Hrun.
    2: { injection Hrun as <- <-. exact Hall. }
    destruct (Z.of_nat (length pitches) <? Robust.MAX_PITCHES).
    2: { injection Hrun as <- <-. exact Hall. }
    destruct (pitch_estimate_total (drop (Z.to_nat i) smp) 800 sample_rate buf)
      as (r & buf1 & Hr & Hl1 & _); try lia.
    { rewrite length_drop. lia. }
    rewrite Hr in Hrun. cbn [mbind option_bind fst snd] in Hrun.
    apply (IH (i + 400)
              (if Robust.usable r then pitches ++ [Pitch.pitch_hz r]
               else pitches) buf1 ps buf'); try lia.
    + rewrite <- Zplus_mod_idemp_l, Hmod. reflexivity.
    + destruct (Robust.usable r) eqn:E; [|exact Hall].
      apply Forall_app. split; [exact Hall|].
      constructor; [|constructor].
      exists i, buf, buf1, r. rewrite window_size_value, hop_size_value.
      repeat split; try assumption; lia.
    + exact Hrun.
Qed.

Lemma in_pitch_range_number (x : F32.t) : in_pitch_range x -> x <> S754_nan.
Proof.
  intros [H _]. unfold F32.gtb in H.
  apply SFltb_not_nan in H. tauto.
Qed.

Lemma in_pitch_range_classify (x : F32.t) :
  in_pitch_range x ->
  Pitch.pitch_classify x
  = if F32.leb (F32.of_Z Pitch.PITCH_CHILD_THRESHOLD_HZ) x
    then Pitch.SPEAKER_CHILD else Pitch.SPEAKER_ADULT.
Proof.
  intros Hx. pose proof (in_pitch_range_number x Hx) as Hn.
  destruct Hx as [Hlo _]. unfold F32.gtb in Hlo.
  unfold Pitch.pitch_classify.
  assert (H0 : SFltb F32.zero x = true).
  { apply (SFltb_trans _ (F32.of_Z Pitch.PITCH_MIN_HZ));
      [vm_compute; reflexivity|exact Hlo]. }
  unfold F32.leb at 1. rewrite SFleb_nltb by (try assumption; discriminate).
  rewrite H0. reflexivity.
Qed.

Lemma confidence_value (n : Z) :
  1 <= n <= 16 ->
  (if F32.gtb (F32.div (F32.of_Z n) Robust.c_8_0) F32.one
   then F32.one else F32.div (F32.of_Z n) Robust.c_8_0)
  = if 8 <=? n then F32.one else F32.div (F32.of_Z n) Robust.c_8_0.
Proof.
  intros Hn.
  assert (H : n = 1 \/ n = 2 \/ n = 3 \/ n = 4 \/ n = 5 \/ n = 6 \/ n = 7 \/
              n = 8 \/ n = 9 \/ n = 10 \/ n = 11 \/ n = 12 \/ n = 13 \/
              n = 14 \/ n = 15 \/ n = 16) by lia.
  repeat (destruct H as [->|H]; [vm_compute; reflexivity|]).
  subst n. vm_compute. reflexivity.
Qed.

Lemma pitch_estimate_robust_total
      (smp : list Z) (count sample_rate : Z) (buf : list F32.t) :
  500 <= sample_rate < 127500 ->
  0 <= count < 2 ^ 31 ->
  count <= Z.of_nat (length smp) ->
  Z.of_nat (length buf) = Pitch.DIFF_BUFFER_LEN ->
  exists (r : Pitch.PitchResult) (buf' : list F32.t),
    Robust.pitch_estimate_robust smp count sample_rate buf = Some (r, buf') /\
    length buf' = length buf /\
    (count < Robust.window_size -> r = Pitch.no_pitch /\ buf' = buf) /\
    (Pitch.valid r = false ->
     r = Pitch.no_pitch /\
     Robust.collect smp count sample_rate 0
                    (Z.to_nat (count / Robust.hop_size)) [] buf
     = Some ([], buf')) /\
    (Pitch.valid r = true ->
     in_pitch_range (Pitch.pitch_hz r) /\
     Pitch.speaker r
     = (if F32.leb (F32.of_Z Pitch.PITCH_CHILD_THRESHOLD_HZ) (Pitch.pitch_hz r)
        then Pitch.SPEAKER_CHILD else Pitch.SPEAKER_ADULT) /\
     exists pitches sorted : list F32.t,
       Robust.collect smp count sample_rate 0
                      (Z.to_nat (count / Robust.hop_size)) [] buf
       = Some (pitches, buf') /\
       1 <= Z.of_nat (length pitches) <= Robust.MAX_PITCHES /\
       Forall in_pitch_range pitches /\
       Forall (window_estimate smp count sample_rate) pitches /\
       sorted ≡ₚ pitches /\
       StronglySorted le_f32 sorted /\
       read sorted (Z.of_nat (length pitches) / 2) = Some (Pitch.pitch_hz r) /\
       Pitch.confidence r
       = if 8 <=? Z.of_nat (length pitches) then F32.one
         else F32.div (F32.of_Z (Z.of_nat (length pitches))) Robust.c_8_0).
Proof.
  intros Hsr Hcount Hsmp Hbuf.
  unfold Robust.pitch_estimate_robust.
  destruct (collect_total smp count sample_rate
              (Z.to_nat (count / Robust.hop_size)) Hsr Hcount Hsmp 0 [] buf)
    as (ps & buf' & Hrun & Hl & Hps & Hpl & Hshort).
  - lia.
  - rewrite hop_size_value. rewrite Z2Nat.id by (apply Z.div_pos; lia).
    Z.div_mod_to_equations. lia.
  - exact Hbuf.
  - constructor.
  - cbn. unfold Robust.MAX_PITCHES. lia.
  - assert (Hwin : Forall (window_estimate smp count sample_rate) ps).
    { apply (collect_windows smp count sample_rate
               (Z.to_nat (count / Robust.hop_size)) Hsr Hcount Hsmp
               0 [] buf ps buf'); try assumption; try lia.
      - reflexivity.
      - constructor. }
    rewrite Hrun. cbn [mbind option_bind fst snd].
    destruct (Z.eqb_spec (Z.of_nat (length ps)) 0) as [Hz|Hnz].
    { exists Pitch.no_pitch, buf'. split; [reflexivity|].
      split; [exact Hl|]. split.
      - rewrite window_size_value. intros Hc.
        destruct Hshort as [_ Hb]; [lia|]. split; [reflexivity|exact Hb].
      - split; [|discriminate]. intros _. split; [reflexivity|].
        destruct ps; [reflexivity|cbn in Hz; lia]. }
    unfold Robust.MAX_PITCHES in Hpl.
    destruct (bubble_sort_total ps) as (q & Hq & Hperm & Hsorted).
    { intros ->. apply Hnz. reflexivity. }
    { lia. }
    { intros y Hy. apply in_pitch_range_number.
      rewrite Forall_forall in Hps. apply Hps. exact Hy. }
    rewrite Hq. cbn [mbind option_bind].
    assert (Hql : length q = length ps) by (rewrite Hperm; reflexivity).
    destruct (read_in_range q (Z.of_nat (length ps) / 2)) as [hz Hhz].
    { rewrite Hql. Z.div_mod_to_equations. lia. }
    rewrite Hhz. cbn [mbind option_bind].
    assert (Hin : in_pitch_range hz).
    { rewrite Forall_forall in Hps. apply Hps. rewrite <- Hperm.
      unfold read in Hhz.
      destruct (Z.of_nat (length ps) / 2 <? 0); [discriminate|].
      apply list_elem_of_lookup_2 in Hhz. exact Hhz. }
    eexists. exists buf'. split; [reflexivity|].
    split; [exact Hl|]. split.
    { rewrite window_size_value. intros Hc.
      destruct Hshort as [Hb _]; [lia|]. subst ps. cbn in Hnz. lia. }
    split; [discriminate|].
    intros _. cbn [Pitch.pitch_hz Pitch.speaker Pitch.confidence].
    split; [exact Hin|].
    split; [apply in_pitch_range_classify; exact Hin|].
    exists ps, q. split; [reflexivity|].
    split; [unfold Robust.MAX_PITCHES; lia|].
    split; [exact Hps|]. split; [exact Hwin|].
    split; [exact Hperm|]. split; [exact Hsorted|].
    split; [exact Hhz|].
    apply confidence_value. lia.
Qed.

(** [pitch_estimate_robust] on any sample array and any sample rate whose lag
    range is not empty: no access leaves [samples], [diff_buffer] or
    [pitches]; with fewer samples than one window the result is the all-zero
    "invalid" record; an invalid result is that record and means that the
    window loop stored no estimate; a valid result is the element of rank
    [pitch_count / 2] of the sorted stored estimates, of which there are
    at most 16, each the valid estimate [pitch_estimate] gave for one of
    the windows and each strictly between 75 and 500 Hz; its speaker label
    is never Unknown, and the confidence is [pitch_count / 8], exactly 1
    from eight stored estimates on. *)
Theorem pitch_estimate_robust_median
        (smp : list Z) (count sample_rate : Z) (buf : list F32.t) :
  500 <= sample_rate < 127500 ->
  0 <= count < 2 ^ 31 ->
  count <= Z.of_nat (length smp) ->
  Z.of_nat (length buf) = Pitch.DIFF_BUFFER_LEN ->
  exists (r : Pitch.PitchResult) (buf' : list F32.t),
    Robust.pitch_estimate_robust smp count sample_rate buf = Some (r, buf') /\
    length buf' = length buf /\
    (count < Robust.window_size -> r = Pitch.no_pitch /\ buf' = buf) /\
    (Pitch.valid r = false ->
     r = Pitch.no_pitch /\
     Robust.collect smp count sample_rate 0
                    (Z.to_nat (count / Robust.hop_size)) [] buf
     = Some ([], buf')) /\
    (Pitch.valid r = true ->
     in_pitch_range (Pitch.pitch_hz r) /\
     Pitch.speaker r
     = (if F32.leb (F32.of_Z Pitch.PITCH_CHILD_THRESHOLD_HZ) (Pitch.pitch_hz r)
        then Pitch.SPEAKER_CHILD else Pitch.SPEAKER_ADULT) /\
     exists pitches sorted : list F32.t,
       Robust.collect smp count sample_rate 0
                      (Z.to_nat (count / Robust.hop_size)) [] buf
       = Some (pitches, buf') /\
       1 <= Z.of_nat (length pitches) <= Robust.MAX_PITCHES /\
       Forall in_pitch_range pitches /\
       Forall (window_estimate smp count sample_rate) pitches /\
       sorted ≡ₚ pitches /\
       StronglySorted le_f32 sorted /\
       read sorted (Z.of_nat (length pitches) / 2) = Some (Pitch.pitch_hz r) /\
       Pitch.confidence r
       = if 8 <=? Z.of_nat (length pitches) then F32.one
         else F32.div (F32.of_Z (Z.of_nat (length pitches))) Robust.c_8_0).
Proof.
  intros Hsr Hcount Hsmp Hbuf.
  exact (pitch_estimate_robust_total smp count sample_rate buf
           Hsr Hcount Hsmp Hbuf).
Qed.

(** The sort of [pitch_estimate_robust] on any non-empty array of numbers:
    every access is inside the array and the array ends up sorted, with the
    same elements. *)
Theorem bubble_sort_sorts (p : list F32.t) :
  p <> [] -> Z.of_nat (length p) < 2 ^ 32 ->
  (forall y : F32.t, y ∈ p -> y <> S754_nan) ->
  exists q : list F32.t,
    Robust.bubble_sort p = Some q /\
    q ≡ₚ p /\ StronglySorted le_f32 q.
Proof.
  intros Hne Hsize Hnum. exact (bubble_sort_total p Hne Hsize Hnum).
Qed.

(** ** VAD: digital silence *)

Lemma sum_squares_zeros (l : list Z) :
  Forall (fun x => x = 0) l -> sum_squares l = 0.
Proof.
  unfold sum_squares. intros H.
  assert (G : forall acc, fold_left (fun acc s => acc + s * s) l acc = acc).
  { induction H as [|x l Hx Hl IH]; intros acc; [reflexivity|].
    cbn [fold_left]. subst x. rewrite IH. lia. }
  apply G.
Qed.

Lemma calculate_energy_zeros (l : list Z) :
  Forall (fun x => x = 0) (take (Z.to_nat AUDIO_FRAME_SAMPLES) l) ->
  Vad.calculate_energy l AUDIO_FRAME_SAMPLES = F32.zero.
Proof.
  intros H. unfold Vad.calculate_energy, rms_normalized.
  rewrite (sum_squares_zeros _ H). vm_compute. reflexivity.
Qed.

(** A rounded product of two non-negative numbers is not below zero. *)
Lemma binary_round_aux_not_negative (mx ex : Z) (lx : location) (s : bool) :
  SFltb (binary_round_aux F32.prec F32.emax false mx ex lx) (S754_zero s)
  = false.
Proof.
  unfold binary_round_aux.
  destruct (shr_fexp F32.prec F32.emax mx ex lx) as [mrs e].
  destruct (shr_fexp F32.prec F32.emax _ e loc_Exact) as [mrs' e'].
  destruct (shr_m mrs'); [reflexivity| |reflexivity].
  destruct (e' <=? F32.emax - F32.prec); reflexivity.
Qed.

Lemma clamped_threshold_not_negative (nf : F32.t) :
  noise_floor_clamped nf -> F32.ltb (F32.mul nf Vad.c_3_0) F32.zero = false.
Proof.
  intros [Hlo _]. unfold F32.ltb, F32.mul, F32.zero in *.
  destruct nf as [s|s| |s m e].
  - destruct s; vm_compute in Hlo; discriminate.
  - destruct s; [vm_compute in Hlo; discriminate|reflexivity].
  - reflexivity.
  - destruct s; [vm_compute in Hlo; discriminate|].
    unfold Vad.c_3_0, SFmul. cbn [xorb].
    apply binary_round_aux_not_negative.
Qed.

Lemma effective_threshold_not_negative (e : F32.t) (v : Vad.t) :
  threshold_not_negative v ->
  F32.ltb (Vad.get_effective_threshold
             (if Vad.adaptive_enabled v then Vad.update_noise_floor e v
              else v)) F32.zero = false.
Proof.
  unfold threshold_not_negative, Vad.get_effective_threshold.
  destruct (Vad.adaptive_enabled v) eqn:Ha.
  - intros Hc.
    assert (Ha' : Vad.adaptive_enabled (Vad.update_noise_floor e v) = true).
    { unfold Vad.update_noise_floor.
      destruct (Vad.current_state v); cbn; exact Ha. }
    rewrite Ha'. apply clamped_threshold_not_negative.
    destruct (Vad.current_state v) eqn:Hs.
    + apply update_noise_floor_clamps. exact Hs.
    + unfold Vad.update_noise_floor. rewrite Hs. exact Hc.
    + unfold Vad.update_noise_floor. rewrite Hs. exact Hc.
  - rewrite Ha. auto.
Qed.

Lemma zero_frame_silent (f : AudioFrame) (v : Vad.t) :
  valid f = true ->
  Forall (fun x => x = 0) (take (Z.to_nat AUDIO_FRAME_SAMPLES) (samples f)) ->
  threshold_not_negative v ->
  let r := fst (Vad.vad_process (Some f) v) in
  let v' := snd (Vad.vad_process (Some f) v) in
  energy r = F32.zero /\
  Vad.current_state v' <> VAD_STATE_SPEECH /\
  (Vad.current_state v = VAD_STATE_SILENCE ->
     Vad.current_state v' = VAD_STATE_SILENCE /\ is_speech r = false /\
     Vad.segment_ready v' = Vad.segment_ready v /\
     Vad.pending_segment v' = Vad.pending_segment v) /\
  (Vad.current_state v = VAD_STATE_SPEECH ->
     Vad.current_state v' = VAD_STATE_HANGOVER).
Proof.
  intros Hv Hz Hthr. cbv zeta. unfold Vad.vad_process. rewrite Hv.
  cbn [negb fst snd energy is_speech].
  rewrite (calculate_energy_zeros _ Hz).
  set (zcr := Vad.calculate_zcr _ _).
  pose proof (effective_threshold_not_negative F32.zero v Hthr) as Hneg.
  set (v1 := if Vad.adaptive_enabled v then _ else v) in *.
  assert (Hs1 : Vad.current_state v1 = Vad.current_state v).
  { subst v1. destruct (Vad.adaptive_enabled v); [|reflexivity].
    unfold Vad.update_noise_floor.
    destruct (Vad.current_state v) eqn:E; cbn; rewrite ?E; reflexivity. }
  assert (Hr1 : Vad.segment_ready v1 = Vad.segment_ready v /\
                Vad.pending_segment v1 = Vad.pending_segment v).
  { subst v1. destruct (Vad.adaptive_enabled v); [|split; reflexivity].
    unfold Vad.update_noise_floor.
    destruct (Vad.current_state v); split; reflexivity. }
  assert (Hsp : Vad.frame_is_speech F32.zero zcr
                  (Vad.get_effective_threshold v1) = false).
  { destruct (Vad.frame_is_speech F32.zero zcr
                (Vad.get_effective_threshold v1)) eqn:E; [|reflexivity].
    apply frame_is_speech_above in E. unfold F32.gtb in E.
    unfold F32.ltb in Hneg. congruence. }
  rewrite Hsp. unfold Vad.step_machine. rewrite Hs1.
  split; [reflexivity|].
  destruct (Vad.current_state v) eqn:Hs; cbn [negb].
  - destruct Hr1 as [Hr1 Hr2]. rewrite Hs1.
    repeat split; try discriminate; try assumption.
  - rewrite transition_to_state.
    repeat split; try discriminate.
  - destruct (u32 (timestamp_ms f - Vad.state_start_time v1)
              >? VAD_HANGOVER_MS).
    + rewrite transition_to_state. repeat split; discriminate.
    + rewrite Hs1. repeat split; discriminate.
Qed.

(** A frame of digital silence (all 480 samples zero) has energy 0 and is
    never classified as speech, whatever the noise floor or the configured
    threshold (not negative): it cannot start speech from Silence, it ends
    Speech into Hangover, and the detector is never left in Speech. *)
Theorem zero_frame_is_not_speech (f : AudioFrame) (v : Vad.t) :
  valid f = true ->
  Forall (fun x => x = 0) (take (Z.to_nat AUDIO_FRAME_SAMPLES) (samples f)) ->
  threshold_not_negative v ->
  let r := fst (Vad.vad_process (Some f) v) in
  let v' := snd (Vad.vad_process (Some f) v) in
  energy r = F32.zero /\
  Vad.current_state v' <> VAD_STATE_SPEECH /\
  (Vad.current_state v = VAD_STATE_SILENCE ->
     Vad.current_state v' = VAD_STATE_SILENCE /\ is_speech r = false /\
     Vad.segment_ready v' = Vad.segment_ready v /\
     Vad.pending_segment v' = Vad.pending_segment v) /\
  (Vad.current_state v = VAD_STATE_SPEECH ->
     Vad.current_state v' = VAD_STATE_HANGOVER).
Proof.
  intros Hv Hz Hthr.
  exact (zero_frame_silent f v Hv Hz Hthr).
Qed.


Lemma zero_frame_is_not_speech_witness :
  Vad.current_state
    (snd (Vad.vad_process (Some (Demo.silent 1000))
                          (Vad.vad_set_adaptive true Demo.vad0)))
  <> VAD_STATE_SPEECH.
Proof.
  destruct (zero_frame_is_not_speech (Demo.silent 1000)
              (Vad.vad_set_adaptive true Demo.vad0)) as (_ & H & _).
  - reflexivity.
  - apply Forall_take. apply Forall_replicate. reflexivity.
  - split; vm_compute; reflexivity.
  - exact H.
Defined.

Arguments to_uint8 : simpl never.
Arguments constrain : simpl never.
Arguments u8 : simpl never.

(** ** Feedback patterns *)

(** Every pattern table is terminated inside [MAX_PATTERN_STEPS] entries:
    counting its steps reads inside the table and finds 1 to 3 of them; the
    deadline loop reads inside the table and does not wrap. *)
Lemma pattern_tables (ty : FeedbackType) :
  ty <> FEEDBACK_NONE ->
  exists (steps : list Feedback.PatternStep) (total : Z),
    Feedback.plays ty steps total /\ 1 <= total <= 3 /\
    (forall k : Z, 0 <= k < total ->
       exists st : Feedback.PatternStep, read steps k = Some st) /\
    (forall k : Z, 0 <= k < total ->
       Feedback.step_end_loop steps 0 (Z.to_nat (Z.min (k + 1) total)) 0
       = Some (Feedback.deadline steps k)) /\
    (forall j k : Z, 0 <= j <= k -> k < total ->
       Feedback.deadline steps j <= Feedback.deadline steps k).
Proof.
  intros Hty.
  destruct ty; try congruence; eexists; eexists;
    (split; [split; [reflexivity | vm_compute; reflexivity]|]);
    (split; [lia|]); (split; [|split]).
  all: try (intros k Hk'; assert (H : k = 0 \/ k = 1 \/ k = 2) by lia;
            destruct H as [->|[->| ->]];
            first [ lia
                  | eexists; reflexivity
                  | vm_compute; reflexivity ]).
  all: intros j k Hj Hk';
    assert (Hjk : (j = 0 \/ j = 1 \/ j = 2) /\ (k = 0 \/ k = 1 \/ k = 2))
      by lia;
    destruct Hjk as [[->|[->| ->]] [->|[->| ->]]]; try lia;
    vm_compute; discriminate.
Qed.

Lemma plays_fun (ty : FeedbackType) (steps steps' : list Feedback.PatternStep)
      (total total' : Z) :
  Feedback.plays ty steps total -> Feedback.plays ty steps' total' ->
  steps' = steps /\ total' = total.
Proof.
  intros [H1 H2] [H1' H2']. rewrite H1 in H1'. injection H1' as <-.
  rewrite H2 in H2'. injection H2' as <-. split; reflexivity.
Qed.

Lemma plays_not_none (ty : FeedbackType) (steps : list Feedback.PatternStep)
      (total : Z) :
  Feedback.plays ty steps total -> ty <> FEEDBACK_NONE.
Proof. intros [H _] ->. discriminate. Qed.

Lemma FeedbackType_eq_none (ty : FeedbackType) :
  ty = FEEDBACK_NONE \/ ty <> FEEDBACK_NONE.
Proof. destruct ty; first [left; reflexivity | right; discriminate]. Qed.

Lemma u8_small (z : Z) : 0 <= z < 2 ^ 8 -> u8 z = z.
Proof. intros Hz. unfold u8. apply Z.mod_small. exact Hz. Qed.

(** One call of [feedback_process] on an active pattern, at step [k] of
    [total]: before the deadline of the step nothing happens; from the
    deadline on, the call moves to the next step and applies it, or, at the
    last step, ends the pattern and switches everything off. *)
Lemma feedback_process_cases (now : Z) (s : Feedback.t)
      (steps : list Feedback.PatternStep) (total : Z) :
  Feedback.pattern_active s = true ->
  Feedback.plays (Feedback.current_pattern s) steps total ->
  0 <= Feedback.pattern_step s < total ->
  let k := Feedback.pattern_step s in
  let elapsed := u32 (now - Feedback.pattern_start_time s) in
  (elapsed < Feedback.deadline steps k ->
     Feedback.feedback_process now s = Some s) /\
  (Feedback.deadline steps k <= elapsed -> k + 1 < total ->
     exists st : Feedback.PatternStep,
       read steps (k + 1) = Some st /\
       Feedback.feedback_process now s
       = Some {| Feedback.pattern_active := true;
                 Feedback.current_pattern := Feedback.current_pattern s;
                 Feedback.pattern_start_time := Feedback.pattern_start_time s;
                 Feedback.pattern_step := k + 1;
                 Feedback.pattern_intensity := Feedback.pattern_intensity s;
                 Feedback.global_brightness := Feedback.global_brightness s;
                 Feedback.current_color := Feedback.color st;
                 Feedback.pwm :=
                   Feedback.pwm s
                   ++ Feedback.step_writes st (Feedback.global_brightness s)
                        (Feedback.pattern_intensity s) |}) /\
  (Feedback.deadline steps k <= elapsed -> k + 1 = total ->
     Feedback.feedback_process now s
     = Some {| Feedback.pattern_active := false;
               Feedback.current_pattern := FEEDBACK_NONE;
               Feedback.pattern_start_time := Feedback.pattern_start_time s;
               Feedback.pattern_step := 0;
               Feedback.pattern_intensity := Feedback.pattern_intensity s;
               Feedback.global_brightness := Feedback.global_brightness s;
               Feedback.current_color := Feedback.COLOR_OFF;
               Feedback.pwm :=
                 Feedback.pwm s
                 ++ Feedback.off_writes (Feedback.global_brightness s) |}).
Proof.
  intros Hact Hplays Hk. cbv zeta.
  destruct (pattern_tables (Feedback.current_pattern s)
              (plays_not_none _ _ _ Hplays))
    as (steps' & total' & Hp' & Htot & Hread & Hend & _).
  destruct (plays_fun _ _ _ _ _ Hplays Hp') as [-> ->].
  destruct Hplays as [Hsteps Hcount].
  unfold Feedback.feedback_process. rewrite Hact, Hsteps. cbn [negb].
  rewrite Hcount. cbn [mbind option_bind].
  rewrite (Hend _ Hk). cbn [mbind option_bind].
  rewrite Z.geb_leb.
  destruct (Z.leb_spec (Feedback.deadline steps (Feedback.pattern_step s))
              (u32 (now - Feedback.pattern_start_time s))) as [Hd|Hd].
  - split; [lia|]. cbn [Feedback.with_step Feedback.pattern_step].
    rewrite u8_small by lia. rewrite Z.geb_leb.
    destruct (Z.leb_spec total (Feedback.pattern_step s + 1)) as [Hl|Hl].
    + split; [lia|]. intros _ _. unfold Feedback.feedback_cancel,
        Feedback.feedback_haptic_off, Feedback.feedback_led_off,
        Feedback.emit, Feedback.set_led_pwm, Feedback.off_writes.
      cbn. rewrite <- app_assoc. reflexivity.
    + split; [|lia]. intros _ _.
      destruct (Hread (Feedback.pattern_step s + 1)) as [st Hst]; [lia|].
      exists st. split; [exact Hst|]. rewrite Hst. cbn [mbind option_bind].
      unfold Feedback.set_haptic_pwm, Feedback.emit, Feedback.set_led_pwm,
        Feedback.step_writes.
      cbn. rewrite Hact, <- app_assoc. reflexivity.
  - split; [reflexivity|]. split; lia.
Qed.

Lemma consistent_same (s s' : Feedback.t) :
  Feedback.pattern_active s' = Feedback.pattern_active s ->
  Feedback.current_pattern s' = Feedback.current_pattern s ->
  Feedback.pattern_step s' = Feedback.pattern_step s ->
  Feedback.consistent s -> Feedback.consistent s'.
Proof.
  unfold Feedback.consistent. intros -> -> ->. auto.
Qed.

Lemma feedback_cancel_consistent (s : Feedback.t) :
  Feedback.consistent (Feedback.feedback_cancel s).
Proof. split; reflexivity. Qed.

Lemma feedback_trigger_total (ty : FeedbackType) (x : F32.t) (now : Z)
      (s : Feedback.t) :
  exists s' : Feedback.t,
    Feedback.feedback_trigger ty x now s = Some s' /\
    Feedback.consistent s' /\
    Feedback.global_brightness s' = Feedback.global_brightness s /\
    (ty = FEEDBACK_NONE -> s' = Feedback.feedback_cancel s) /\
    (ty <> FEEDBACK_NONE ->
     Feedback.pattern_active s' = true /\
     Feedback.current_pattern s' = ty /\
     Feedback.pattern_start_time s' = now /\
     Feedback.pattern_step s' = 0 /\
     Feedback.pattern_intensity s' = constrain x F32.zero F32.one /\
     exists st : Feedback.PatternStep,
       (exists steps : list Feedback.PatternStep,
          Feedback.get_pattern_steps ty = Some steps /\
          read steps 0 = Some st) /\
       Feedback.pwm s'
       = Feedback.pwm s
         ++ Feedback.off_writes (Feedback.global_brightness s)
         ++ Feedback.step_writes st (Feedback.global_brightness s)
              (constrain x F32.zero F32.one)).
Proof.
  unfold Feedback.feedback_trigger.
  destruct (FeedbackType_eq_none ty) as [->|Hty].
  - exists (Feedback.feedback_cancel s).
    split; [reflexivity|]. split; [apply feedback_cancel_consistent|].
    split; [reflexivity|]. split; [reflexivity|].
    intros Hne. congruence.
  - destruct (pattern_tables ty Hty)
      as (steps & total & [Hsteps Hcount] & Htot & Hread & _).
    destruct (Hread 0) as [st Hst]; [lia|].
    assert (Hn : Feedback.FeedbackType_is_none ty = false)
      by (destruct ty; try reflexivity; congruence).
    rewrite Hn, Hsteps, Hst. cbn [mbind option_bind].
    eexists. split; [reflexivity|].
    split.
    { unfold Feedback.consistent. cbn.
      exists steps, total. split; [split; assumption|]. lia. }
    split; [reflexivity|].
    split; [intros H; congruence|].
    intros _. cbn.
    do 5 (split; [reflexivity|]).
    exists st. split; [exists steps; split; [reflexivity | exact Hst]|].
    unfold Feedback.off_writes, Feedback.step_writes.
    rewrite <- !app_assoc. reflexivity.
Qed.

Lemma feedback_process_inactive (now : Z) (s : Feedback.t) :
  Feedback.pattern_active s = false -> Feedback.feedback_process now s = Some s.
Proof.
  intros H. unfold Feedback.feedback_process. rewrite H. reflexivity.
Qed.

Lemma feedback_process_consistent (now : Z) (s : Feedback.t) :
  Feedback.consistent s ->
  exists s' : Feedback.t,
    Feedback.feedback_process now s = Some s' /\ Feedback.consistent s'.
Proof.
  intros Hc. destruct (Feedback.pattern_active s) eqn:Hact.
  - pose proof Hc as Hc'. unfold Feedback.consistent in Hc'.
    rewrite Hact in Hc'. destruct Hc' as (steps & total & Hplays & Hk).
    destruct (feedback_process_cases now s steps total Hact Hplays Hk)
      as (Hearly & Hnext & Hlast).
    destruct (Z.lt_ge_cases (u32 (now - Feedback.pattern_start_time s))
                (Feedback.deadline steps (Feedback.pattern_step s)))
      as [Hd|Hd].
    + exists s. split; [apply Hearly; exact Hd | exact Hc].
    + destruct (Z.lt_ge_cases (Feedback.pattern_step s + 1) total) as [Hl|Hl].
      * destruct (Hnext Hd Hl) as (st & _ & Hrun).
        eexists. split; [exact Hrun|].
        unfold Feedback.consistent. cbn.
        exists steps, total. split; [exact Hplays | lia].
      * eexists. split; [apply Hlast; [exact Hd | lia]|].
        split; reflexivity.
  - exists s. split; [apply feedback_process_inactive; exact Hact | exact Hc].
Qed.

Lemma exec_consistent (c : Feedback.call) (s : Feedback.t) :
  Feedback.consistent s ->
  exists s' : Feedback.t,
    Feedback.exec c s = Some s' /\ Feedback.consistent s'.
Proof.
  intros Hc. destruct c as [ty x now|now| |col| | |x]; cbn [Feedback.exec].
  - destruct (feedback_trigger_total ty x now s) as (s' & H1 & H2 & _).
    exists s'. split; assumption.
  - apply feedback_process_consistent. exact Hc.
  - eexists. split; [reflexivity | apply feedback_cancel_consistent].
  - eexists. split; [reflexivity|].
    apply (consistent_same s); try reflexivity. exact Hc.
  - eexists. split; [reflexivity|].
    apply (consistent_same s); try reflexivity. exact Hc.
  - eexists. split; [reflexivity|].
    apply (consistent_same s); try reflexivity. exact Hc.
  - eexists. split; [reflexivity|].
    unfold Feedback.feedback_set_brightness. cbv zeta.
    match goal with |- context [if ?b then _ else _] => destruct b end;
      apply (consistent_same s); try reflexivity; exact Hc.
Qed.

(** Whatever calls a client makes, in whatever order and at whatever times
    (triggers of any type and intensity, [feedback_process], cancels, LED
    and brightness settings), no pattern table is read outside its entries
    and the player stays consistent: an active pattern stands at one of its
    steps, a player at rest has pattern [FEEDBACK_NONE] and step 0. *)
Theorem feedback_calls_stay_consistent (cs : list Feedback.call) :
  forall s : Feedback.t,
    Feedback.consistent s ->
    exists s' : Feedback.t,
      Feedback.run cs s = Some s' /\ Feedback.consistent s'.
Proof.
  induction cs as [|c cs IH]; intros s Hc.
  - exists s. split; [reflexivity | exact Hc].
  - cbn [Feedback.run].
    destruct (exec_consistent c s Hc) as (s1 & H1 & Hc1).
    rewrite H1. cbn [mbind option_bind]. apply IH. exact Hc1.
Qed.

(** One call of [feedback_process] on an active pattern standing at step
    [k] of [total]: before the deadline of the step (the sum of the
    durations of steps 0 to [k], counted from the trigger in [uint32_t]
    time) nothing changes and nothing is written; from the deadline on, one
    call moves one step further and writes that step's LED colour and motor
    duty, or, at the last step, ends the pattern and writes the LED and the
    motor off. *)
Theorem feedback_process_step (now : Z) (s : Feedback.t)
        (steps : list Feedback.PatternStep) (total : Z) :
  Feedback.pattern_active s = true ->
  Feedback.plays (Feedback.current_pattern s) steps total ->
  0 <= Feedback.pattern_step s < total ->
  let k := Feedback.pattern_step s in
  let elapsed := u32 (now - Feedback.pattern_start_time s) in
  (elapsed < Feedback.deadline steps k ->
     Feedback.feedback_process now s = Some s) /\
  (Feedback.deadline steps k <= elapsed -> k + 1 < total ->
     exists st : Feedback.PatternStep,
       read steps (k + 1) = Some st /\
       Feedback.feedback_process now s
       = Some {| Feedback.pattern_active := true;
                 Feedback.current_pattern := Feedback.current_pattern s;
                 Feedback.pattern_start_time := Feedback.pattern_start_time s;
                 Feedback.pattern_step := k + 1;
                 Feedback.pattern_intensity := Feedback.pattern_intensity s;
                 Feedback.global_brightness := Feedback.global_brightness s;
                 Feedback.current_color := Feedback.color st;
                 Feedback.pwm :=
                   Feedback.pwm s
                   ++ Feedback.step_writes st (Feedback.global_brightness s)
                        (Feedback.pattern_intensity s) |}) /\
  (Feedback.deadline steps k <= elapsed -> k + 1 = total ->
     Feedback.feedback_process now s
     = Some {| Feedback.pattern_active := false;
               Feedback.current_pattern := FEEDBACK_NONE;
               Feedback.pattern_start_time := Feedback.pattern_start_time s;
               Feedback.pattern_step := 0;
               Feedback.pattern_intensity := Feedback.pattern_intensity s;
               Feedback.global_brightness := Feedback.global_brightness s;
               Feedback.current_color := Feedback.COLOR_OFF;
               Feedback.pwm :=
                 Feedback.pwm s
                 ++ Feedback.off_writes (Feedback.global_brightness s) |}).
Proof.
  intros Hact Hplays Hk.
  exact (feedback_process_cases now s steps total Hact Hplays Hk).
Qed.

(** [feedback_trigger] always cancels what was playing first (LED and motor
    are written off), whatever the state; for a type other than
    [FEEDBACK_NONE] it then starts that type's pattern at step 0 with the
    intensity constrained to [0, 1] and writes the first step at once. *)
Theorem feedback_trigger_restarts (ty : FeedbackType) (x : F32.t) (now : Z)
        (s : Feedback.t) :
  exists s' : Feedback.t,
    Feedback.feedback_trigger ty x now s = Some s' /\
    Feedback.consistent s' /\
    Feedback.global_brightness s' = Feedback.global_brightness s /\
    (ty = FEEDBACK_NONE -> s' = Feedback.feedback_cancel s) /\
    (ty <> FEEDBACK_NONE ->
     Feedback.pattern_active s' = true /\
     Feedback.current_pattern s' = ty /\
     Feedback.pattern_start_time s' = now /\
     Feedback.pattern_step s' = 0 /\
     Feedback.pattern_intensity s' = constrain x F32.zero F32.one /\
     exists st : Feedback.PatternStep,
       (exists steps : list Feedback.PatternStep,
          Feedback.get_pattern_steps ty = Some steps /\
          read steps 0 = Some st) /\
       Feedback.pwm s'
       = Feedback.pwm s
         ++ Feedback.off_writes (Feedback.global_brightness s)
         ++ Feedback.step_writes st (Feedback.global_brightness s)
              (constrain x F32.zero F32.one)).
Proof. exact (feedback_trigger_total ty x now s). Qed.

Lemma run_process_inactive (ts : list Z) (s : Feedback.t) :
  Feedback.pattern_active s = false ->
  Feedback.run (map Feedback.Process ts) s = Some s.
Proof.
  intros H. induction ts as [|t ts IH]; [reflexivity|].
  cbn [map Feedback.run Feedback.exec].
  rewrite feedback_process_inactive by exact H. exact IH.
Qed.

Lemma run_process_completes (ty : FeedbackType)
      (steps : list Feedback.PatternStep) (total t0 : Z) (br : F32.t) :
  Feedback.plays ty steps total ->
  forall (ts : list Z) (s : Feedback.t),
    Feedback.pattern_active s = true ->
    Feedback.current_pattern s = ty ->
    Feedback.pattern_start_time s = t0 ->
    Feedback.global_brightness s = br ->
    0 <= Feedback.pattern_step s < total ->
    total - Feedback.pattern_step s <= Z.of_nat (length ts) ->
    (forall t : Z, t ∈ ts ->
       Feedback.deadline steps (total - 1) <= u32 (t - t0)) ->
    exists s' : Feedback.t,
      Feedback.run (map Feedback.Process ts) s = Some s' /\
      Feedback.pattern_active s' = false /\
      Feedback.current_color s' = Feedback.COLOR_OFF /\
      exists before : list Feedback.ledc,
        Feedback.pwm s' = before ++ Feedback.off_writes br.
Proof.
  intros Hplays.
  destruct (pattern_tables ty (plays_not_none _ _ _ Hplays))
    as (steps' & total' & Hp' & Htot & _ & _ & Hmono).
  destruct (plays_fun _ _ _ _ _ Hplays Hp') as [-> ->].
  induction ts as [|t ts IH]; intros s Hact Hty Ht0 Hbr Hk Hlen Hlate.
  - cbn [length] in Hlen. lia.
  - cbn [map Feedback.run Feedback.exec].
    rewrite <- Hty in Hplays.
    destruct (feedback_process_cases t s steps total Hact Hplays Hk)
      as (_ & Hnext & Hlast).
    assert (Hd : Feedback.deadline steps (Feedback.pattern_step s)
                 <= u32 (t - Feedback.pattern_start_time s)).
    { rewrite Ht0. etransitivity; [|apply Hlate; left].
      apply Hmono; lia. }
    destruct (Z.lt_ge_cases (Feedback.pattern_step s + 1) total) as [Hl|Hl].
    + destruct (Hnext Hd Hl) as (st & _ & Hrun).
      rewrite Hrun. cbn [mbind option_bind].
      match goal with
      | |- context [Feedback.run _ ?s1] =>
          destruct (IH s1) as (s' & Hrun' & Hoff & Hcol & before & Hpwm)
      end; try reflexivity; try assumption.
      * cbn. lia.
      * cbn. cbn [length] in Hlen. lia.
      * intros t' Ht'. apply Hlate. right. exact Ht'.
      * exists s'. split; [exact Hrun'|]. split; [exact Hoff|].
        split; [exact Hcol|]. exists before. exact Hpwm.
    + rewrite (Hlast Hd) by lia. cbn [mbind option_bind].
      rewrite run_process_inactive by reflexivity.
      eexists. split; [reflexivity|]. split; [reflexivity|].
      split; [reflexivity|]. cbn. rewrite Hbr.
      exists (Feedback.pwm s). reflexivity.
Qed.

(** A triggered pattern runs to its end: once [feedback_process] has been
    called as many times as the pattern has steps, at times not before the
    pattern's total duration after the trigger (and neither 2^32 ms later),
    the pattern is over, and the last writes to the PWM driver switch the
    LED and the motor off.  Each call advances one step at most, so fewer
    calls leave the pattern running however late they come. *)
Theorem feedback_pattern_completes (ty : FeedbackType) (x : F32.t) (t0 : Z)
        (s : Feedback.t) (ts : list Z)
        (steps : list Feedback.PatternStep) (total : Z) :
  Feedback.plays ty steps total ->
  total <= Z.of_nat (length ts) ->
  (forall t : Z, t ∈ ts ->
     Feedback.deadline steps (total - 1) <= u32 (t - t0)) ->
  exists s0 s' : Feedback.t,
    Feedback.feedback_trigger ty x t0 s = Some s0 /\
    Feedback.run (map Feedback.Process ts) s0 = Some s' /\
    Feedback.pattern_active s' = false /\
    Feedback.current_color s' = Feedback.COLOR_OFF /\
    exists before : list Feedback.ledc,
      Feedback.pwm s'
      = before ++ Feedback.off_writes (Feedback.global_brightness s).
Proof.
  intros Hplays Hlen Hlate.
  pose proof (plays_not_none _ _ _ Hplays) as Hty.
  destruct (feedback_trigger_total ty x t0 s)
    as (s0 & Htrig & _ & Hbr & _ & Hstart).
  destruct (Hstart Hty) as (Hact & Hpat & Ht0 & Hstep & _).
  destruct (pattern_tables ty Hty) as (steps' & total' & Hp' & Htot & _).
  destruct (plays_fun _ _ _ _ _ Hplays Hp') as [-> ->].
  destruct (run_process_completes ty steps total t0
              (Feedback.global_brightness s) Hplays ts s0)
    as (s' & Hrun & Hoff & Hcol & Hpwm); try assumption.
  - rewrite Hstep. lia.
  - rewrite Hstep. lia.
  - exists s0, s'. repeat split; assumption.
Qed.

Lemma run_process_still_active (ty : FeedbackType)
      (steps : list Feedback.PatternStep) (total : Z) :
  Feedback.plays ty steps total ->
  forall (ts : list Z) (s : Feedback.t),
    Feedback.pattern_active s = true ->
    Feedback.current_pattern s = ty ->
    0 <= Feedback.pattern_step s ->
    Feedback.pattern_step s + Z.of_nat (length ts) < total ->
    exists s' : Feedback.t,
      Feedback.run (map Feedback.Process ts) s = Some s' /\
      Feedback.pattern_active s' = true /\
      Feedback.current_pattern s' = ty /\
      Feedback.pattern_start_time s' = Feedback.pattern_start_time s /\
      Feedback.pattern_step s <= Feedback.pattern_step s'
      <= Feedback.pattern_step s + Z.of_nat (length ts).
Proof.
  intros Hplays.
  induction ts as [|t ts IH]; intros s Hact Hty Hk Hlen.
  - exists s. cbn. repeat split; try assumption; lia.
  - cbn [map Feedback.run Feedback.exec]. cbn [length] in Hlen.
    cbn [length].
    pose proof Hplays as Hplays'. rewrite <- Hty in Hplays'.
    destruct (feedback_process_cases t s steps total Hact Hplays')
      as (Hearly & Hnext & _); [lia|].
    destruct (Z.lt_ge_cases (u32 (t - Feedback.pattern_start_time s))
                (Feedback.deadline steps (Feedback.pattern_step s)))
      as [Hd|Hd].
    + rewrite (Hearly Hd). cbn [mbind option_bind].
      destruct (IH s) as (s' & Hrun & H1 & H2 & H3 & H4); try assumption.
      { lia. }
      exists s'. repeat split; try assumption; try lia.
    + destruct (Hnext Hd) as (st & _ & Hrun); [lia|].
      rewrite Hrun. cbn [mbind option_bind].
      match goal with
      | |- context [Feedback.run _ ?s1] =>
          destruct (IH s1) as (s' & Hrun' & H1 & H2 & H3 & H4)
      end; try reflexivity; try assumption.
      * cbn. lia.
      * cbn. lia.
      * cbn in H3, H4.
        exists s'. repeat split; try assumption; try lia.
Qed.

(** A pattern never ends early: each call of [feedback_process] advances
    one step at most, so after fewer calls than the pattern has steps the
    pattern is still playing, however late the calls come; and calls made
    before the first step's duration has elapsed change nothing at all. *)
Theorem feedback_pattern_needs_calls (ty : FeedbackType) (x : F32.t)
        (t0 : Z) (s : Feedback.t) (ts : list Z)
        (steps : list Feedback.PatternStep) (total : Z) :
  Feedback.plays ty steps total ->
  Z.of_nat (length ts) < total ->
  exists s0 s' : Feedback.t,
    Feedback.feedback_trigger ty x t0 s = Some s0 /\
    Feedback.run (map Feedback.Process ts) s0 = Some s' /\
    Feedback.pattern_active s' = true /\
    Feedback.current_pattern s' = ty /\
    Feedback.pattern_step s' <= Z.of_nat (length ts) /\
    ((forall t : Z, t ∈ ts -> u32 (t - t0) < Feedback.deadline steps 0) ->
     s' = s0).
Proof.
  intros Hplays Hlen.
  pose proof (plays_not_none _ _ _ Hplays) as Hty.
  destruct (feedback_trigger_total ty x t0 s)
    as (s0 & Htrig & _ & _ & _ & Hstart).
  destruct (Hstart Hty) as (Hact & Hpat & Ht0 & Hstep & _).
  destruct (run_process_still_active ty steps total Hplays ts s0)
    as (s' & Hrun & H1 & H2 & _ & H4); try assumption.
  { rewrite Hstep. lia. }
  { rewrite Hstep. lia. }
  exists s0, s'. split; [exact Htrig|]. split; [exact Hrun|].
  split; [exact H1|]. split; [exact H2|]. split; [rewrite Hstep in H4; lia|].
  intros Hbefore.
  assert (Hsame : Feedback.run (map Feedback.Process ts) s0 = Some s0).
  { clear Hrun H1 H2 H4 Hlen.
    induction ts as [|t ts IH]; [reflexivity|].
    cbn [map Feedback.run Feedback.exec].
    pose proof Hplays as Hplays'. rewrite <- Hpat in Hplays'.
    destruct (pattern_tables ty Hty) as (steps' & total' & Hp' & Htot & _).
    destruct (plays_fun _ _ _ _ _ Hplays Hp') as [-> ->].
    destruct (feedback_process_cases t s0 steps total Hact Hplays')
      as (Hearly & _); [rewrite Hstep; lia|].
    rewrite Hearly.
    - cbn [mbind option_bind]. apply IH.
      intros t' Ht'. apply Hbefore. right. exact Ht'.
    - rewrite Ht0, Hstep. apply Hbefore. left. }
  congruence.
Qed.

(** ** Duties *)

Lemma constrain_unit_finite (x : F32.t) :
  x <> S754_nan ->
  match constrain x F32.zero F32.one with
  | S754_zero _ | S754_finite _ _ _ => True
  | _ => False
  end.
Proof.
  intros Hx. unfold constrain, F32.ltb, F32.gtb.
  destruct x as [s|s| |s m e]; try congruence.
  - destruct s; exact I.
  - destruct s; exact I.
  - destruct (SFltb (S754_finite s m e) F32.zero); [exact I|].
    destruct (SFltb F32.one (S754_finite s m e)); exact I.
Qed.

(** Switching off writes duty 0 on all four channels, whatever brightness
    was configured, as long as that was a number:
    [feedback_set_brightness] keeps a NaN (no comparison of [constrain]
    holds for it), and then the conversion of the LED duties is undefined. *)
Theorem feedback_off_is_dark (x : F32.t) :
  (x <> S754_nan ->
   Feedback.off_writes (constrain x F32.zero F32.one)
   = [Feedback.LedcWrite Feedback.PWM_CHANNEL_R (Some 0);
      Feedback.LedcWrite Feedback.PWM_CHANNEL_G (Some 0);
      Feedback.LedcWrite Feedback.PWM_CHANNEL_B (Some 0);
      Feedback.LedcWrite Feedback.PWM_CHANNEL_HAPTIC (Some 0)]) /\
  (x = S754_nan ->
   Feedback.off_writes (constrain x F32.zero F32.one)
   = [Feedback.LedcWrite Feedback.PWM_CHANNEL_R None;
      Feedback.LedcWrite Feedback.PWM_CHANNEL_G None;
      Feedback.LedcWrite Feedback.PWM_CHANNEL_B None;
      Feedback.LedcWrite Feedback.PWM_CHANNEL_HAPTIC (Some 0)]).
Proof.
  split.
  - intros Hx. pose proof (constrain_unit_finite x Hx) as Hf.
    unfold Feedback.off_writes, Feedback.led_writes. cbn [Feedback.r
      Feedback.g Feedback.b Feedback.COLOR_OFF app].
    destruct (constrain x F32.zero F32.one) as [s|s| |s m e];
      try contradiction; reflexivity.
  - intros ->. reflexivity.
Qed.

(** ** A mute microphone *)

Lemma stays_quiet_refl (s : Main.system) : quiet s -> stays_quiet s s.
Proof.
  intros H. split; [exact H|]. exists []. rewrite app_nil_r.
  split; reflexivity.
Qed.

Lemma stays_quiet_trans (s1 s2 s3 : Main.system) :
  stays_quiet s1 s2 -> stays_quiet s2 s3 -> stays_quiet s1 s3.
Proof.
  intros (_ & n1 & H1 & F1) (Hq & n2 & H2 & F2). split; [exact Hq|].
  exists (n1 ++ n2). rewrite H2, H1, <- app_assoc. split; [reflexivity|].
  rewrite filter_app, F1, F2. reflexivity.
Qed.

Lemma push_zeros (l : list Z) :
  Forall (fun x => x = 0) l ->
  forall a : Audio.t,
    Forall (fun x => x = 0) (Audio.audio_buffer a) ->
    Forall (fun x => x = 0)
           (Audio.audio_buffer (fold_left Audio.push_sample l a)).
Proof.
  induction 1 as [|x l Hx Hl IH]; intros a Ha; [exact Ha|].
  cbn [fold_left]. apply IH. unfold Audio.push_sample.
  cbn [Audio.audio_buffer]. apply Forall_insert; assumption.
Qed.

Lemma audio_process_zeros (rd : Audio.i2s_result) (a : Audio.t) :
  Forall (fun x => x = 0) (Audio.i2s_samples rd) ->
  Forall (fun x => x = 0) (Audio.audio_buffer a) ->
  Forall (fun x => x = 0) (Audio.audio_buffer (Audio.audio_process rd a)).
Proof.
  intros Hrd Ha. unfold Audio.audio_process.
  destruct (negb (Audio.is_running a)); [exact Ha|].
  destruct (_ || _); [exact Ha|].
  cbn [Audio.audio_buffer]. apply push_zeros; assumption.
Qed.

Lemma copy_out_zeros (buf : list Z) (ri n : Z) :
  Forall (fun x => x = 0) buf ->
  Forall (fun x => x = 0) (Audio.copy_out buf ri n).
Proof.
  intros Hb. unfold Audio.copy_out. apply Forall_map.
  apply Forall_forall. intros i _. unfold Audio.buf_get.
  destruct (buf !! Z.to_nat ((ri + Z.of_nat i) mod AUDIO_BUFFER_SIZE))
    as [x|] eqn:E; [|reflexivity].
  cbn. rewrite Forall_forall in Hb. apply Hb.
  apply list_elem_of_lookup_2 in E. exact E.
Qed.

Lemma audio_get_frame_zeros (now : Z) (a : Audio.t) :
  Forall (fun x => x = 0) (Audio.audio_buffer a) ->
  let '(got, frame, a') :=
    Audio.audio_get_frame now (Some Main.stack_frame) a in
  Forall (fun x => x = 0) (Audio.audio_buffer a') /\
  (got = true ->
   exists f : AudioFrame,
     frame = Some f /\ valid f = true /\ Forall (fun x => x = 0) (samples f)).
Proof.
  intros Ha. unfold Audio.audio_get_frame.
  destruct (_ <? _).
  - split; [exact Ha|]. discriminate.
  - split; [exact Ha|]. intros _. eexists. split; [reflexivity|].
    split; [reflexivity|]. cbn [samples]. apply copy_out_zeros. exact Ha.
Qed.

Lemma threshold_not_negative_same (v v' : Vad.t) :
  Vad.adaptive_enabled v' = Vad.adaptive_enabled v ->
  Vad.energy_threshold v' = Vad.energy_threshold v ->
  (noise_floor_clamped (Vad.noise_floor v) ->
   noise_floor_clamped (Vad.noise_floor v')) ->
  threshold_not_negative v -> threshold_not_negative v'.
Proof.
  unfold threshold_not_negative. intros -> -> Hn.
  destruct (Vad.adaptive_enabled v); auto.
Qed.

(** The frame part of [loop] on a frame of zeros. *)
Lemma process_frame_quiet (tk : Main.tick) (f : AudioFrame)
      (s : Main.system) :
  valid f = true -> Forall (fun x => x = 0) (samples f) ->
  quiet s -> stays_quiet s (Main.process_frame tk (Some f) s).
Proof.
  intros Hv Hz (Hbuf & Hthr & Hst & Hrdy & Hw).
  unfold Main.process_frame.
  destruct (zero_frame_silent f (Main.vad s) Hv
              (Forall_take _ _ _ Hz) Hthr)
    as (_ & _ & Hsil & _).
  destruct (Hsil Hst) as (Hst' & _ & Hrdy' & _).
  pose proof (vad_process_noise_floor (Some f) (Main.vad s))
    as (Hnf & _ & Had & Het).
  destruct (Vad.vad_process (Some f) (Main.vad s)) as [res v1] eqn:E.
  cbn [fst snd] in *.
  unfold Vad.vad_get_segment. rewrite Hrdy', Hrdy. cbn [negb].
  split.
  - unfold quiet. cbn. repeat split; try assumption; try congruence.
    apply (threshold_not_negative_same (Main.vad s)); assumption.
  - exists []. cbn. rewrite app_nil_r. split; reflexivity.
Qed.

Lemma check_missed_opportunity_quiet (t1 t2 : Z) (s : Main.system) :
  quiet s -> Main.check_missed_opportunity t1 t2 s = s.
Proof.
  intros (_ & _ & _ & _ & Hw). unfold Main.check_missed_opportunity.
  rewrite Hw. reflexivity.
Qed.

Lemma session_tick_quiet (tk : Main.tick) (s : Main.system) :
  quiet s -> stays_quiet s (Main.session_tick tk s).
Proof.
  intros Hq. unfold Main.session_tick.
  pose proof (audio_get_frame_zeros (Main.t_frame tk) (Main.audio s)) as Hf.
  destruct Hq as (Hbuf & Hrest). specialize (Hf Hbuf).
  destruct (Audio.audio_get_frame (Main.t_frame tk) (Some Main.stack_frame)
              (Main.audio s)) as [[got frame] a1].
  destruct Hf as [Hbuf1 Hframe].
  assert (Hq1 : quiet (Main.with_audio a1 s)).
  { split; [exact Hbuf1 | exact Hrest]. }
  destruct got.
  - destruct (Hframe eq_refl) as (f & -> & Hv & Hz).
    pose proof (process_frame_quiet tk f _ Hv Hz Hq1) as Hp.
    rewrite check_missed_opportunity_quiet by apply Hp. exact Hp.
  - rewrite check_missed_opportunity_quiet by exact Hq1.
    split; [exact Hq1|]. exists []. cbn. rewrite app_nil_r.
    split; reflexivity.
Qed.

Lemma on_session_control_quiet (start : bool) (t1 t2 : Z) (s : Main.system) :
  quiet s -> stays_quiet s (Main.on_session_control start t1 t2 s).
Proof.
  intros Hq. pose proof Hq as (Hbuf & Hthr & Hst & Hrdy & Hw).
  unfold Main.on_session_control.
  destruct (start && negb (Main.session_active (Main.core s))).
  - split.
    + unfold quiet. cbn. repeat split; try reflexivity.
      * unfold Audio.audio_start. destruct (_ || _); exact Hbuf.
      * apply (threshold_not_negative_same (Main.vad s));
          try reflexivity; auto.
    + eexists [_]. split; reflexivity.
  - destruct (negb start && Main.session_active (Main.core s)).
    + split.
      * unfold quiet. cbn. repeat split; try assumption.
        unfold Audio.audio_stop. destruct (negb _); exact Hbuf.
      * eexists [_]. split; reflexivity.
    + apply stays_quiet_refl. exact Hq.
Qed.

Lemma feedback_trigger_quiet (ty : FeedbackType) (x : F32.t)
      (s : Main.system) :
  quiet s -> stays_quiet s (Main.feedback_trigger ty x s).
Proof.
  intros Hq. split; [exact Hq|]. eexists [_]. split; reflexivity.
Qed.

Lemma ble_process_quiet (s : Main.system) :
  quiet s -> stays_quiet s (Main.ble_process s).
Proof.
  intros Hq. unfold Main.ble_process.
  destruct (Bool.eqb _ _); [apply stays_quiet_refl; exact Hq|].
  assert (H : stays_quiet s (Main.on_ble_connection (Main.device_connected s) s)).
  { unfold Main.on_ble_connection. destruct (Main.device_connected s).
    - apply feedback_trigger_quiet. exact Hq.
    - pose proof (feedback_trigger_quiet FEEDBACK_DISCONNECTED Main.c_0_5 s Hq)
        as H1.
      destruct (Main.session_active _); [|exact H1].
      apply (stays_quiet_trans _ _ _ H1).
      apply on_session_control_quiet. apply H1. }
  destruct H as (Hq1 & new & Ht & Hf).
  split; [exact Hq1|]. exists new. split; [exact Ht | exact Hf].
Qed.

Lemma status_update_quiet (now : Z) (s : Main.system) :
  quiet s -> stays_quiet s (Main.status_update now s).
Proof.
  intros Hq. unfold Main.status_update.
  destruct (_ >? _); [|apply stays_quiet_refl; exact Hq].
  unfold Main.estimate_battery.
  destruct (_ && _); (split; [exact Hq | eexists [_]; split; reflexivity]).
Qed.

Lemma debug_output_quiet (now : Z) (s : Main.system) :
  quiet s -> stays_quiet s (Main.debug_output now s).
Proof.
  intros Hq. unfold Main.debug_output.
  destruct (_ >? _); [|apply stays_quiet_refl; exact Hq].
  split; [exact Hq|]. exists []. cbn. rewrite app_nil_r. split; reflexivity.
Qed.

Lemma loop_quiet (tk : Main.tick) (s : Main.system) :
  Forall (fun x => x = 0) (Audio.i2s_samples (Main.t_i2s tk)) ->
  quiet s -> stays_quiet s (Main.loop tk s).
Proof.
  intros Hmute Hq. unfold Main.loop.
  pose proof (ble_process_quiet s Hq) as H1.
  set (s1 := Main.ble_process s) in *.
  assert (H2 : stays_quiet s1
                 (Main.with_audio
                    (Audio.audio_process (Main.t_i2s tk) (Main.audio s1)) s1)).
  { destruct H1 as ((Hbuf & Hrest) & _). split.
    - split; [|exact Hrest]. cbn. apply audio_process_zeros; assumption.
    - exists []. cbn. rewrite app_nil_r. split; reflexivity. }
  set (s2 := Main.with_audio _ s1) in *.
  assert (H3 : stays_quiet s2
                 (if Main.session_active (Main.core s2)
                  then Main.session_tick tk s2 else s2)).
  { destruct (Main.session_active (Main.core s2)).
    - apply session_tick_quiet. apply H2.
    - apply stays_quiet_refl. apply H2. }
  set (s3 := if Main.session_active (Main.core s2) then _ else s2) in *.
  pose proof (status_update_quiet (Main.t_loop tk) s3 (proj1 H3)) as H4.
  pose proof (debug_output_quiet (Main.t_loop tk) _ (proj1 H4)) as H5.
  exact (stays_quiet_trans _ _ _ H1
           (stays_quiet_trans _ _ _ H2
              (stays_quiet_trans _ _ _ H3
                 (stays_quiet_trans _ _ _ H4 H5)))).
Qed.

Lemma step_quiet (s : Main.system) (i : Main.input) :
  mute_input i -> quiet s -> stays_quiet s (Main.step s i).
Proof.
  intros Hi Hq. destruct i as [| |start t1 t2|tk]; cbn [Main.step].
  - split; [exact Hq|]. exists []. cbn. rewrite app_nil_r. split; reflexivity.
  - split; [exact Hq|]. exists []. cbn. rewrite app_nil_r. split; reflexivity.
  - apply on_session_control_quiet. exact Hq.
  - apply loop_quiet; assumption.
Qed.

Lemma run_quiet (ins : list Main.input) :
  Forall mute_input ins ->
  forall s : Main.system, quiet s -> stays_quiet s (Main.run s ins).
Proof.
  induction 1 as [|i ins Hi Hins IH]; intros s Hq.
  - apply stays_quiet_refl. exact Hq.
  - unfold Main.run. cbn [fold_left].
    pose proof (step_quiet s i Hi Hq) as H1.
    apply (stays_quiet_trans _ _ _ H1). apply IH. apply H1.
Qed.

Lemma after_setup_quiet (t_vad : Z) : quiet (Main.after_setup t_vad).
Proof.
  unfold quiet, Main.after_setup. cbn.
  split; [apply Forall_replicate; reflexivity|].
  split; [split; vm_compute; reflexivity|].
  repeat split.
Qed.

(** From [setup] on, as long as the microphone delivers zeros only, the
    device emits no Serve, Return or MissedOpportunity event, whatever the
    client does (connects, disconnects, starts and stops sessions) and
    whatever the clock reads: the ring buffer holds zeros only, the VAD
    never leaves Silence, no segment becomes ready and no response is
    awaited. *)
Theorem mute_microphone_no_event (t_vad : Z) (ins : list Main.input) :
  Forall mute_input ins ->
  session_events (Main.after_setup t_vad) ins = [] /\
  quiet (Main.run (Main.after_setup t_vad) ins).
Proof.
  intros Hins.
  destruct (run_quiet ins Hins (Main.after_setup t_vad)
              (after_setup_quiet t_vad)) as (Hq & new & Ht & Hf).
  split; [|exact Hq].
  unfold session_events. rewrite Ht, drop_app_length. exact Hf.
Qed.

(** ** A constant signal, window by window *)

Lemma read_drop {A : Type} (l : list A) (i j : Z) :
  0 <= i -> 0 <= j -> read (drop (Z.to_nat i) l) j = read l (i + j).
Proof.
  intros Hi Hj. unfold read.
  destruct (Z.ltb_spec j 0) as [H|H]; [lia|].
  destruct (Z.ltb_spec (i + j) 0) as [H'|H']; [lia|].
  rewrite lookup_drop. f_equal. lia.
Qed.

Lemma collect_constant (smp : list Z) (count c sample_rate : Z) (n : nat) :
  500 <= sample_rate < 127500 ->
  0 <= count < 2 ^ 31 ->
  - 32768 <= c <= 32767 ->
  (forall i : Z, 0 <= i < count -> read smp i = Some c) ->
  forall (i : Z) (buf : list F32.t),
    0 <= i <= count ->
    count < i + 400 * Z.of_nat n + 800 ->
    Z.of_nat (length buf) = Pitch.DIFF_BUFFER_LEN ->
    exists buf' : list F32.t,
      Robust.collect smp count sample_rate i n [] buf = Some ([], buf').
Proof.
  intros Hsr Hcount Hc Hsmp.
  assert (Hlen : count <= Z.of_nat (length smp)).
  { destruct (Z.le_gt_cases count (Z.of_nat (length smp))) as [H|H];
      [exact H|].
    specialize (Hsmp (Z.of_nat (length smp)) ltac:(lia)).
    unfold read in Hsmp.
    destruct (Z.ltb_spec (Z.of_nat (length smp)) 0) as [H0|H0]; [lia|].
    rewrite lookup_ge_None_2 in Hsmp by lia. discriminate. }
  induction n as [|n IH]; intros i buf Hi Hfuel Hbuf.
  - cbn [Robust.collect]. rewrite window_size_value.
    assert (Hu : u32 (i + 800) = i + 800)
      by (unfold u32; apply Z.mod_small; lia).
    rewrite Hu.
    destruct (Z.leb_spec (i + 800) count) as [H|H]; [lia|].
    exists buf. reflexivity.
  - cbn [Robust.collect]. rewrite window_size_value, hop_size_value.
    assert (Hu : u32 (i + 800) = i + 800)
      by (unfold u32; apply Z.mod_small; lia).
    assert (Hu' : u32 (i + 400) = i + 400)
      by (unfold u32; apply Z.mod_small; lia).
    rewrite Hu, Hu'.
    destruct (Z.leb_spec (i + 800) count) as [Hw|Hw]; cbn [andb].
    2: { exists buf. reflexivity. }
    change (Z.of_nat (length (@nil F32.t)) <? Robust.MAX_PITCHES) with true.
    cbn iota.
    destruct (constant_window_no_pitch (drop (Z.to_nat i) smp) 800 c
                sample_rate buf) as [buf1 Hr]; try lia.
    { intros j Hj. rewrite read_drop by lia. apply Hsmp. lia. }
    destruct (pitch_estimate_total (drop (Z.to_nat i) smp) 800 sample_rate buf)
      as (r & buf1' & Hr' & Hl1 & _); try lia.
    { rewrite length_drop. lia. }
    rewrite Hr in Hr'. injection Hr' as <- <-.
    rewrite Hr. cbn [mbind option_bind fst snd].
    change (Robust.usable Pitch.no_pitch) with false. cbn iota.
    apply IH; try lia.
Qed.

(** A signal whose samples are all equal (digital silence, or a microphone
    stuck at a DC offset) has no pitch for the median estimator either:
    [pitch_estimate] rejects every window of it with the all-zero "invalid"
    record, the window loop ends with no estimate stored, and
    [pitch_estimate_robust] returns the all-zero "invalid" record. *)
Theorem constant_signal_has_no_robust_pitch
        (smp : list Z) (count c sample_rate : Z) (buf : list F32.t) :
  500 <= sample_rate < 127500 ->
  0 <= count < 2 ^ 31 ->
  - 32768 <= c <= 32767 ->
  (forall i : Z, 0 <= i < count -> read smp i = Some c) ->
  Z.of_nat (length buf) = Pitch.DIFF_BUFFER_LEN ->
  (forall (i : Z) (b : list F32.t),
     0 <= i -> i + Robust.window_size <= count ->
     Z.of_nat (length b) = Pitch.DIFF_BUFFER_LEN ->
     exists b' : list F32.t,
       Pitch.pitch_estimate (drop (Z.to_nat i) smp) Robust.window_size
                            sample_rate b = Some (Pitch.no_pitch, b')) /\
  exists buf' : list F32.t,
    Robust.collect smp count sample_rate 0
                   (Z.to_nat (count / Robust.hop_size)) [] buf
    = Some ([], buf') /\
    Robust.pitch_estimate_robust smp count sample_rate buf
    = Some (Pitch.no_pitch, buf').
Proof.
  intros Hsr Hcount Hc Hsmp Hbuf. split.
  - intros i b Hi Hw Hb. rewrite window_size_value in Hw |- *.
    apply (constant_window_no_pitch (drop (Z.to_nat i) smp) 800 c
             sample_rate b); try lia; try assumption.
    intros j Hj. rewrite read_drop by lia. apply Hsmp. lia.
  - unfold Robust.pitch_estimate_robust.
    destruct (collect_constant smp count c sample_rate
                (Z.to_nat (count / Robust.hop_size)) Hsr Hcount Hc Hsmp 0 buf)
      as [buf' Hrun].
    + lia.
    + rewrite hop_size_value. rewrite Z2Nat.id by (apply Z.div_pos; lia).
      Z.div_mod_to_equations. lia.
    + exact Hbuf.
    + exists buf'. split; [exact Hrun|].
      rewrite Hrun. cbn [mbind option_bind fst snd]. reflexivity.
Qed.

(** ** Capture: any sequence of calls *)

Lemma push_samples_initialized (l : list Z) :
  forall a : Audio.t,
    Audio.is_initialized (fold_left Audio.push_sample l a)
    = Audio.is_initialized a.
Proof.
  induction l as [|x l IH]; intros a; [reflexivity|].
  cbn [fold_left]. rewrite IH. reflexivity.
Qed.

Lemma audio_process_initialized (rd : Audio.i2s_result) (a : Audio.t) :
  Audio.is_initialized (Audio.audio_process rd a) = Audio.is_initialized a.
Proof.
  unfold Audio.audio_process.
  destruct (negb (Audio.is_running a)); [reflexivity|].
  destruct (_ || _); [reflexivity|].
  cbn [Audio.is_initialized]. apply push_samples_initialized.
Qed.

Lemma empty_ring (a : Audio.t) :
  RingClient.wf a -> Audio.write_index a = Audio.read_index a ->
  Audio.audio_frames_available a = 0 /\ RingClient.unread a = [].
Proof.
  intros Hwf He. rewrite frames_available_mod by exact Hwf.
  unfold RingClient.unread. rewrite He, Z.sub_diag. split; reflexivity.
Qed.

Lemma capture_exec_ok (a : Audio.t) (c : CaptureClient.call) :
  capture_ok a -> capture_ok (CaptureClient.exec a c).
Proof.
  intros (Hwf & Hrun & Hempty).
  destruct c as [cfg| | |rd|now]; cbn [CaptureClient.exec].
  - destruct (audio_init_outcomes cfg a) as [Hdone Hfresh].
    destruct (Audio.is_initialized a) eqn:Hi.
    + rewrite (Hdone eq_refl). cbn [snd].
      split; [exact Hwf|]. rewrite Hi. split; [reflexivity | discriminate].
    + destruct (Hfresh eq_refl) as (_ & Hi' & Hwf' & Hav & Hun & Hr').
      split; [exact Hwf'|]. split.
      * rewrite Hr'. intros Hr. specialize (Hrun Hr). discriminate.
      * intros _. split; assumption.
  - unfold Audio.audio_start.
    destruct (Audio.is_initialized a) eqn:Hi; cbn [negb orb].
    + destruct (Audio.is_running a);
        (split; [exact Hwf|]; cbn; rewrite ?Hi;
         split; [reflexivity | discriminate]).
    + split; [exact Hwf|]. rewrite Hi. split; [exact Hrun | exact Hempty].
  - unfold Audio.audio_stop. destruct (Audio.is_running a) eqn:Hr;
      cbn [negb].
    + split; [exact Hwf|]. split; [cbn; discriminate|].
      cbn. intros Hi. specialize (Hrun eq_refl). congruence.
    + split; [exact Hwf|]. rewrite Hr. split; [exact Hrun | exact Hempty].
  - destruct (audio_process_unread rd a Hwf) as (Hwf' & _ & Hr').
    split; [exact Hwf'|].
    rewrite audio_process_initialized, Hr'. split; [exact Hrun|].
    intros Hi. unfold Audio.audio_process.
    destruct (Audio.is_running a) eqn:Hr; cbn [negb].
    + specialize (Hrun eq_refl). congruence.
    + apply Hempty. exact Hi.
  - pose proof (audio_get_frame_unread now Main.stack_frame a Hwf) as H.
    unfold Audio.audio_get_frame in *.
    destruct (Audio.audio_frames_available a <? AUDIO_FRAME_SAMPLES) eqn:E.
    + cbn [snd]. split; [exact Hwf|]. split; [exact Hrun | exact Hempty].
    + cbn [snd]. destruct H as (Hwf' & _ & _).
      split; [exact Hwf'|]. split; [exact Hrun|].
      cbn [Audio.is_initialized]. intros Hi.
      destruct (Hempty Hi) as [Hav _]. rewrite Hav in E.
      rewrite frame_samples_value in E. discriminate.
Qed.

Lemma power_on_ok : capture_ok Audio.power_on.
Proof.
  assert (Hwf : RingClient.wf Audio.power_on).
  { unfold RingClient.wf, Audio.power_on.
    cbn [Audio.audio_buffer Audio.write_index Audio.read_index].
    rewrite length_replicate, buffer_size_value. lia. }
  split; [exact Hwf|]. split; [discriminate|].
  intros _. apply empty_ring; [exact Hwf | reflexivity].
Qed.

(** Whatever calls a client of the capture module makes from power-on, in
    whatever order ([audio_init] failing or succeeding, [audio_start],
    [audio_stop], [audio_process] with any data, [audio_get_frame]), the
    two cursors stay inside the ring, capture never runs before an
    [audio_init] has succeeded, and until then nothing is buffered and
    [audio_get_frame] delivers nothing. *)
Theorem capture_calls_stay_ok (cs : list CaptureClient.call) :
  let a := CaptureClient.run cs Audio.power_on in
  capture_ok a /\
  (Audio.is_initialized a = false ->
   forall now : Z,
     Audio.audio_get_frame now (Some Main.stack_frame) a
     = (false, Some Main.stack_frame, a)).
Proof.
  cbv zeta.
  assert (Hok : forall a, capture_ok a ->
                  capture_ok (CaptureClient.run cs a)).
  { induction cs as [|c cs IH]; intros a Ha; [exact Ha|].
    unfold CaptureClient.run. cbn [fold_left].
    apply IH. apply capture_exec_ok. exact Ha. }
  pose proof (Hok _ power_on_ok) as Ha.
  split; [exact Ha|].
  intros Hi now. destruct Ha as (_ & _ & Hempty).
  destruct (Hempty Hi) as [Hav _].
  unfold Audio.audio_get_frame. rewrite Hav. reflexivity.
Qed.

(** ** pitch_estimate: the failure paths *)

(** The RMS of an all-zero window is below the silence floor. *)
Lemma window_rms_zero (count : Z) :
  1 <= count < 2 ^ 24 ->
  F32.ltb (Pitch.window_rms 0 count) Pitch.c_0_01 = true.
Proof.
  intros Hc. unfold Pitch.window_rms.
  assert (Hq : F32.div (F32.of_Z 0) (F32.of_Z count) = F32.zero).
  { destruct count as [|p|p]; try lia.
    unfold F32.of_Z at 2. unfold binary_normalize.
    destruct (binary_round_small false p) as (m & e & ->); [lia|].
    reflexivity. }
  rewrite Hq. vm_compute. reflexivity.
Qed.

Lemma energy_loop_zeros (smp : list Z) (count : Z) (n : nat) :
  (forall i : Z, 0 <= i < count -> read smp i = Some 0) ->
  forall i : Z,
    0 <= i -> i + Z.of_nat n <= count ->
    Pitch.energy_loop smp i n 0 = Some 0.
Proof.
  intros Hz. induction n as [|n IH]; intros i Hi Hn.
  - reflexivity.
  - cbn [Pitch.energy_loop]. rewrite Hz by lia. cbn [mbind option_bind].
    apply IH; lia.
Qed.

Lemma pitch_estimate_paths
      (smp : list Z) (count sample_rate : Z) (buf : list F32.t) :
  500 <= sample_rate < 127500 ->
  0 <= count < 2 ^ 32 ->
  count <= Z.of_nat (length smp) ->
  Z.of_nat (length buf) = Pitch.DIFF_BUFFER_LEN ->
  exists (r : Pitch.PitchResult) (buf' : list F32.t),
    Pitch.pitch_estimate smp count sample_rate buf = Some (r, buf') /\
    (Pitch.valid r = false -> r = Pitch.no_pitch) /\
    (count < 2 * Pitch.tau_max_of sample_rate ->
     r = Pitch.no_pitch /\ buf' = buf) /\
    (2 * Pitch.tau_max_of sample_rate <= count ->
     exists energy : Z,
       Pitch.energy_loop smp 0 (Z.to_nat count) 0 = Some energy /\
       (F32.ltb (Pitch.window_rms energy count) Pitch.c_0_01 = true ->
        r = Pitch.no_pitch /\ buf' = buf) /\
       (F32.ltb (Pitch.window_rms energy count) Pitch.c_0_01 = false ->
        exists (d1 d2 : list F32.t) (tau : Z),
          Pitch.yin_difference smp count buf (Pitch.tau_max_of sample_rate)
            = Some d1 /\
          Pitch.yin_cumulative_mean d1 (Pitch.tau_max_of sample_rate)
            = Some d2 /\
          Pitch.yin_absolute_threshold d2 (Pitch.tau_min_of sample_rate)
            (Pitch.tau_max_of sample_rate) Pitch.YIN_THRESHOLD = Some tau /\
          buf' = d2 /\
          (tau < 0 -> r = Pitch.no_pitch) /\
          (0 <= tau ->
           exists refined : F32.t,
             Pitch.yin_parabolic_interpolation d2 tau
               (Pitch.tau_max_of sample_rate) = Some refined /\
             (F32.leb refined F32.zero = true -> r = Pitch.no_pitch) /\
             (F32.leb refined F32.zero = false ->
              Pitch.valid r = true /\
              Pitch.pitch_hz r
              = F32.div (F32.of_Z sample_rate) refined)))).
Proof.
  intros Hsr Hc Hs Hb. unfold Pitch.DIFF_BUFFER_LEN in Hb.
  destruct (tau_range sample_rate Hsr) as (Hmin & Hlt & Hmax).
  unfold Pitch.pitch_estimate.
  destruct (Z.ltb_spec count (Pitch.tau_max_of sample_rate * 2))
    as [Hshort|Hlong].
  { exists Pitch.no_pitch, buf. split; [reflexivity|].
    split; [reflexivity|]. split; [split; reflexivity|]. lia. }
  destruct (energy_loop_defined smp (Z.to_nat count) 0 0) as [e He]; try lia.
  rewrite He. cbn [mbind option_bind].
  destruct (F32.ltb (Pitch.window_rms e count) Pitch.c_0_01) eqn:Hrms.
  { exists Pitch.no_pitch, buf. split; [reflexivity|].
    split; [reflexivity|]. split; [lia|].
    intros _. exists e. split; [reflexivity|].
    split; [intros _; split; reflexivity | (intros HH; cbn in HH; congruence)]. }
  destruct (yin_difference_defined smp count (Pitch.tau_max_of sample_rate) buf)
    as (d1 & Hd1 & Hl1); try lia.
  rewrite Hd1. cbn [mbind option_bind].
  destruct (yin_cumulative_mean_defined d1 (Pitch.tau_max_of sample_rate))
    as (d2 & Hd2 & Hl2); try lia.
  rewrite Hd2. cbn [mbind option_bind].
  destruct (yin_absolute_threshold_defined d2 (Pitch.tau_min_of sample_rate)
              (Pitch.tau_max_of sample_rate) Pitch.YIN_THRESHOLD)
    as (tau & Htau & Hrange); try lia.
  rewrite Htau. cbn [mbind option_bind].
  destruct (Z.ltb_spec tau 0) as [Hneg|Hpos].
  { exists Pitch.no_pitch, d2. split; [reflexivity|].
    split; [reflexivity|]. split; [lia|].
    intros _. exists e. split; [reflexivity|]. split; [(intros HH; cbn in HH; congruence)|].
    intros _. exists d1, d2, tau.
    do 4 (split; [first [reflexivity | assumption]|]). split; [reflexivity|lia]. }
  destruct Hrange as [Hrange|Hrange]; [lia|].
  destruct (yin_parabolic_interpolation_defined d2 tau
              (Pitch.tau_max_of sample_rate)) as [tr Htr]; try lia.
  rewrite Htr. cbn [mbind option_bind].
  destruct (F32.leb tr F32.zero) eqn:Hle.
  { exists Pitch.no_pitch, d2. split; [reflexivity|].
    split; [reflexivity|]. split; [lia|].
    intros _. exists e. split; [reflexivity|]. split; [(intros HH; cbn in HH; congruence)|].
    intros _. exists d1, d2, tau.
    do 4 (split; [first [reflexivity | assumption]|]). split; [reflexivity|].
    intros _. exists tr. split; [first [reflexivity | assumption]|].
    split; [reflexivity|(intros HH; cbn in HH; congruence)]. }
  rewrite read_lag_value by lia. cbn [mbind option_bind].
  eexists. exists d2. split; [reflexivity|].
  split; [(intros HH; cbn in HH; congruence)|]. split; [lia|].
  intros _. exists e. split; [reflexivity|]. split; [(intros HH; cbn in HH; congruence)|].
  intros _. exists d1, d2, tau.
  do 4 (split; [first [reflexivity | assumption]|]). split; [lia|].
  intros _. exists tr. split; [first [reflexivity | assumption]|].
  split; [(intros HH; cbn in HH; congruence)|]. intros _. split; reflexivity.
Qed.

(** C7. [pitch_estimate] returns, and on every window on which the
    estimation fails it returns the "invalid" result: validity false,
    frequency 0, confidence 0, speaker Unknown, never a sentinel
    frequency.  The failures are: the window is shorter than twice the
    largest lag; its RMS is below 0.01 of full scale; the threshold step
    finds no lag ([yin_absolute_threshold] returns -1); the interpolated
    lag is not positive.  An all-zero window is among them (its RMS is 0),
    and every result whose validity is false is this record.  When none of
    the four occurs the result is valid and its frequency is the sample
    rate divided by the interpolated lag. *)
Theorem pitch_estimate_failure_is_invalid
        (smp : list Z) (count sample_rate : Z) (buf : list F32.t) :
  500 <= sample_rate < 127500 ->
  0 <= count < 2 ^ 32 ->
  count <= Z.of_nat (length smp) ->
  Z.of_nat (length buf) = Pitch.DIFF_BUFFER_LEN ->
  let tau_min := Pitch.tau_min_of sample_rate in
  let tau_max := Pitch.tau_max_of sample_rate in
  let invalid :=
    {| Pitch.valid := false; Pitch.pitch_hz := S754_zero false;
       Pitch.confidence := S754_zero false;
       Pitch.speaker := Pitch.SPEAKER_UNKNOWN |} in
  exists (r : Pitch.PitchResult) (buf' : list F32.t),
    Pitch.pitch_estimate smp count sample_rate buf = Some (r, buf') /\
    (Pitch.valid r = false -> r = invalid) /\
    (count < 2 * tau_max -> r = invalid /\ buf' = buf) /\
    (2 * tau_max <= count ->
     exists energy : Z,
       Pitch.energy_loop smp 0 (Z.to_nat count) 0 = Some energy /\
       (F32.ltb (Pitch.window_rms energy count) (F32.lit 1 100) = true ->
        r = invalid /\ buf' = buf) /\
       (F32.ltb (Pitch.window_rms energy count) (F32.lit 1 100) = false ->
        exists (d1 d2 : list F32.t) (tau : Z),
          Pitch.yin_difference smp count buf tau_max = Some d1 /\
          Pitch.yin_cumulative_mean d1 tau_max = Some d2 /\
          Pitch.yin_absolute_threshold d2 tau_min tau_max Pitch.YIN_THRESHOLD
            = Some tau /\
          buf' = d2 /\
          (tau < 0 -> r = invalid) /\
          (0 <= tau ->
           exists refined : F32.t,
             Pitch.yin_parabolic_interpolation d2 tau tau_max
               = Some refined /\
             (F32.leb refined (S754_zero false) = true -> r = invalid) /\
             (F32.leb refined (S754_zero false) = false ->
              Pitch.valid r = true /\
              Pitch.pitch_hz r
              = F32.div (F32.of_Z sample_rate) refined)))) /\
    ((forall i : Z, 0 <= i < count -> read smp i = Some 0) ->
     r = invalid /\
     (2 * tau_max <= count < 2 ^ 24 ->
      Pitch.energy_loop smp 0 (Z.to_nat count) 0 = Some 0 /\
      F32.ltb (Pitch.window_rms 0 count) (F32.lit 1 100) = true /\
      buf' = buf)).
Proof.
  intros Hsr Hc Hs Hb. cbv zeta.
  change (F32.lit 1 100) with Pitch.c_0_01.
  change {| Pitch.valid := false; Pitch.pitch_hz := S754_zero false;
            Pitch.confidence := S754_zero false;
            Pitch.speaker := Pitch.SPEAKER_UNKNOWN |} with Pitch.no_pitch.
  change (S754_zero false) with F32.zero.
  destruct (pitch_estimate_paths smp count sample_rate buf Hsr Hc Hs Hb)
    as (r & buf' & Hrun & Hinv & Hshort & Hlong).
  exists r, buf'. split; [exact Hrun|]. split; [exact Hinv|].
  split; [exact Hshort|]. split; [exact Hlong|].
  intros Hzero.
  destruct (constant_window_no_pitch smp count 0 sample_rate buf)
    as [b Hb0]; try assumption; try lia.
  rewrite Hb0 in Hrun. injection Hrun as <- <-.
  split; [reflexivity|].
  intros Hcount.
  assert (He : Pitch.energy_loop smp 0 (Z.to_nat count) 0 = Some 0)
    by (apply (energy_loop_zeros smp count); [exact Hzero|lia|lia]).
  assert (Hr : F32.ltb (Pitch.window_rms 0 count) Pitch.c_0_01 = true).
  { apply window_rms_zero. destruct (tau_range sample_rate Hsr). lia. }
  split; [exact He|]. split; [exact Hr|].
  destruct Hlong as (e & He' & Hgate & _); [lia|].
  rewrite He in He'. injection He' as <-.
  apply Hgate. exact Hr.
Qed.

Lemma pitch_estimate_failure_is_invalid_witness :
  Pitch.pitch_estimate (replicate 100 0) 100 1000 Pitch.diff_buffer_init
  = Some ({| Pitch.valid := false; Pitch.pitch_hz := S754_zero false;
             Pitch.confidence := S754_zero false;
             Pitch.speaker := Pitch.SPEAKER_UNKNOWN |},
          Pitch.diff_buffer_init) /\
  Pitch.pitch_estimate (Demo.square 8000 20) 20 1000 Pitch.diff_buffer_init
  = Some ({| Pitch.valid := false; Pitch.pitch_hz := S754_zero false;
             Pitch.confidence := S754_zero false;
             Pitch.speaker := Pitch.SPEAKER_UNKNOWN |},
          Pitch.diff_buffer_init).
Proof.
  split.
  - destruct (pitch_estimate_failure_is_invalid (replicate 100 0) 100 1000
                Pitch.diff_buffer_init)
      as (r & buf' & Hrun & _ & _ & _ & Hzero).
    + lia.
    + lia.
    + vm_compute. discriminate.
    + reflexivity.
    + destruct Hzero as [Hr Hgate].
      * intros i Hi. unfold read.
        destruct (Z.ltb_spec i 0) as [H|H]; [lia|].
        apply lookup_replicate_2. lia.
      * destruct Hgate as (_ & _ & Hb); [vm_compute; split; congruence|].
        rewrite Hrun, Hr, Hb. reflexivity.
  - destruct (pitch_estimate_failure_is_invalid (Demo.square 8000 20) 20 1000
                Pitch.diff_buffer_init)
      as (r & buf' & Hrun & _ & Hshort & _).
    + lia.
    + lia.
    + vm_compute. discriminate.
    + reflexivity.
    + destruct Hshort as [Hr Hb]; [vm_compute; reflexivity|].
      rewrite Hrun, Hr, Hb. reflexivity.
Defined.

(** ** Instances *)

Lemma capturing_wf : RingClient.wf Demo.capturing.
Proof. vm_compute. repeat split; try reflexivity; discriminate. Qed.

Lemma audio_process_ingests_witness :
  Audio.audio_frames_available (Audio.audio_process demo_block Demo.capturing)
  = Z.min (Audio.audio_frames_available Demo.capturing
           + Z.of_nat (length (Audio.i2s_samples demo_block)))
          (AUDIO_BUFFER_SIZE - 1).
Proof.
  destruct (audio_process_ingests demo_block Demo.capturing) as (H & _).
  - exact capturing_wf.
  - reflexivity.
  - reflexivity.
  - vm_compute. discriminate.
  - exact H.
Defined.

Lemma audio_start_stop_witness :
  Audio.is_running (Audio.audio_start (snd (Audio.audio_init true Audio.power_on)))
  = true /\
  Audio.audio_start Audio.power_on = Audio.power_on /\
  Audio.audio_stop (Audio.audio_start (snd (Audio.audio_init true Audio.power_on)))
  = snd (Audio.audio_init true Audio.power_on).
Proof.
  destruct (audio_start_stop (snd (Audio.audio_init true Audio.power_on)))
    as (_ & Hrun & _ & Hback & _).
  destruct (audio_start_stop Audio.power_on) as (Hno & _).
  split; [apply Hrun; reflexivity|].
  split; [apply Hno; reflexivity|].
  apply Hback; reflexivity.
Defined.

Lemma audio_init_outcomes_witness :
  Audio.audio_init false Demo.capturing = (true, Demo.capturing) /\
  RingClient.wf (snd (Audio.audio_init true Audio.power_on)) /\
  Audio.is_initialized (snd (Audio.audio_init false Audio.power_on)) = false.
Proof.
  destruct (audio_init_outcomes false Demo.capturing) as (Hdone & _).
  destruct (audio_init_outcomes true Audio.power_on) as (_ & Hok).
  destruct (audio_init_outcomes false Audio.power_on) as (_ & Hfail).
  split; [apply Hdone; reflexivity|].
  split; [apply Hok; reflexivity | apply Hfail; reflexivity].
Defined.

Lemma vad_process_arrows_witness :
  vad_arrow (Vad.current_state Demo.vad0)
            (Vad.current_state
               (snd (Vad.vad_process (Some (Demo.loud 1000)) Demo.vad0)))
  = true /\
  state (fst (Vad.vad_process (Some (Demo.loud 1000)) Demo.vad0))
  = Vad.current_state (snd (Vad.vad_process (Some (Demo.loud 1000)) Demo.vad0)).
Proof.
  destruct (vad_process_arrows (Demo.loud 1000) Demo.vad0) as (H1 & H2 & _).
  - reflexivity.
  - split; [exact H1 | exact H2].
Defined.

Lemma vad_set_threshold_clamps_witness :
  Vad.energy_threshold (Vad.vad_set_threshold (F32.lit 1 4) Demo.vad0)
  = F32.lit 1 4 /\
  Vad.vad_get_threshold
    (Vad.vad_set_threshold (F32.lit 1 4) (Vad.vad_set_adaptive true Demo.vad0))
  = Vad.vad_get_threshold (Vad.vad_set_adaptive true Demo.vad0).
Proof.
  destruct (vad_set_threshold_clamps (F32.lit 1 4) Demo.vad0)
    as (_ & _ & Hin & _).
  destruct (vad_set_threshold_clamps (F32.lit 1 4)
              (Vad.vad_set_adaptive true Demo.vad0))
    as (_ & _ & _ & _ & _ & Had).
  split.
  - apply Hin; vm_compute; reflexivity.
  - apply Had. reflexivity.
Defined.

Lemma event_counter_counts_sent_events_witness :
  Main.session_event_count
    (Main.core
       (Main.run (Main.on_session_control true 1000 1000 Demo.connected)
                 (tl Demo.first_session)))
  = u16 (Z.of_nat
           (length
              (filter is_sent
                 (drop (length (Main.trace
                                  (Main.on_session_control true 1000 1000
                                     Demo.connected)))
                       (Main.trace
                          (Main.run
                             (Main.on_session_control true 1000 1000
                                Demo.connected)
                             (tl Demo.first_session))))))).
Proof.
  apply (event_counter_counts_sent_events Demo.connected 1000 1000
           (tl Demo.first_session)).
  - vm_compute. reflexivity.
  - vm_compute. reflexivity.
Defined.

Lemma no_event_outside_session_witness :
  session_events Demo.connected Demo.mute_session = [] /\
  Main.session_active
    (Main.core (Main.run Demo.connected Demo.mute_session)) = false /\
  Main.vad (Main.run Demo.connected Demo.mute_session) = Main.vad Demo.connected.
Proof.
  apply (no_event_outside_session Demo.mute_session Demo.connected).
  - vm_compute. reflexivity.
  - vm_compute. reflexivity.
Defined.

Lemma disconnect_stops_session_witness :
  Main.session_active
    (Main.core (Main.loop (Demo.tick_at 1500 [])
                          (Main.step Demo.listening Main.InDisconnect)))
  = false.
Proof.
  destruct (disconnect_stops_session (Demo.tick_at 1500 [])
              (Main.step Demo.listening Main.InDisconnect)) as (H & _).
  - vm_compute. reflexivity.
  - vm_compute. reflexivity.
  - exact H.
Defined.

Lemma pitch_estimate_stays_in_bounds_witness :
  exists (r : Pitch.PitchResult) (buf' : list F32.t),
    Pitch.pitch_estimate (Demo.square 8000 600) 600 16000
                         Pitch.diff_buffer_init = Some (r, buf') /\
    length buf' = length Pitch.diff_buffer_init.
Proof.
  destruct (pitch_estimate_stays_in_bounds (Demo.square 8000 600) 600 16000
              Pitch.diff_buffer_init) as (r & buf' & H1 & H2 & _).
  - lia.
  - lia.
  - vm_compute. discriminate.
  - reflexivity.
  - exists r, buf'. split; [exact H1 | exact H2].
Defined.

Lemma constant_window_has_no_pitch_witness :
  exists d1 d2 : list F32.t,
    Pitch.yin_difference demo_dc_window 600 Pitch.diff_buffer_init 213
      = Some d1 /\
    (forall t : Z, 0 <= t < 213 -> lag_value d1 t = F32.zero) /\
    Pitch.yin_cumulative_mean d1 213 = Some d2 /\
    (forall t : Z, 0 <= t < 213 -> lag_value d2 t = F32.one) /\
    Pitch.yin_absolute_threshold d2 32 213 Pitch.YIN_THRESHOLD = Some (-1) /\
    Pitch.pitch_estimate demo_dc_window 600 16000 Pitch.diff_buffer_init
    = Some (Pitch.no_pitch, d2).
Proof.
  destruct (constant_window_has_no_pitch demo_dc_window 600 1000 16000
              Pitch.diff_buffer_init) as (_ & _ & H).
  - lia.
  - lia.
  - lia.
  - intros i Hi. unfold read, demo_dc_window.
    destruct (Z.ltb_spec i 0) as [H|H]; [lia|].
    apply lookup_replicate_2. lia.
  - reflexivity.
  - destruct H as (d1 & d2 & _ & H1 & H2 & H3 & H4 & H5 & H6).
    + vm_compute. discriminate.
    + exists d1, d2.
      exact (conj H1 (conj H2 (conj H3 (conj H4 (conj H5 H6))))).
Defined.

(** The three windows of [demo_tone] give the estimates of
    [demo_tone_pitches], in this order. *)
Lemma demo_tone_collect :
  fst <$> Robust.collect demo_tone 1600 1000 0 4 [] Pitch.diff_buffer_init
  = Some demo_tone_pitches.
Proof. vm_compute. reflexivity. Qed.

Lemma demo_tone_collected :
  exists b : list F32.t,
    Robust.collect demo_tone 1600 1000 0 4 [] Pitch.diff_buffer_init
    = Some (demo_tone_pitches, b).
Proof.
  pose proof demo_tone_collect as H.
  destruct (Robust.collect demo_tone 1600 1000 0 4 [] Pitch.diff_buffer_init)
    as [[ps b]|]; [|discriminate H].
  exists b. cbn in H. injection H as ->. reflexivity.
Qed.

Lemma demo_tone_robust (b : list F32.t) :
  Robust.collect demo_tone 1600 1000 0 4 [] Pitch.diff_buffer_init
  = Some (demo_tone_pitches, b) ->
  Robust.pitch_estimate_robust demo_tone 1600 1000 Pitch.diff_buffer_init
  = Some (demo_tone_median, b).
Proof.
  intros H. unfold Robust.pitch_estimate_robust.
  change (Z.to_nat (1600 / Robust.hop_size)) with 4%nat.
  rewrite H. vm_compute. reflexivity.
Qed.

Lemma pitch_estimate_robust_median_witness :
  exists buf' sorted : list F32.t,
    Robust.collect demo_tone 1600 1000 0 4 [] Pitch.diff_buffer_init
      = Some (demo_tone_pitches, buf') /\
    Forall in_pitch_range demo_tone_pitches /\
    Forall (window_estimate demo_tone 1600 1000) demo_tone_pitches /\
    sorted ≡ₚ demo_tone_pitches /\
    StronglySorted le_f32 sorted /\
    read sorted 1 = Some (Pitch.pitch_hz demo_tone_median) /\
    Robust.pitch_estimate_robust demo_tone 1600 1000 Pitch.diff_buffer_init
      = Some (demo_tone_median, buf').
Proof.
  destruct demo_tone_collected as [b Hc].
  pose proof (demo_tone_robust b Hc) as Hr.
  destruct (pitch_estimate_robust_median demo_tone 1600 1000
              Pitch.diff_buffer_init)
    as (r & buf' & H1 & _ & _ & _ & Hv).
  - lia.
  - lia.
  - vm_compute. discriminate.
  - reflexivity.
  - rewrite Hr in H1. injection H1 as <- <-.
    destruct Hv as (_ & _ & pitches & sorted & Hc' & _ & Hall & Hwin & Hperm
                    & Hsort & Hread & _); [reflexivity|].
    replace (Z.to_nat (1600 / Robust.hop_size)) with 4%nat in Hc'
      by reflexivity.
    rewrite Hc in Hc'. injection Hc' as <-.
    exists b, sorted.
    exact (conj Hc (conj Hall (conj Hwin (conj Hperm (conj Hsort
             (conj Hread Hr)))))).
Defined.

Lemma bubble_sort_sorts_witness :
  exists q : list F32.t,
    Robust.bubble_sort demo_pitches = Some q /\
    q ≡ₚ demo_pitches /\ StronglySorted le_f32 q.
Proof.
  apply (bubble_sort_sorts demo_pitches).
  - discriminate.
  - cbn. lia.
  - intros y Hy. unfold demo_pitches in Hy.
    repeat (apply elem_of_cons in Hy; destruct Hy as [->|Hy];
            [discriminate|]).
    apply elem_of_nil in Hy. destruct Hy.
Defined.

Lemma feedback_calls_stay_consistent_witness :
  exists s' : Feedback.t,
    Feedback.run demo_calls Feedback.power_on = Some s' /\
    Feedback.consistent s'.
Proof.
  apply (feedback_calls_stay_consistent demo_calls Feedback.power_on).
  split; reflexivity.
Defined.

Lemma feedback_process_step_witness :
  Feedback.feedback_process 1050 demo_playing = Some demo_playing.
Proof.
  destruct (feedback_process_step 1050 demo_playing
              Feedback.pattern_session_start 3) as (H & _).
  - reflexivity.
  - split; [reflexivity | vm_compute; reflexivity].
  - cbn. lia.
  - apply H. vm_compute. reflexivity.
Defined.

Lemma feedback_trigger_restarts_witness :
  exists s' : Feedback.t,
    Feedback.feedback_trigger FEEDBACK_CONNECTED F32.one 1200 demo_playing
    = Some s' /\
    Feedback.current_pattern s' = FEEDBACK_CONNECTED /\
    Feedback.pattern_step s' = 0.
Proof.
  destruct (feedback_trigger_restarts FEEDBACK_CONNECTED F32.one 1200
              demo_playing) as (s' & H1 & _ & _ & _ & H2).
  destruct H2 as (_ & Hp & _ & Hs & _); [discriminate|].
  exists s'. repeat split; assumption.
Defined.

Lemma feedback_pattern_completes_witness :
  exists s0 s' : Feedback.t,
    Feedback.feedback_trigger FEEDBACK_GOOD_TURN F32.one 1000
                              Feedback.power_on = Some s0 /\
    Feedback.run (map Feedback.Process [1200]) s0 = Some s' /\
    Feedback.pattern_active s' = false.
Proof.
  destruct (feedback_pattern_completes FEEDBACK_GOOD_TURN F32.one 1000
              Feedback.power_on [1200] Feedback.pattern_good_turn 1)
    as (s0 & s' & H1 & H2 & H3 & _).
  - split; [reflexivity | vm_compute; reflexivity].
  - cbn. lia.
  - intros t Ht. apply list_elem_of_singleton in Ht. subst t.
    vm_compute. discriminate.
  - exists s0, s'. repeat split; assumption.
Defined.

Lemma feedback_pattern_needs_calls_witness :
  exists s0 s' : Feedback.t,
    Feedback.feedback_trigger FEEDBACK_ERROR F32.one 1000
                              Feedback.power_on = Some s0 /\
    Feedback.run (map Feedback.Process [5000; 9000]) s0 = Some s' /\
    Feedback.pattern_active s' = true.
Proof.
  destruct (feedback_pattern_needs_calls FEEDBACK_ERROR F32.one 1000
              Feedback.power_on [5000; 9000] Feedback.pattern_error 3)
    as (s0 & s' & H1 & H2 & H3 & _).
  - split; [reflexivity | vm_compute; reflexivity].
  - cbn. lia.
  - exists s0, s'. repeat split; assumption.
Defined.

Lemma feedback_off_is_dark_witness :
  Feedback.off_writes (constrain Main.c_0_5 F32.zero F32.one)
  = [Feedback.LedcWrite Feedback.PWM_CHANNEL_R (Some 0);
     Feedback.LedcWrite Feedback.PWM_CHANNEL_G (Some 0);
     Feedback.LedcWrite Feedback.PWM_CHANNEL_B (Some 0);
     Feedback.LedcWrite Feedback.PWM_CHANNEL_HAPTIC (Some 0)].
Proof.
  destruct (feedback_off_is_dark Main.c_0_5) as (H & _).
  apply H. discriminate.
Defined.

Lemma mute_microphone_no_event_witness :
  session_events (Main.after_setup 5) demo_mute_inputs = [].
Proof.
  destruct (mute_microphone_no_event 5 demo_mute_inputs) as [H _];
    [|exact H].
  unfold demo_mute_inputs.
  apply List.Forall_cons; [exact I|].
  apply List.Forall_cons; [exact I|].
  apply List.Forall_cons; [apply Forall_replicate; reflexivity|].
  apply List.Forall_cons; [apply Forall_replicate; reflexivity|].
  apply List.Forall_cons; [exact I|].
  apply List.Forall_cons; [apply List.Forall_nil|].
  apply List.Forall_nil.
Defined.

Lemma constant_signal_has_no_robust_pitch_witness :
  (exists b' : list F32.t,
     Pitch.pitch_estimate demo_dc_signal 800 16000 Pitch.diff_buffer_init
     = Some (Pitch.no_pitch, b')) /\
  (exists b' : list F32.t,
     Pitch.pitch_estimate (drop 400 demo_dc_signal) 800 16000
                          Pitch.diff_buffer_init
     = Some (Pitch.no_pitch, b')) /\
  exists buf' : list F32.t,
    Robust.collect demo_dc_signal 1200 16000 0 3 [] Pitch.diff_buffer_init
    = Some ([], buf') /\
    Robust.pitch_estimate_robust demo_dc_signal 1200 16000
                                 Pitch.diff_buffer_init
    = Some (Pitch.no_pitch, buf').
Proof.
  destruct (constant_signal_has_no_robust_pitch demo_dc_signal 1200 1000 16000
              Pitch.diff_buffer_init) as (Hw & Hr).
  - lia.
  - lia.
  - lia.
  - intros i Hi. unfold read, demo_dc_signal.
    destruct (Z.ltb_spec i 0) as [H|H]; [lia|].
    apply lookup_replicate_2. lia.
  - reflexivity.
  - split; [|split].
    + apply (Hw 0 Pitch.diff_buffer_init); [lia | vm_compute; discriminate
                                            | reflexivity].
    + apply (Hw 400 Pitch.diff_buffer_init); [lia | vm_compute; discriminate
                                              | reflexivity].
    + exact Hr.
Defined.

Lemma capture_calls_stay_ok_witness :
  Audio.audio_get_frame 6 (Some Main.stack_frame)
    (CaptureClient.run demo_uninitialised Audio.power_on)
  = (false, Some Main.stack_frame,
     CaptureClient.run demo_uninitialised Audio.power_on).
Proof.
  destruct (capture_calls_stay_ok demo_uninitialised) as [_ H].
  apply H. reflexivity.
Defined.
